(** * quotaservice: the bucket container and the gRPC endpoint

    A shallow embedding of package [buckets] (the bucket container, its
    namespaces, the activity channel and the idle watcher) and of the
    [Allow] handler of package [grpc], with the properties of the
    specification stated over them. *)

From stdpp Require Import base gmap list strings sorting.
From Stdlib Require Import ZArith Lia.

Local Open Scope Z_scope.

(** Signed 64-bit wrap-around, for Go's [int64] arithmetic. *)
Definition wrap64 (z : Z) : Z := (z + 2 ^ 63) mod 2 ^ 64 - 2 ^ 63.

(** ** Package buckets *)
Module buckets.

Definition GLOBAL_NAMESPACE : string := "___GLOBAL___".
Definition DEFAULT_BUCKET_NAME : string := "___DEFAULT_BUCKET___".

(** *** The activity channel

    [ActivityChannel] is [chan bool] made with capacity 1.  The model is
    the channel's buffer; a send succeeds when the buffer holds fewer
    elements than the capacity, a receive when it holds at least one. *)
Definition ActivityChannel := list bool.

Definition capacity : nat := 1.

Definition NewActivityChannel : ActivityChannel := [].

(** [(m ActivityChannel) ReportActivity()]:
    [select { case m <- true: default: }] *)
Definition chanReportActivity (m : ActivityChannel) : ActivityChannel :=
  if (length m <? capacity)%nat then m ++ [true] else m.

(** [(m ActivityChannel) ActivityDetected()]:
    [select { case <-m: return true; default: return false }] *)
Definition chanActivityDetected (m : ActivityChannel) : bool * ActivityChannel :=
  match m with
  | _ :: rest => (true, rest)
  | [] => (false, [])
  end.

(** *** Configuration (package configs) *)

(** Modelled from the spec: [configs.BucketConfig], whose declaration is
    not part of the sources at hand.  [MaxIdleMillis] is the field the
    container reads; [Rate] and [Capacity] stand for the tunables that
    pass through to the factory. *)
Record BucketConfig := {
  MaxIdleMillis : Z;
  Rate : Z;
  Capacity : Z
}.

(** Modelled from the spec: [configs.NamespaceConfig], whose declaration
    is not part of the sources at hand, with the fields the container
    reads.  A nil pointer is [None]; the map holds no nil entries. *)
Record NamespaceConfig := {
  DefaultBucket : option BucketConfig;
  DynamicBucketTemplate : option BucketConfig;
  MaxDynamicBuckets : Z;
  Buckets : gmap string BucketConfig
}.

(** Modelled from the spec: [configs.ServiceConfig], whose declaration is
    not part of the sources at hand, with the fields the container
    reads. *)
Record ServiceConfig := {
  GlobalDefaultBucket : option BucketConfig;
  Namespaces : gmap string NamespaceConfig
}.

(** *** Buckets and the store they live in

    A [Bucket] value in Go is an interface holding a pointer; the same
    bucket is reachable from the namespace map, from its watcher and from
    every caller of [FindBucket].  Buckets therefore live in a store and
    are referred to by location; [option loc] is a possibly nil
    [Bucket]. *)
Abbreviation loc := nat (only parsing).

(** Modelled from the spec: the implementations of the interface
    [Bucket], which are not part of the sources at hand.  A bucket is
    bound to the identity it was built with ([bNamespace], [bName],
    [bConfig], [bDynamic]), it embeds an [ActivityChannel], and
    [bDestroyed] counts the calls of [Destroy()]. *)
Record BucketObj := {
  bNamespace : string;
  bName : string;
  bConfig : BucketConfig;
  bDynamic : bool;
  bActivity : ActivityChannel;
  bDestroyed : nat
}.

Definition withActivity (m : ActivityChannel) (o : BucketObj) : BucketObj :=
  {| bNamespace := bNamespace o; bName := bName o; bConfig := bConfig o;
     bDynamic := bDynamic o; bActivity := m; bDestroyed := bDestroyed o |}.

Definition destroyed (o : BucketObj) : BucketObj :=
  {| bNamespace := bNamespace o; bName := bName o; bConfig := bConfig o;
     bDynamic := bDynamic o; bActivity := bActivity o;
     bDestroyed := S (bDestroyed o) |}.

(** What a run leaves behind: lock operations on a namespace, removals
    from a namespace map, and the calls made on buckets. *)
Inductive event :=
  | EvRLock (namespace : string)
  | EvRUnlock (namespace : string)
  | EvLock (namespace : string)
  | EvUnlock (namespace : string)
  | EvDelete (namespace bucketName : string)
  | EvReportActivity (b : loc)
  | EvActivityDetected (b : loc) (r : bool)
  | EvDestroy (b : loc).

Global Instance event_eq_dec : EqDecision event.
Proof. solve_decision. Defined.

(** A goroutine running [ns.watch(bucketName, bucket, freq)].  The
    namespace it was started on is named by its key in the container. *)
Inductive watchPc :=
  | AtStart     (* before [if freq == 0] *)
  | InLoop      (* waiting for a tick of [time.Tick(freq)] *)
  | Removing.   (* left the loop, before [ns.Lock()] *)

Global Instance watchPc_eq_dec : EqDecision watchPc.
Proof. solve_decision. Defined.

Record watcher := {
  wNamespace : string;
  wBucketName : string;
  wBucket : loc;
  wFreq : Z;
  wPc : watchPc
}.

Definition atPc (pc : watchPc) (wt : watcher) : watcher :=
  {| wNamespace := wNamespace wt; wBucketName := wBucketName wt;
     wBucket := wBucket wt; wFreq := wFreq wt; wPc := pc |}.

Record World := {
  heap : list BucketObj;
  goroutines : list watcher;
  trace : list event
}.

Definition emit (evs : list event) (w : World) : World :=
  {| heap := heap w; goroutines := goroutines w; trace := trace w ++ evs |}.

Definition onBucket (f : BucketObj → BucketObj) (b : loc) (w : World) : World :=
  {| heap := alter f b (heap w); goroutines := goroutines w; trace := trace w |}.

Definition go (wt : watcher) (w : World) : World :=
  {| heap := heap w; goroutines := goroutines w ++ [wt]; trace := trace w |}.

(** Modelled from the spec: [bf.NewBucket(namespace, bucketName, cfg,
    dyn)] of the interface [BucketFactory], whose implementations are not
    part of the sources at hand.  It always returns a new bucket, bound
    to the identity it is given, with an empty activity channel. *)
Definition NewBucket (nsName bucketName : string) (cfg : BucketConfig)
    (dyn : bool) (w : World) : loc * World :=
  (length (heap w),
   {| heap := heap w ++ [ {| bNamespace := nsName; bName := bucketName;
                             bConfig := cfg; bDynamic := dyn;
                             bActivity := NewActivityChannel;
                             bDestroyed := 0 |} ];
      goroutines := goroutines w; trace := trace w |}).

(** [bucket.ReportActivity()], through the embedded channel. *)
Definition ReportActivity (b : loc) (w : World) : World :=
  emit [EvReportActivity b]
    (onBucket (λ o, withActivity (chanReportActivity (bActivity o)) o) b w).

(** [bucket.ActivityDetected()], through the embedded channel. *)
Definition ActivityDetected (b : loc) (w : World) : bool * World :=
  let r := match heap w !! b with
           | Some o => (chanActivityDetected (bActivity o)).1
           | None => false
           end in
  (r, emit [EvActivityDetected b r]
        (onBucket
           (λ o, withActivity (chanActivityDetected (bActivity o)).2 o) b w)).

(** Modelled from the spec: [bucket.Dynamic()], which answers whether
    the bucket was built as a dynamic one. *)
Definition Dynamic (w : World) (b : loc) : bool :=
  match heap w !! b with
  | Some o => bDynamic o
  | None => false
  end.

(** Modelled from the spec: [bucket.Destroy()]; of what an
    implementation releases, the model keeps the count of calls. *)
Definition Destroy (b : loc) (w : World) : World :=
  emit [EvDestroy b] (onBucket destroyed b w).

(** *** Namespaces and the container

    Where the source names a string parameter [namespace], the binder is
    [nsName] here: [namespace] is the struct. *)
Record namespace := {
  ns_cfg : NamespaceConfig;
  ns_buckets : gmap string loc;
  ns_defaultBucket : option loc
}.

Definition withBuckets (m : gmap string loc) (ns : namespace) : namespace :=
  {| ns_cfg := ns_cfg ns; ns_buckets := m;
     ns_defaultBucket := ns_defaultBucket ns |}.

Record BucketContainer := {
  bc_cfg : ServiceConfig;
  bc_namespaces : gmap string namespace;
  bc_defaultBucket : option loc
}.

Definition withNamespace (name : string) (ns : namespace)
    (bc : BucketContainer) : BucketContainer :=
  {| bc_cfg := bc_cfg bc; bc_namespaces := <[name := ns]> (bc_namespaces bc);
     bc_defaultBucket := bc_defaultBucket bc |}.

(** [time.Duration(bCfg.MaxIdleMillis) * time.Millisecond] *)
Definition Millisecond : Z := 1000000.

Definition idleDuration (bCfg : BucketConfig) : Z :=
  wrap64 (MaxIdleMillis bCfg * Millisecond).

(** [createNewNamedBucketFromCfg]: the [*namespace] argument is passed in
    and handed back with its map updated. *)
Definition createNewNamedBucketFromCfg (nsName bucketName : string)
    (ns : namespace) (bCfg : BucketConfig) (dyn : bool) (w : World)
    : loc * namespace * World :=
  let '(bucket, w) := NewBucket nsName bucketName bCfg dyn w in
  let ns := withBuckets (<[bucketName := bucket]> (ns_buckets ns)) ns in
  let w := ReportActivity bucket w in
  let w := go {| wNamespace := nsName; wBucketName := bucketName;
                 wBucket := bucket; wFreq := idleDuration bCfg;
                 wPc := AtStart |} w in
  (bucket, ns, w).

(** [countDynamicBuckets]: [None] is the nil dereference of
    [bc.namespaces[namespace]] for a name that is not configured.  The
    counter is a Go [int]; it is bounded by the number of map entries. *)
Definition countDynamicBuckets (bc : BucketContainer) (nsName : string)
    (w : World) : option Z :=
  ns ← bc_namespaces bc !! nsName;
  Some (map_fold (λ _ b c, if Dynamic w b then c + 1 else c) 0 (ns_buckets ns)).

(** [createNewNamedBucket]: [None] is a panic (a nil dereference), a
    result [(None, _, _)] is the nil bucket. *)
Definition createNewNamedBucket (bc : BucketContainer)
    (nsName bucketName : string) (ns : namespace) (w : World)
    : option (option loc * namespace * World) :=
  match Buckets (ns_cfg ns) !! bucketName with
  | Some bCfg =>
      let '(b, ns, w) :=
        createNewNamedBucketFromCfg nsName bucketName ns bCfg false w in
      Some (Some b, ns, w)
  | None =>
      numDynamicBuckets ← countDynamicBuckets bc nsName w;
      if (MaxDynamicBuckets (ns_cfg ns) <=? numDynamicBuckets)
         && (0 <? MaxDynamicBuckets (ns_cfg ns))
      then Some (None, ns, w)
      else
        bCfg ← DynamicBucketTemplate (ns_cfg ns);
        let '(b, ns, w) :=
          createNewNamedBucketFromCfg nsName bucketName ns bCfg true w in
        Some (Some b, ns, w)
  end.

(** [FindBucket].  The deferred [ns.Unlock()] of the creation path runs
    when the function returns, after [ReportActivity]. *)
Definition FindBucket (bc : BucketContainer) (nsName bucketName : string)
    (w : World) : option (option loc * BucketContainer * World) :=
  '(bucket, bc, w, deferred) ←
    match bc_namespaces bc !! nsName with
    | None => Some (bc_defaultBucket bc, bc, w, [])
    | Some ns =>
        let w := emit [EvRLock nsName; EvRUnlock nsName] w in
        match ns_buckets ns !! bucketName with
        | Some b => Some (Some b, bc, w, [])
        | None =>
            match DynamicBucketTemplate (ns_cfg ns) with
            | Some _ =>
                let w := emit [EvLock nsName] w in
                match ns_buckets ns !! bucketName with
                | Some b => Some (Some b, bc, w, [EvUnlock nsName])
                | None =>
                    '(bucket, ns, w) ←
                      createNewNamedBucket bc nsName bucketName ns w;
                    Some (bucket, withNamespace nsName ns bc, w,
                          [EvUnlock nsName])
                end
            | None => Some (ns_defaultBucket ns, bc, w, [])
            end
        end
    end;
  let w := match bucket with
           | Some b => ReportActivity b w
           | None => w
           end in
  Some (bucket, bc, emit deferred w).

(** [Exists] *)
Definition Exists (bc : BucketContainer) (nsName name : string) : bool :=
  match bc_namespaces bc !! nsName with
  | Some ns => bool_decide (is_Some (ns_buckets ns !! name))
  | None => false
  end.

(** The body of the loop over [cfg.Namespaces] in [NewBucketContainer],
    up to the assignment [bc.namespaces[nsName] = nsp].  A [range] loop
    visits the entries of a Go map in an unspecified order; [map_fold]
    visits each entry once, and what is proved of it holds for every
    order of insertion. *)
Definition newNamespace (nsName : string) (nsCfg : NamespaceConfig)
    (w : World) : namespace * World :=
  let nsp := {| ns_cfg := nsCfg; ns_buckets := ∅; ns_defaultBucket := None |} in
  let '(nsp, w) :=
    match DefaultBucket nsCfg with
    | Some dCfg =>
        let '(b, w) := NewBucket nsName DEFAULT_BUCKET_NAME dCfg false w in
        ({| ns_cfg := nsCfg; ns_buckets := ∅; ns_defaultBucket := Some b |}, w)
    | None => (nsp, w)
    end in
  map_fold (λ bucketName bucketCfg '(nsp, w),
              let '(_, nsp, w) :=
                createNewNamedBucketFromCfg nsName bucketName nsp bucketCfg
                  false w in
              (nsp, w))
           (nsp, w) (Buckets nsCfg).

(** [NewBucketContainer] *)
Definition NewBucketContainer (cfg : ServiceConfig) (w : World)
    : BucketContainer * World :=
  let '(d, w) :=
    match GlobalDefaultBucket cfg with
    | Some dCfg =>
        let '(b, w) :=
          NewBucket GLOBAL_NAMESPACE DEFAULT_BUCKET_NAME dCfg false w in
        (Some b, w)
    | None => (None, w)
    end in
  map_fold (λ nsName nsCfg '(bc, w),
              let '(nsp, w) := newNamespace nsName nsCfg w in
              (withNamespace nsName nsp bc, w))
           ({| bc_cfg := cfg; bc_namespaces := ∅; bc_defaultBucket := d |}, w)
           (Namespaces cfg).

(** *** The watcher

    [delete(ns.buckets, bucketName)] on the namespace the watcher was
    started on. *)
Definition deleteBucket (nsName bucketName : string) (bc : BucketContainer)
    : BucketContainer :=
  match bc_namespaces bc !! nsName with
  | Some ns =>
      withNamespace nsName
        (withBuckets (delete bucketName (ns_buckets ns)) ns) bc
  | None => bc
  end.

(** The tail of [watch], from [ns.Lock()] on: the deferred [ns.Unlock()]
    runs when the function returns, after [bucket.Destroy()]. *)
Definition removeBucket (wt : watcher) (bc : BucketContainer) (w : World)
    : BucketContainer * World :=
  let w := emit [EvLock (wNamespace wt)] w in
  let bc := deleteBucket (wNamespace wt) (wBucketName wt) bc in
  let w := emit [EvDelete (wNamespace wt) (wBucketName wt)] w in
  let w := Destroy (wBucket wt) w in
  let w := emit [EvUnlock (wNamespace wt)] w in
  (bc, w).

(** [watch], one step at a time: from the start to the test of [freq],
    from one tick to the next, and from the end of the loop to the
    return.  The outer [None] is a
    goroutine that cannot move: [time.Tick] of a negative duration is a
    nil channel, and a receive from it blocks for ever.  An inner [None]
    is a goroutine that has returned. *)
Definition watchStep (wt : watcher) (bc : BucketContainer) (w : World)
    : option (option watcher * BucketContainer * World) :=
  match wPc wt with
  | AtStart =>
      if wFreq wt =? 0 then Some (None, bc, w)
      else Some (Some (atPc InLoop wt), bc, w)
  | InLoop =>
      if wFreq wt <=? 0 then None
      else
        let '(keepRunning, w) := ActivityDetected (wBucket wt) w in
        Some (Some (atPc (if keepRunning then InLoop else Removing) wt), bc, w)
  | Removing =>
      let '(bc, w) := removeBucket wt bc w in
      Some (None, bc, w)
  end.

(** *** The running system

    The container, the store and the goroutines started so far.  Every
    change of a namespace map is made under the exclusive lock of the
    namespace, so calls of [FindBucket] and the steps between two
    blocking points of a watcher are taken one at a time. *)
Record System := {
  container : BucketContainer;
  world : World
}.

Definition withGoroutines (gs : list watcher) (w : World) : World :=
  {| heap := heap w; goroutines := gs; trace := trace w |}.

Definition runWatcher (i : nat) (s : System) : option System :=
  wt ← goroutines (world s) !! i;
  '(wt', bc, w) ← watchStep wt (container s) (world s);
  Some {| container := bc;
          world := withGoroutines
                     (match wt' with
                      | Some wt' => <[i := wt']> (goroutines w)
                      | None => delete i (goroutines w)
                      end) w |}.

Definition emptyWorld : World :=
  {| heap := []; goroutines := []; trace := [] |}.

Definition start (cfg : ServiceConfig) : System :=
  let '(bc, w) := NewBucketContainer cfg emptyWorld in
  {| container := bc; world := w |}.

(** What can happen next: a caller looks a bucket up, a holder of a
    bucket reports activity on it (as [Take] does), or a watcher moves. *)
Inductive step : System → System → Prop :=
  | step_FindBucket s nsName bucketName r bc w :
      FindBucket (container s) nsName bucketName (world s) = Some (r, bc, w) →
      step s {| container := bc; world := w |}
  | step_ReportActivity s b :
      step s {| container := container s;
                world := ReportActivity b (world s) |}
  | step_watch s i s' :
      runWatcher i s = Some s' →
      step s s'.

Definition reachable (cfg : ServiceConfig) (s : System) : Prop :=
  rtc step (start cfg) s.

(** A run of [FindBucket] over a list of names in one namespace. *)
Fixpoint FindBuckets (bc : BucketContainer) (nsName : string)
    (names : list string) (w : World)
    : option (list (option loc) * BucketContainer * World) :=
  match names with
  | [] => Some ([], bc, w)
  | name :: names =>
      '(r, bc, w) ← FindBucket bc nsName name w;
      '(rs, bc, w) ← FindBuckets bc nsName names w;
      Some (r :: rs, bc, w)
  end.

(** [FullyQualifiedName]: [fmt.Sprintf("%v:%v", namespace, bucketName)]. *)
Definition FullyQualifiedName (nsName bucketName : string) : string :=
  nsName +:+ ":" +:+ bucketName.

(** [sort.Strings]: the slice in increasing order; Go compares strings
    byte by byte. *)
Definition sortStrings (l : list string) : list string :=
  merge_sort String.le l.

(** The line feed. *)
Definition newline : string :=
  String (Ascii.Ascii false true false true false false false false)
    EmptyString.

(** [String], for the orders [nsOrder] and [bOrder] in which the two
    [range] loops hand out the keys of [bc.namespaces] and of the map of
    a namespace; the buffer is threaded through the loops.  [None] is
    the nil dereference of [bc.namespaces[nsName]] for a name that is no
    key. *)
Definition dump (nsOrder : list string) (bOrder : string → list string)
    (bc : BucketContainer) : option string :=
  let buffer :=
    match bc_defaultBucket bc with
    | Some _ => "Global default present" +:+ newline +:+ newline
    | None => EmptyString
    end in
  let sortedNamespaces := sortStrings nsOrder in
  foldl (λ (buffer : option string) nsName,
           buffer ← buffer;
           ns ← bc_namespaces bc !! nsName;
           let buffer := buffer +:+ " * Namespace: " +:+ nsName +:+ newline in
           let buffer :=
             match ns_defaultBucket ns with
             | Some _ => buffer +:+ "   + Default present" +:+ newline
             | None => buffer
             end in
           let sortedBuckets := sortStrings (bOrder nsName) in
           let buffer :=
             foldl (λ buffer bName, buffer +:+ "   + " +:+ bName +:+ newline)
                   buffer sortedBuckets in
           Some (buffer +:+ newline))
        (Some buffer) sortedNamespaces.

(** The keys of a map, in the order the map hands them out. *)
Definition keys {A} (m : gmap string A) : list string := (map_to_list m).*1.

(** [String] *)
Definition BucketContainer_String (bc : BucketContainer) : option string :=
  dump (keys (bc_namespaces bc))
       (λ nsName, match bc_namespaces bc !! nsName with
                  | Some ns => keys (ns_buckets ns)
                  | None => []
                  end)
       bc.

End buckets.

(** ** Package grpc *)
Module grpc.

(** The empty string, the zero value of a Go [string]. *)
Definition emptyString : string := EmptyString.

(** *** Messages (package protos)

    The proto2 messages of [quota_service.proto] as the generated Go code
    has them: every optional field is a pointer, [None] when unset, and
    the getters answer the zero value of an unset field. *)
Record AllowRequest := {
  Namespace : option string;
  Name : option string;
  NumTokensRequested : option Z;
  MaxWaitMillisOverride : option Z
}.

Definition GetNamespace (req : AllowRequest) : string :=
  default emptyString (Namespace req).
Definition GetName (req : AllowRequest) : string :=
  default emptyString (Name req).
Definition GetNumTokensRequested (req : AllowRequest) : Z :=
  default 0 (NumTokensRequested req).
Definition GetMaxWaitMillisOverride (req : AllowRequest) : Z :=
  default 0 (MaxWaitMillisOverride req).

(** [AllowResponse_Status]; [Status_zero] is the zero value of the Go
    type, which names none of the four constants. *)
Inductive AllowResponse_Status :=
  | Status_zero
  | AllowResponse_OK
  | AllowResponse_OK_WAIT
  | AllowResponse_REJECTED
  | AllowResponse_FAILED.

Global Instance AllowResponse_Status_eq_dec : EqDecision AllowResponse_Status.
Proof. solve_decision. Defined.

Record AllowResponse := {
  Status : option AllowResponse_Status;
  NumTokensGranted : option Z;
  WaitMillis : option Z
}.

(** *** Errors of the quota service (package quotaservice) *)

(** Modelled from the spec: the reasons of a [QuotaServiceError], whose
    declaration is not part of the sources at hand.  The three reasons
    are those the handler switches on; [ER_unlisted] stands for any other
    value of the reason type. *)
Inductive ErrorReason :=
  | ER_NO_SUCH_BUCKET
  | ER_REJECTED
  | ER_TIMED_OUT_WAITING
  | ER_unlisted.

(** Modelled from the spec: the errors [qs.Allow] can return, a
    [QuotaServiceError] or any other error. *)
Inductive error :=
  | QuotaServiceError (Reason : ErrorReason)
  | OtherError.

(** [time.Duration] is an [int64] count of nanoseconds. *)
Definition Duration := Z.

Definition Nanoseconds (d : Duration) : Z := d.

(** The duration in whole milliseconds, as the name of the response
    field asks for it: [int64(d / time.Millisecond)], rounded toward
    zero. *)
Definition Milliseconds (d : Duration) : Z := Z.quot d 1000000.

(** The interface [quotaservice.QuotaService], a parameter of the
    handler: [qs.Allow(namespace, name, numTokensRequested,
    maxWaitMillisOverride)] answers [(granted, wait, err)]. *)
Definition QuotaService :=
  string → string → Z → Z → Z * Duration * option error.

(** [invalid] *)
Definition invalid (req : AllowRequest) : bool :=
  bool_decide (GetName req = emptyString)
  || bool_decide (GetNamespace req = emptyString)
  || match NumTokensRequested req with
     | Some _ => GetNumTokensRequested req =? 0
     | None => false
     end.

(** [Allow] *)
Definition Allow (qs : QuotaService) (req : AllowRequest) : AllowResponse :=
  if invalid req then
    {| Status := Some AllowResponse_FAILED; NumTokensGranted := None;
       WaitMillis := None |}
  else
    let numTokensRequested :=
      match NumTokensRequested req with
      | Some _ => GetNumTokensRequested req
      | None => 1
      end in
    let maxWaitMillisOverride :=
      match MaxWaitMillisOverride req with
      | Some _ => GetMaxWaitMillisOverride req
      | None => -1
      end in
    let '(granted, wait, err) :=
      qs (GetNamespace req) (GetName req) numTokensRequested
         maxWaitMillisOverride in
    match err with
    | Some (QuotaServiceError reason) =>
        {| Status := Some match reason with
                          | ER_NO_SUCH_BUCKET => AllowResponse_REJECTED
                          | ER_REJECTED => AllowResponse_REJECTED
                          | ER_TIMED_OUT_WAITING => AllowResponse_REJECTED
                          | ER_unlisted => Status_zero
                          end;
           NumTokensGranted := None; WaitMillis := None |}
    | Some OtherError =>
        {| Status := Some AllowResponse_FAILED; NumTokensGranted := None;
           WaitMillis := None |}
    | None =>
        {| Status := Some (if 0 <? wait then AllowResponse_OK_WAIT
                           else AllowResponse_OK);
           NumTokensGranted := Some granted;
           WaitMillis := Some (Nanoseconds wait) |}
    end.

End grpc.

Import buckets grpc.

(** * Vocabulary of the properties *)

(** What the handler passes on to the quota service. *)
Definition tokensPassed (req : AllowRequest) : Z :=
  default 1 (NumTokensRequested req).
Definition overridePassed (req : AllowRequest) : Z :=
  default (-1) (MaxWaitMillisOverride req).

Definition answer (qs : QuotaService) (req : AllowRequest)
    : Z * Duration * option error :=
  qs (GetNamespace req) (GetName req) (tokensPassed req) (overridePassed req).

(** A quota service that grants after a wait of one millisecond, one
    that fails with an error of its own, a well-formed request and one
    that hands five tokens back. *)
Definition waitOneMillisecond : QuotaService :=
  λ _ _ n _, (n, 1000000, None).

Definition brokenService : QuotaService :=
  λ _ _ _ _, (0, 0, Some OtherError).

Definition plainRequest : AllowRequest :=
  {| Namespace := Some "ns"; Name := Some "b"; NumTokensRequested := None;
     MaxWaitMillisOverride := None |}.

Definition returnTokens : AllowRequest :=
  {| Namespace := Some "ns"; Name := Some "b";
     NumTokensRequested := Some (-5); MaxWaitMillisOverride := None |}.

(** [FindBucket] reports activity on the bucket it is about to return. *)
Definition touched (r : option loc) (w : World) : World :=
  match r with
  | Some b => ReportActivity b w
  | None => w
  end.

(** The events of the two lookups of [FindBucket]. *)
Definition readLocked (nsName : string) (w : World) : World :=
  emit [EvRLock nsName; EvRUnlock nsName] w.

Definition writeLocked (nsName : string) (w : World) : World :=
  emit [EvLock nsName] (readLocked nsName w).

(** The cap on dynamic buckets is reached. *)
Definition capReached (ns : namespace) (w : World) : Prop :=
  0 < MaxDynamicBuckets (ns_cfg ns)
  ∧ MaxDynamicBuckets (ns_cfg ns)
    ≤ map_fold (λ _ b c, if Dynamic w b then c + 1 else c) 0 (ns_buckets ns).

(** The bucket a factory call leaves in the store once
    [createNewNamedBucketFromCfg] has reported activity on it. *)
Definition freshBucket (nsName bucketName : string) (bCfg : BucketConfig)
    (dyn : bool) : BucketObj :=
  {| bNamespace := nsName; bName := bucketName; bConfig := bCfg;
     bDynamic := dyn; bActivity := [true]; bDestroyed := 0 |}.

(** A configuration with one namespace that has a default bucket, a
    template with a cap of two, and one statically configured bucket
    that is evicted when idle. *)
Definition templateCfg : BucketConfig :=
  {| MaxIdleMillis := 50; Rate := 5; Capacity := 5 |}.

Definition staticCfg : BucketConfig :=
  {| MaxIdleMillis := 50; Rate := 100; Capacity := 100 |}.

Definition sampleCfg : ServiceConfig :=
  {| GlobalDefaultBucket := None;
     Namespaces :=
       {[ "ns_d" := {| DefaultBucket := Some templateCfg;
                       DynamicBucketTemplate := Some templateCfg;
                       MaxDynamicBuckets := 2;
                       Buckets := {[ "b1" := staticCfg ]} |} ]} |}.

(** The watcher of "b1" runs from its start to the removal: the first
    tick finds the activity reported at creation, the second finds
    none. *)
Definition afterEviction : option System :=
  s ← runWatcher 0 (start sampleCfg);
  s ← runWatcher 0 s;
  s ← runWatcher 0 s;
  runWatcher 0 s.

(** The state this run ends in: "b1" is gone from the map of "ns_d",
    its bucket was destroyed, and its watcher has returned. *)
Definition evictedNs : namespace :=
  {| ns_cfg := {| DefaultBucket := Some templateCfg;
                  DynamicBucketTemplate := Some templateCfg;
                  MaxDynamicBuckets := 2;
                  Buckets := {[ "b1" := staticCfg ]} |};
     ns_buckets := ∅;
     ns_defaultBucket := Some 0%nat |}.

Definition evictedContainer : BucketContainer :=
  {| bc_cfg := sampleCfg;
     bc_namespaces := {[ "ns_d" := evictedNs ]};
     bc_defaultBucket := None |}.

Definition evictedWorld : World :=
  {| heap :=
       [ {| bNamespace := "ns_d"; bName := DEFAULT_BUCKET_NAME;
            bConfig := templateCfg; bDynamic := false; bActivity := [];
            bDestroyed := 0 |};
         {| bNamespace := "ns_d"; bName := "b1"; bConfig := staticCfg;
            bDynamic := false; bActivity := []; bDestroyed := 1 |} ];
     goroutines := [];
     trace :=
       [ EvReportActivity 1%nat; EvActivityDetected 1%nat true;
         EvActivityDetected 1%nat false; EvLock "ns_d";
         EvDelete "ns_d" "b1"; EvDestroy 1%nat; EvUnlock "ns_d" ] |}.

Definition evicted : System :=
  {| container := evictedContainer; world := evictedWorld |}.

(** What C2 says of a name whose static bucket was evicted: the lookup
    gives the namespace default, a dynamic bucket, or nil. *)
Definition staticNotRecreated (s : System) (nsName name : string) : Prop :=
  ∀ r bc w,
    FindBucket (container s) nsName name (world s) = Some (r, bc, w) →
    r = None
    ∨ r = (bc_namespaces (container s) !! nsName) ≫= ns_defaultBucket
    ∨ ∃ b, r = Some b ∧ Dynamic w b = true.

(** The store without the activity channels: what is fixed when a
    bucket is made, and the count of its [Destroy()] calls. *)
Definition settled (o : BucketObj) : BucketObj := withActivity [] o.

Definition view (w : World) : list BucketObj := settled <$> heap w.

Definition bucketOf (nsName bucketName : string) (bCfg : BucketConfig)
    (dyn : bool) : BucketObj :=
  {| bNamespace := nsName; bName := bucketName; bConfig := bCfg;
     bDynamic := dyn; bActivity := []; bDestroyed := 0 |}.

(** The watcher that [createNewNamedBucketFromCfg] starts. *)
Definition watcherOf (nsName bucketName : string) (b : loc)
    (bCfg : BucketConfig) : watcher :=
  {| wNamespace := nsName; wBucketName := bucketName; wBucket := b;
     wFreq := idleDuration bCfg; wPc := AtStart |}.

(** The namespace after a bucket was stored under a name. *)
Definition stored (name : string) (b : loc) (ns : namespace) : namespace :=
  withBuckets (<[name := b]> (ns_buckets ns)) ns.

(** A looked-up bucket that is not nil and is dynamic. *)
Definition isDynamicBucket (w : World) (r : option loc) : Prop :=
  ∃ b, r = Some b ∧ Dynamic w b = true.

(** Every bucket in the map of a namespace is dynamic. *)
Definition allDynamic (w : World) (ns : namespace) : Prop :=
  ∀ name b, ns_buckets ns !! name = Some b → Dynamic w b = true.

(** A state in which the cap cannot be met: a namespace with a template,
    a default bucket and a cap of one, holding one dynamic bucket. *)
Definition cappedNs : namespace :=
  {| ns_cfg := {| DefaultBucket := Some templateCfg;
                  DynamicBucketTemplate := Some templateCfg;
                  MaxDynamicBuckets := 1;
                  Buckets := ∅ |};
     ns_buckets := {[ "a" := 1%nat ]};
     ns_defaultBucket := Some 0%nat |}.

Definition cappedContainer : BucketContainer :=
  {| bc_cfg := {| GlobalDefaultBucket := None;
                  Namespaces := {[ "ns_c" := ns_cfg cappedNs ]} |};
     bc_namespaces := {[ "ns_c" := cappedNs ]};
     bc_defaultBucket := None |}.

Definition cappedWorld : World :=
  {| heap := [ bucketOf "ns_c" DEFAULT_BUCKET_NAME templateCfg false;
               freshBucket "ns_c" "a" templateCfg true ];
     goroutines := [ watcherOf "ns_c" "a" 1 templateCfg ];
     trace := [ EvReportActivity 1%nat ] |}.

(** A service with one namespace that has a template, a cap of [M] and
    no static buckets, and that namespace as the constructor leaves it. *)
Definition dynamicService (M : Z) : ServiceConfig :=
  {| GlobalDefaultBucket := None;
     Namespaces :=
       {[ "ns_d" := {| DefaultBucket := None;
                       DynamicBucketTemplate := Some templateCfg;
                       MaxDynamicBuckets := M;
                       Buckets := ∅ |} ]} |}.

Definition dynamicNs (M : Z) : namespace :=
  {| ns_cfg := {| DefaultBucket := None;
                  DynamicBucketTemplate := Some templateCfg;
                  MaxDynamicBuckets := M;
                  Buckets := ∅ |};
     ns_buckets := ∅;
     ns_defaultBucket := None |}.

(** Where the container holds a bucket: under a name in the map of a
    namespace, or as a default. *)
Definition storedAt (bc : BucketContainer) (nsName name : string) (b : loc)
    : Prop :=
  ∃ ns, bc_namespaces bc !! nsName = Some ns ∧ ns_buckets ns !! name = Some b.

Definition isDefault (bc : BucketContainer) (b : loc) : Prop :=
  bc_defaultBucket bc = Some b
  ∨ ∃ nsName ns,
      bc_namespaces bc !! nsName = Some ns ∧ ns_defaultBucket ns = Some b.

Definition held (bc : BucketContainer) (b : loc) : Prop :=
  isDefault bc b ∨ ∃ nsName name, storedAt bc nsName name b.

Definition watcherKey (wt : watcher) : string * string :=
  (wNamespace wt, wBucketName wt).

(** The invariant of the running system, over the container, the view of
    the store and the goroutines: a stored bucket is no default, carries
    the identity it is stored under and was never destroyed; a default
    bucket was never destroyed; a watcher watches the bucket stored under
    its name, at the idle period of that bucket, and is past its first
    test only if that period is not zero; no two watchers watch the same
    name; and a bucket the container no longer holds was destroyed
    once. *)
Record Inv (bc : BucketContainer) (v : list BucketObj) (gs : list watcher)
    : Prop := {
  inv_stored : ∀ nsName name b,
    storedAt bc nsName name b →
    ¬ isDefault bc b
    ∧ ∃ o, v !! b = Some o ∧ bNamespace o = nsName ∧ bName o = name
           ∧ bDestroyed o = 0%nat;
  inv_default : ∀ b,
    isDefault bc b → ∃ o, v !! b = Some o ∧ bDestroyed o = 0%nat;
  inv_watched : ∀ i wt,
    gs !! i = Some wt →
    storedAt bc (wNamespace wt) (wBucketName wt) (wBucket wt)
    ∧ (∃ o, v !! wBucket wt = Some o ∧ wFreq wt = idleDuration (bConfig o))
    ∧ (wPc wt ≠ AtStart → wFreq wt ≠ 0);
  inv_keys : NoDup (watcherKey <$> gs);
  inv_destroyed : ∀ b o,
    v !! b = Some o → ¬ held bc b → bDestroyed o = 1%nat
}.

Definition invariant (s : System) : Prop :=
  Inv (container s) (view (world s)) (goroutines (world s)).

(** The part of a namespace that no operation changes. *)
Definition frame (ns : namespace) : NamespaceConfig * option loc :=
  (ns_cfg ns, ns_defaultBucket ns).

Definition sameFrames (bc bc' : BucketContainer) : Prop :=
  bc_cfg bc' = bc_cfg bc
  ∧ bc_defaultBucket bc' = bc_defaultBucket bc
  ∧ ∀ nsName,
      frame <$> bc_namespaces bc' !! nsName = frame <$> bc_namespaces bc !! nsName.

(** The default buckets are as the configuration asks for them: built
    with dynamic=false under the reserved names, and never destroyed. *)
Definition globalDefaultConfigured (cfg : ServiceConfig) (d : option loc)
    (v : list BucketObj) : Prop :=
  match GlobalDefaultBucket cfg with
  | Some dCfg =>
      ∃ b, d = Some b
           ∧ v !! b = Some (bucketOf GLOBAL_NAMESPACE DEFAULT_BUCKET_NAME
                              dCfg false)
  | None => d = None
  end.

Definition nsDefaultConfigured (nsName : string) (ns : namespace)
    (v : list BucketObj) : Prop :=
  match DefaultBucket (ns_cfg ns) with
  | Some dCfg =>
      ∃ b, ns_defaultBucket ns = Some b
           ∧ v !! b = Some (bucketOf nsName DEFAULT_BUCKET_NAME dCfg false)
  | None => ns_defaultBucket ns = None
  end.

(** The container holds the namespaces [m] of the configuration [cfg],
    each with its configuration and its default. *)
Definition built (cfg : ServiceConfig) (m : gmap string NamespaceConfig)
    (bc : BucketContainer) (v : list BucketObj) : Prop :=
  bc_cfg bc = cfg
  ∧ globalDefaultConfigured cfg (bc_defaultBucket bc) v
  ∧ (∀ nsName, ns_cfg <$> bc_namespaces bc !! nsName = m !! nsName)
  ∧ ∀ nsName ns,
      bc_namespaces bc !! nsName = Some ns → nsDefaultConfigured nsName ns v.

(** No goroutine watches the bucket. *)
Definition unwatched (w : World) (b : loc) : Prop :=
  ∀ wt, wt ∈ goroutines w → wBucket wt ≠ b.

(** The state of the sample service after the first tick of the watcher
    of "b1": the activity reported at creation was consumed, and the
    watcher waits for its next tick. *)
Definition idleNs : namespace :=
  {| ns_cfg := ns_cfg evictedNs;
     ns_buckets := {[ "b1" := 1%nat ]};
     ns_defaultBucket := Some 0%nat |}.

Definition idleWatcher : watcher :=
  {| wNamespace := "ns_d"; wBucketName := "b1"; wBucket := 1%nat;
     wFreq := 50000000; wPc := InLoop |}.

Definition idle : System :=
  {| container := {| bc_cfg := sampleCfg;
                     bc_namespaces := {[ "ns_d" := idleNs ]};
                     bc_defaultBucket := None |};
     world := {| heap := [ bucketOf "ns_d" DEFAULT_BUCKET_NAME templateCfg false;
                           bucketOf "ns_d" "b1" staticCfg false ];
                 goroutines := [ idleWatcher ];
                 trace := [ EvReportActivity 1%nat;
                            EvActivityDetected 1%nat true ] |} |}.

(** The events of a removal, in the order of the code. *)
Definition removalEvents (wt : watcher) : list event :=
  [ EvLock (wNamespace wt); EvDelete (wNamespace wt) (wBucketName wt);
    EvDestroy (wBucket wt); EvUnlock (wNamespace wt) ].

(** Every [Destroy()] of a trace is called while no exclusive lock is
    held: what C5 says of the order of the release and the call. *)
Fixpoint destroysOutsideLock (locked : bool) (evs : list event) : bool :=
  match evs with
  | [] => true
  | EvLock _ :: evs => destroysOutsideLock true evs
  | EvUnlock _ :: evs => destroysOutsideLock false evs
  | EvDestroy _ :: evs => negb locked && destroysOutsideLock locked evs
  | _ :: evs => destroysOutsideLock locked evs
  end.

(** A watcher that has returned: it is gone from the goroutines, and
    nothing else has changed. *)
Definition returned (i : nat) (s : System) : System :=
  {| container := container s;
     world := withGoroutines (delete i (goroutines (world s))) (world s) |}.

(** ** Vocabulary of the further properties *)

(** The calls made on an activity channel, and a run of them: the
    answers of the [ActivityDetected] calls, in order, and the channel
    the run leaves. *)
Inductive signalCall :=
  | CallReportActivity
  | CallActivityDetected.

Fixpoint chanRun (m : ActivityChannel) (calls : list signalCall)
    : list bool * ActivityChannel :=
  match calls with
  | [] => ([], m)
  | CallReportActivity :: calls => chanRun (chanReportActivity m) calls
  | CallActivityDetected :: calls =>
      let '(r, m) := chanActivityDetected m in
      let '(rs, m) := chanRun m calls in
      (r :: rs, m)
  end.

(** The same run on a flag that a report sets and a check reads and
    clears. *)
Fixpoint flagRun (flag : bool) (calls : list signalCall) : list bool * bool :=
  match calls with
  | [] => ([], flag)
  | CallReportActivity :: calls => flagRun true calls
  | CallActivityDetected :: calls =>
      let '(rs, flag') := flagRun false calls in
      (flag :: rs, flag')
  end.

(** The bucket stored under a name of a namespace, if any: what [Exists]
    tests. *)
Definition lookupBucket (bc : BucketContainer) (nsName name : string)
    : option loc :=
  ns ← bc_namespaces bc !! nsName;
  ns_buckets ns !! name.

(** What the cascade of [FindBucket] answers in a container when it
    creates nothing. *)
Definition resolved (bc : BucketContainer) (nsName name : string)
    : option loc :=
  match bc_namespaces bc !! nsName with
  | None => bc_defaultBucket bc
  | Some ns =>
      match ns_buckets ns !! name with
      | Some b => Some b
      | None =>
          match DynamicBucketTemplate (ns_cfg ns) with
          | Some _ => None
          | None => ns_defaultBucket ns
          end
      end
  end.

(** The count [countDynamicBuckets] makes over the map of a namespace. *)
Definition dynamicCount (w : World) (m : gmap string loc) : Z :=
  map_fold (λ _ b c, if Dynamic w b then c + 1 else c) 0 m.

(** A lookup that finds nothing under the name and goes on to build a
    bucket: the namespace has a template, and either the name has a
    configuration of its own or the cap is not reached. *)
Definition creates (bc : BucketContainer) (nsName name : string) (w : World)
    : Prop :=
  ∃ ns,
    bc_namespaces bc !! nsName = Some ns
    ∧ ns_buckets ns !! name = None
    ∧ is_Some (DynamicBucketTemplate (ns_cfg ns))
    ∧ (is_Some (Buckets (ns_cfg ns) !! name) ∨ ¬ capReached ns w).

(** A report is pending on a bucket: its activity channel holds one. *)
Definition pending (w : World) (b : loc) : Prop :=
  ∃ o, heap w !! b = Some o ∧ bActivity o ≠ [].

(** The state of the sample service when the watcher of "b1" has found no
    activity at its second tick and has left its loop. *)
Definition leavingWatcher : watcher :=
  {| wNamespace := "ns_d"; wBucketName := "b1"; wBucket := 1%nat;
     wFreq := 50000000; wPc := Removing |}.

Definition leaving : System :=
  {| container := container idle;
     world := {| heap := heap (world idle);
                 goroutines := [ leavingWatcher ];
                 trace := [ EvReportActivity 1%nat;
                            EvActivityDetected 1%nat true;
                            EvActivityDetected 1%nat false ] |} |}.

(** The string holds a colon. *)
Fixpoint hasColon (s : string) : bool :=
  match s with
  | EmptyString => false
  | String c rest => bool_decide (String c EmptyString = ":") || hasColon rest
  end.

(** The request with the two optional numbers written out as the handler
    reads them. *)
Definition explicit (req : AllowRequest) : AllowRequest :=
  {| Namespace := Namespace req; Name := Name req;
     NumTokensRequested := Some (tokensPassed req);
     MaxWaitMillisOverride := Some (overridePassed req) |}.

(** Whether the bucket at a location was built as a dynamic one, and
    the number of dynamic buckets of a map, read off the identities of
    the buckets. *)
Definition isDyn (v : list BucketObj) (b : loc) : bool :=
  match v !! b with
  | Some o => bDynamic o
  | None => false
  end.

Definition dynamicIn (v : list BucketObj) (m : gmap string loc) : Z :=
  map_fold (λ _ b c, if isDyn v b then c + 1 else c) 0 m.

(** Where the configuration of a bucket comes from: a bucket built as a
    dynamic one has the template of the namespace and a name with no
    configuration of its own; any other has the configuration of its
    name. *)
Definition origin (nsCfg : NamespaceConfig) (name : string) (o : BucketObj)
    : Prop :=
  if bDynamic o
  then Buckets nsCfg !! name = None
       ∧ DynamicBucketTemplate nsCfg = Some (bConfig o)
  else Buckets nsCfg !! name = Some (bConfig o).

(** What the running system keeps besides its invariant: every stored
    bucket has the configuration its name asks for; the dynamic buckets
    of a namespace with a cap are no more than the cap; a stored bucket
    with an idle period is watched; and a watcher that has left its loop
    has a positive period. *)
Record Kept (bc : BucketContainer) (v : list BucketObj) (gs : list watcher)
    : Prop := {
  kept_origin : ∀ nsName ns name b o,
    bc_namespaces bc !! nsName = Some ns →
    ns_buckets ns !! name = Some b →
    v !! b = Some o →
    origin (ns_cfg ns) name o;
  kept_cap : ∀ nsName ns,
    bc_namespaces bc !! nsName = Some ns →
    0 < MaxDynamicBuckets (ns_cfg ns) →
    dynamicIn v (ns_buckets ns) ≤ MaxDynamicBuckets (ns_cfg ns);
  kept_watched : ∀ nsName name b o,
    storedAt bc nsName name b →
    v !! b = Some o →
    idleDuration (bConfig o) ≠ 0 →
    ∃ i wt, gs !! i = Some wt ∧ wBucket wt = b;
  kept_leaving : ∀ i wt,
    gs !! i = Some wt → wPc wt = Removing → 0 < wFreq wt
}.

Definition kept (s : System) : Prop :=
  Kept (container s) (view (world s)) (goroutines (world s)).

(** The container as the constructor leaves it for the namespaces [m] of
    a configuration: each namespace has its configuration, the stored
    buckets are those the configuration names, built with
    dynamic=false, each with its watcher, and every watcher is at its
    start. *)
Definition asConfigured (m : gmap string NamespaceConfig)
    (bc : BucketContainer) (v : list BucketObj) (gs : list watcher) : Prop :=
  (∀ nsName ns,
     bc_namespaces bc !! nsName = Some ns → m !! nsName = Some (ns_cfg ns))
  ∧ (∀ nsName ns name b,
       bc_namespaces bc !! nsName = Some ns →
       ns_buckets ns !! name = Some b →
       ∃ c, Buckets (ns_cfg ns) !! name = Some c
            ∧ v !! b = Some (bucketOf nsName name c false)
            ∧ watcherOf nsName name b c ∈ gs)
  ∧ (∀ nsName nsCfg name,
       m !! nsName = Some nsCfg →
       is_Some (Buckets nsCfg !! name) →
       ∃ b, storedAt bc nsName name b)
  ∧ ∀ wt, wt ∈ gs → wPc wt = AtStart.

(** A configuration with one bucket whose MaxIdleMillis is negative. *)
Definition negativeCfg : ServiceConfig :=
  {| GlobalDefaultBucket := None;
     Namespaces :=
       {[ "ns_n" := {| DefaultBucket := None;
                       DynamicBucketTemplate := None;
                       MaxDynamicBuckets := 0;
                       Buckets := {[ "b" := {| MaxIdleMillis := -1;
                                               Rate := 1;
                                               Capacity := 1 |} ]} |} ]} |}.

Definition negativeNs : namespace :=
  {| ns_cfg := {| DefaultBucket := None;
                  DynamicBucketTemplate := None;
                  MaxDynamicBuckets := 0;
                  Buckets := {[ "b" := {| MaxIdleMillis := -1;
                                          Rate := 1;
                                          Capacity := 1 |} ]} |};
     ns_buckets := {[ "b" := 0%nat ]};
     ns_defaultBucket := None |}.

(** No activity channel of the store holds more than its capacity. *)
Definition buffered (w : World) : Prop :=
  ∀ b o, heap w !! b = Some o → (length (bActivity o) ≤ capacity)%nat.

(** * Properties *)

(** ** The activity channel *)
Section activity_channel.

Implicit Types m : ActivityChannel.

Lemma chanReportActivity_length m :
  (length m ≤ capacity)%nat →
  length (chanReportActivity m) = capacity.
Proof.
  unfold chanReportActivity, capacity. intros Hm.
  destruct m as [|x [|y m]]; simpl in *; [done | done | lia].
Qed.

Lemma chanReportActivity_iter_length m (n : nat) :
  (length m ≤ capacity)%nat → (1 ≤ n)%nat →
  length (Nat.iter n chanReportActivity m) = capacity.
Proof.
  intros Hm Hn. destruct n as [|n]; [lia |]. clear Hn. simpl.
  apply chanReportActivity_length.
  induction n as [|n IH]; simpl; [done |].
  rewrite chanReportActivity_length; done.
Qed.

Lemma chanActivityDetected_length m :
  (length m ≤ capacity)%nat →
  (chanActivityDetected m).2 = [].
Proof.
  unfold capacity. destruct m as [|x [|y m]]; simpl; [done | done | lia].
Qed.

(** Every state of a channel made by [NewActivityChannel] respects the
    capacity. *)
Lemma chanReportActivity_capacity m :
  (length m ≤ capacity)%nat → (length (chanReportActivity m) ≤ capacity)%nat.
Proof. intros Hm. by rewrite chanReportActivity_length. Qed.

Lemma chanActivityDetected_capacity m :
  (length m ≤ capacity)%nat →
  (length (chanActivityDetected m).2 ≤ capacity)%nat.
Proof. intros Hm. rewrite chanActivityDetected_length; simpl; [lia | done]. Qed.

(** C6: after n ≥ 1 calls of ReportActivity with no ActivityDetected in
    between, ActivityDetected answers true and the call right after it
    answers false; with no ReportActivity since the last check (or on a
    new channel) ActivityDetected answers false. *)
Theorem activity_coalescing m (n : nat) :
  (length m ≤ capacity)%nat → (1 ≤ n)%nat →
  let reported := Nat.iter n chanReportActivity m in
  (chanActivityDetected reported).1 = true
  ∧ (chanActivityDetected (chanActivityDetected reported).2).1 = false
  ∧ (chanActivityDetected (chanActivityDetected m).2).1 = false
  ∧ (chanActivityDetected NewActivityChannel).1 = false.
Proof.
  intros Hm Hn reported.
  pose proof (chanReportActivity_iter_length m n Hm Hn) as Hlen.
  fold reported in Hlen. unfold capacity in Hlen.
  split_and!.
  - destruct reported; simpl in *; [lia | done].
  - rewrite chanActivityDetected_length; [done | unfold capacity; lia].
  - by rewrite chanActivityDetected_length.
  - done.
Qed.

Lemma activity_coalescing_witness :
  let reported := Nat.iter 3 chanReportActivity NewActivityChannel in
  (chanActivityDetected reported).1 = true
  ∧ (chanActivityDetected (chanActivityDetected reported).2).1 = false
  ∧ (chanActivityDetected (chanActivityDetected NewActivityChannel).2).1 = false
  ∧ (chanActivityDetected NewActivityChannel).1 = false.
Proof.
  apply (activity_coalescing NewActivityChannel 3); unfold capacity; simpl; lia.
Defined.

End activity_channel.

(** ** The Allow handler *)
Section allow.

Implicit Types (qs : QuotaService) (req : AllowRequest).

Lemma Allow_valid qs req :
  invalid req = false →
  Allow qs req =
    match answer qs req with
    | (_, _, Some (QuotaServiceError ER_unlisted)) =>
        {| Status := Some Status_zero; NumTokensGranted := None;
           WaitMillis := None |}
    | (_, _, Some (QuotaServiceError _)) =>
        {| Status := Some AllowResponse_REJECTED; NumTokensGranted := None;
           WaitMillis := None |}
    | (_, _, Some OtherError) =>
        {| Status := Some AllowResponse_FAILED; NumTokensGranted := None;
           WaitMillis := None |}
    | (granted, wait, None) =>
        {| Status := Some (if 0 <? wait then AllowResponse_OK_WAIT
                           else AllowResponse_OK);
           NumTokensGranted := Some granted;
           WaitMillis := Some (Nanoseconds wait) |}
    end.
Proof.
  intros Hv. unfold Allow, answer, tokensPassed, overridePassed.
  rewrite Hv.
  unfold GetNumTokensRequested, GetMaxWaitMillisOverride.
  destruct (NumTokensRequested req), (MaxWaitMillisOverride req); simpl;
    (destruct (qs _ _ _ _) as [[granted wait] [[[]|]|]]; reflexivity).
Qed.

Lemma invalid_spec req :
  invalid req = true ↔
  GetName req = emptyString ∨ GetNamespace req = emptyString
  ∨ NumTokensRequested req = Some 0.
Proof.
  unfold invalid, GetNumTokensRequested.
  rewrite !orb_true_iff, !bool_decide_eq_true.
  destruct (NumTokensRequested req) as [n|]; simpl.
  - rewrite Z.eqb_eq. intuition congruence.
  - intuition congruence.
Qed.

(** The response carries [wait_millis] exactly when the status is OK or
    OK_WAIT. *)
Lemma Allow_WaitMillis_populated qs req :
  is_Some (WaitMillis (Allow qs req)) ↔
  Status (Allow qs req) = Some AllowResponse_OK
  ∨ Status (Allow qs req) = Some AllowResponse_OK_WAIT.
Proof.
  assert (Hno : ∀ st,
            st ≠ AllowResponse_OK → st ≠ AllowResponse_OK_WAIT →
            is_Some (@None Z) ↔
            Some st = Some AllowResponse_OK
            ∨ Some st = Some AllowResponse_OK_WAIT).
  { intros st H1 H2. split.
    - intros Hs. by apply is_Some_None in Hs.
    - intros [Hs|Hs]; congruence. }
  destruct (invalid req) eqn:Hv.
  - unfold Allow. rewrite Hv. simpl. by apply Hno.
  - rewrite (Allow_valid _ _ Hv).
    destruct (answer qs req) as [[granted wait] [[[]|]|]]; simpl;
      try (by apply Hno).
    split; [| by eauto]. intros _. destruct (0 <? wait); eauto.
Qed.

Lemma Allow_WaitMillis_granted qs req granted wait :
  invalid req = false →
  answer qs req = (granted, wait, None) →
  WaitMillis (Allow qs req) = Some (Nanoseconds wait).
Proof. intros Hv Ha. rewrite (Allow_valid _ _ Hv), Ha. done. Qed.

(** C3: for a wait of one millisecond the handler answers OK_WAIT with
    [wait_millis] set to 1000000, the count of nanoseconds, where the
    wait in milliseconds is 1. *)
Theorem Allow_WaitMillis_in_nanoseconds :
  Status (Allow waitOneMillisecond plainRequest) = Some AllowResponse_OK_WAIT
  ∧ WaitMillis (Allow waitOneMillisecond plainRequest) = Some 1000000
  ∧ Milliseconds 1000000 = 1
  ∧ WaitMillis (Allow waitOneMillisecond plainRequest)
    ≠ Some (Milliseconds 1000000).
Proof. split_and!; [reflexivity | reflexivity | reflexivity | discriminate]. Qed.

(** C7, as stated, fails: a well-formed request is answered FAILED when
    the quota service returns an error that is not a
    QuotaServiceError. *)
Lemma FAILED_iff_malformed_counterexample :
  ¬ (Status (Allow brokenService plainRequest) = Some AllowResponse_FAILED ↔
     GetNamespace plainRequest = emptyString
     ∨ GetName plainRequest = emptyString
     ∨ NumTokensRequested plainRequest = Some 0).
Proof.
  intros [H _]. destruct (H eq_refl) as [?|[?|?]]; discriminate.
Qed.

(** C7, amended: the answer is FAILED if and only if the request is
    malformed (empty namespace, empty name, or a token count set to 0)
    or the quota service returns an error that is not a
    QuotaServiceError; a request with a negative token count is not
    malformed on that account, and the count is passed on as it is. *)
Theorem FAILED_iff_malformed_or_other_error qs req :
  (Status (Allow qs req) = Some AllowResponse_FAILED ↔
     (GetNamespace req = emptyString ∨ GetName req = emptyString
      ∨ NumTokensRequested req = Some 0)
     ∨ (answer qs req).2 = Some OtherError)
  ∧ (∀ n, NumTokensRequested req = Some n → n < 0 →
       GetNamespace req ≠ emptyString → GetName req ≠ emptyString →
       invalid req = false ∧ tokensPassed req = n
       ∧ (Status (Allow qs req) = Some AllowResponse_FAILED ↔
          (answer qs req).2 = Some OtherError)).
Proof.
  assert (Hiff : Status (Allow qs req) = Some AllowResponse_FAILED ↔
            invalid req = true ∨ (answer qs req).2 = Some OtherError).
  { destruct (invalid req) eqn:Hv.
    - unfold Allow. rewrite Hv. simpl. tauto.
    - rewrite (Allow_valid _ _ Hv).
      destruct (answer qs req) as [[granted wait] [[[]|]|]]; simpl;
        try destruct (0 <? wait);
        (split; [intros Hs | intros [Hs|Hs]]); congruence || tauto. }
  split.
  - rewrite Hiff, invalid_spec. tauto.
  - intros n Hn Hneg Hns Hname.
    assert (Hv : invalid req = false).
    { apply not_true_is_false. rewrite invalid_spec, Hn.
      intros [?|[?|[= ?]]]; [done | done | lia]. }
    split_and!; [done | by unfold tokensPassed; rewrite Hn |].
    rewrite Hiff, Hv. split; [intros [Hs|Hs] | intros Hs]; auto; congruence.
Qed.

Lemma FAILED_iff_malformed_or_other_error_witness :
  invalid returnTokens = false ∧ tokensPassed returnTokens = -5
  ∧ (Status (Allow brokenService returnTokens) = Some AllowResponse_FAILED ↔
     (answer brokenService returnTokens).2 = Some OtherError).
Proof.
  apply (proj2 (FAILED_iff_malformed_or_other_error brokenService returnTokens)
           (-5)); [reflexivity | lia | discriminate | discriminate].
Defined.

End allow.

(** ** FindBucket *)

(** An event is not among a few listed events of other kinds. *)
Ltac not_listed :=
  let Hin := fresh "Hin" in
  intros Hin;
  repeat (apply elem_of_cons in Hin as [Hin | Hin]; [discriminate Hin |]);
  by apply elem_of_nil in Hin.

Section find_bucket.

Implicit Types (bc : BucketContainer) (ns : namespace) (w : World).
Implicit Types (nsName name : string) (b : loc).

Lemma emit_nil w : emit [] w = w.
Proof. destruct w. unfold emit. simpl. by rewrite app_nil_r. Qed.

Lemma createNewNamedBucketFromCfg_eq nsName name ns bCfg dyn w :
  createNewNamedBucketFromCfg nsName name ns bCfg dyn w =
    (length (heap w),
     withBuckets (<[name := length (heap w)]> (ns_buckets ns)) ns,
     go {| wNamespace := nsName; wBucketName := name;
           wBucket := length (heap w); wFreq := idleDuration bCfg;
           wPc := AtStart |}
        (ReportActivity (length (heap w))
           (NewBucket nsName name bCfg dyn w).2)).
Proof. done. Qed.

(** The store after a creation: the old buckets are where they were and
    the new one is at the end, already touched. *)
Lemma createNewNamedBucketFromCfg_heap nsName name ns bCfg dyn w :
  heap (createNewNamedBucketFromCfg nsName name ns bCfg dyn w).2 =
    heap w ++ [freshBucket nsName name bCfg dyn].
Proof.
  rewrite createNewNamedBucketFromCfg_eq. simpl.
  change (alter ?f ?i ?l) with (list_alter f i l).
  induction (heap w) as [|o h IH]; simpl; [done |]. by rewrite IH.
Qed.

Lemma createNewNamedBucket_static bc nsName name ns bCfg w :
  Buckets (ns_cfg ns) !! name = Some bCfg →
  createNewNamedBucket bc nsName name ns w =
    Some (Some (length (heap w)),
          (createNewNamedBucketFromCfg nsName name ns bCfg false w).1.2,
          (createNewNamedBucketFromCfg nsName name ns bCfg false w).2).
Proof. intros Hc. unfold createNewNamedBucket. by rewrite Hc. Qed.

Lemma createNewNamedBucket_cap bc nsName name ns w :
  bc_namespaces bc !! nsName = Some ns →
  Buckets (ns_cfg ns) !! name = None →
  capReached ns w →
  createNewNamedBucket bc nsName name ns w = Some (None, ns, w).
Proof.
  intros Hns Hc [Hpos Hcap]. unfold createNewNamedBucket, countDynamicBuckets.
  rewrite Hc, Hns. simpl.
  by rewrite (proj2 (Z.leb_le _ _) Hcap), (proj2 (Z.ltb_lt _ _) Hpos).
Qed.

Lemma createNewNamedBucket_dynamic bc nsName name ns bCfg w :
  bc_namespaces bc !! nsName = Some ns →
  Buckets (ns_cfg ns) !! name = None →
  DynamicBucketTemplate (ns_cfg ns) = Some bCfg →
  ¬ capReached ns w →
  createNewNamedBucket bc nsName name ns w =
    Some (Some (length (heap w)),
          (createNewNamedBucketFromCfg nsName name ns bCfg true w).1.2,
          (createNewNamedBucketFromCfg nsName name ns bCfg true w).2).
Proof.
  intros Hns Hc Ht Hcap. unfold createNewNamedBucket, countDynamicBuckets.
  rewrite Hc, Hns, Ht. simpl.
  destruct (_ <=? _) eqn:Hle; [destruct (0 <? _) eqn:Hlt |]; simpl; try done.
  exfalso. apply Hcap. split; [by apply Z.ltb_lt | by apply Z.leb_le].
Qed.

Lemma capReached_dec ns w : Decision (capReached ns w).
Proof. unfold capReached. apply _. Qed.

(** With a template configured, creation never panics, and it answers
    nil exactly when the name has no configuration of its own and the
    cap is reached. *)
Lemma createNewNamedBucket_total bc nsName name ns bCfg w :
  bc_namespaces bc !! nsName = Some ns →
  DynamicBucketTemplate (ns_cfg ns) = Some bCfg →
  ∃ r ns' w',
    createNewNamedBucket bc nsName name ns w = Some (r, ns', w')
    ∧ (r = None ∨ r = Some (length (heap w)))
    ∧ (r = None ↔ Buckets (ns_cfg ns) !! name = None ∧ capReached ns w).
Proof.
  intros Hns Ht.
  destruct (Buckets (ns_cfg ns) !! name) as [c|] eqn:Hc.
  - eexists _, _, _. split; [by apply createNewNamedBucket_static |].
    split; [by right |]. split; [done | by intros [? _]].
  - destruct (capReached_dec ns w) as [Hcap|Hcap].
    + eexists _, _, _. split; [by apply createNewNamedBucket_cap |].
      split; [by left | done].
    + eexists _, _, _.
      split; [by eapply createNewNamedBucket_dynamic |].
      split; [by right |]. split; [done | by intros [_ ?]].
Qed.

Lemma FindBucket_unconfigured bc nsName name w :
  bc_namespaces bc !! nsName = None →
  FindBucket bc nsName name w =
    Some (bc_defaultBucket bc, bc, touched (bc_defaultBucket bc) w).
Proof.
  intros Hns. unfold FindBucket. rewrite Hns. simpl. by rewrite emit_nil.
Qed.

Lemma FindBucket_present bc nsName name ns b w :
  bc_namespaces bc !! nsName = Some ns →
  ns_buckets ns !! name = Some b →
  FindBucket bc nsName name w =
    Some (Some b, bc, ReportActivity b (readLocked nsName w)).
Proof.
  intros Hns Hb. unfold FindBucket. rewrite Hns, Hb. simpl.
  by rewrite emit_nil.
Qed.

Lemma FindBucket_default bc nsName name ns w :
  bc_namespaces bc !! nsName = Some ns →
  ns_buckets ns !! name = None →
  DynamicBucketTemplate (ns_cfg ns) = None →
  FindBucket bc nsName name w =
    Some (ns_defaultBucket ns, bc,
          touched (ns_defaultBucket ns) (readLocked nsName w)).
Proof.
  intros Hns Hb Ht. unfold FindBucket. rewrite Hns, Hb, Ht. simpl.
  by rewrite emit_nil.
Qed.

Lemma FindBucket_create bc nsName name ns bCfg w r ns' w' :
  bc_namespaces bc !! nsName = Some ns →
  ns_buckets ns !! name = None →
  DynamicBucketTemplate (ns_cfg ns) = Some bCfg →
  createNewNamedBucket bc nsName name ns (writeLocked nsName w)
    = Some (r, ns', w') →
  FindBucket bc nsName name w =
    Some (r, withNamespace nsName ns' bc,
          emit [EvUnlock nsName] (touched r w')).
Proof.
  intros Hns Hb Ht Hc. unfold FindBucket. rewrite Hns, Hb, Ht.
  unfold writeLocked, readLocked in Hc. rewrite Hc. done.
Qed.

(** [FindBucket] never panics. *)
Lemma FindBucket_total bc nsName name w :
  is_Some (FindBucket bc nsName name w).
Proof.
  destruct (bc_namespaces bc !! nsName) as [ns|] eqn:Hns;
    [| by rewrite FindBucket_unconfigured].
  destruct (ns_buckets ns !! name) as [b|] eqn:Hb;
    [by erewrite FindBucket_present |].
  destruct (DynamicBucketTemplate (ns_cfg ns)) as [t|] eqn:Ht;
    [| by erewrite FindBucket_default].
  destruct (createNewNamedBucket_total bc nsName name ns t
              (writeLocked nsName w) Hns Ht) as (r & ns' & w' & Hc & _).
  by erewrite FindBucket_create.
Qed.

(** C1: the resolution cascade of Find.  An unconfigured namespace
    gives the global default (possibly nil); a name present in the
    namespace map gives that bucket; otherwise a namespace with a
    template attempts creation, which answers nil exactly when the cap
    is reached for a name without configuration; otherwise the
    namespace default (possibly nil) is returned. *)
Theorem FindBucket_cascade bc nsName name w :
  match bc_namespaces bc !! nsName with
  | None =>
      FindBucket bc nsName name w =
        Some (bc_defaultBucket bc, bc, touched (bc_defaultBucket bc) w)
  | Some ns =>
      match ns_buckets ns !! name with
      | Some b =>
          FindBucket bc nsName name w =
            Some (Some b, bc, ReportActivity b (readLocked nsName w))
      | None =>
          match DynamicBucketTemplate (ns_cfg ns) with
          | Some _ =>
              ∃ r ns' w',
                createNewNamedBucket bc nsName name ns (writeLocked nsName w)
                  = Some (r, ns', w')
                ∧ FindBucket bc nsName name w =
                    Some (r, withNamespace nsName ns' bc,
                          emit [EvUnlock nsName] (touched r w'))
                ∧ (r = None ↔
                   Buckets (ns_cfg ns) !! name = None ∧ capReached ns w)
          | None =>
              FindBucket bc nsName name w =
                Some (ns_defaultBucket ns, bc,
                      touched (ns_defaultBucket ns) (readLocked nsName w))
          end
      end
  end.
Proof.
  destruct (bc_namespaces bc !! nsName) as [ns|] eqn:Hns;
    [| by apply FindBucket_unconfigured].
  destruct (ns_buckets ns !! name) as [b|] eqn:Hb;
    [by eapply FindBucket_present |].
  destruct (DynamicBucketTemplate (ns_cfg ns)) as [t|] eqn:Ht;
    [| by eapply FindBucket_default].
  destruct (createNewNamedBucket_total bc nsName name ns t
              (writeLocked nsName w) Hns Ht) as (r & ns' & w' & Hc & _ & Hnil).
  exists r, ns', w'. split; [done |]. split; [by eapply FindBucket_create |].
  done.
Qed.

(** *** The trace and the store of a lookup *)

Lemma heap_ReportActivity b w l :
  heap (ReportActivity b w) !! l =
    if decide (b = l)
    then (λ o, withActivity (chanReportActivity (bActivity o)) o)
           <$> heap w !! l
    else heap w !! l.
Proof.
  unfold ReportActivity. simpl. case_decide as Hbl.
  - subst. apply list_lookup_alter_eq.
  - by apply list_lookup_alter_ne.
Qed.

Lemma ReportActivity_flagged b w o :
  heap (ReportActivity b w) !! b = Some o → bActivity o ≠ [].
Proof.
  rewrite heap_ReportActivity, decide_True by done.
  destruct (heap w !! b) as [o'|]; simpl; [| done].
  intros [= <-]. simpl. unfold chanReportActivity.
  destruct (bActivity o'); simpl; done.
Qed.

Lemma createNewNamedBucket_trace bc nsName name ns w r ns' w' :
  createNewNamedBucket bc nsName name ns w = Some (r, ns', w') →
  trace w' = trace w ++ match r with
                        | Some b => [EvReportActivity b]
                        | None => []
                        end.
Proof.
  unfold createNewNamedBucket.
  destruct (Buckets (ns_cfg ns) !! name) as [c|].
  - intros [= <- <- <-]. done.
  - destruct (countDynamicBuckets bc nsName w) as [n|]; simpl; [| done].
    destruct (_ && _).
    + intros [= <- <- <-]. by rewrite app_nil_r.
    + destruct (DynamicBucketTemplate (ns_cfg ns)); simpl; [| done].
      intros [= <- <- <-]. done.
Qed.

(** C8: a Find that returns a bucket has called ReportActivity on it
    before it returns, and the bucket's activity channel then holds a
    report; a Find that returns nil has called ReportActivity on no
    bucket. *)
Theorem FindBucket_reports_activity bc nsName name w :
  ∃ r bc' w' evs,
    FindBucket bc nsName name w = Some (r, bc', w')
    ∧ trace w' = trace w ++ evs
    ∧ match r with
      | Some b =>
          EvReportActivity b ∈ evs
          ∧ ∀ o, heap w' !! b = Some o → bActivity o ≠ []
      | None => ∀ b, EvReportActivity b ∉ evs
      end.
Proof.
  assert (Htouched : ∀ r w0 evs0,
            trace w0 = trace w ++ evs0 →
            (r = None → ∀ b, EvReportActivity b ∉ evs0) →
            ∃ evs, trace (touched r w0) = trace w ++ evs
              ∧ match r with
                | Some b =>
                    EvReportActivity b ∈ evs
                    ∧ ∀ o, heap (touched r w0) !! b = Some o →
                           bActivity o ≠ []
                | None => ∀ b, EvReportActivity b ∉ evs
                end).
  { intros [b|] w0 evs0 Htr Hnone; simpl.
    - exists (evs0 ++ [EvReportActivity b]). rewrite Htr, <-(assoc_L _).
      split; [done |]. split; [| apply ReportActivity_flagged].
      apply elem_of_app. right. by apply list_elem_of_singleton.
    - exists evs0. split; [done | by apply Hnone]. }
  destruct (bc_namespaces bc !! nsName) as [ns|] eqn:Hns.
  2: { pose proof (FindBucket_unconfigured bc nsName name w Hns) as Hcase.
       destruct (Htouched (bc_defaultBucket bc) w []) as (evs & Htr & Hr).
       - by rewrite app_nil_r.
       - intros _ b. not_listed.
       - eexists _, _, _, evs. split; [exact Hcase |]. by split. }
  destruct (ns_buckets ns !! name) as [b|] eqn:Hb.
  { pose proof (FindBucket_present bc nsName name ns b w Hns Hb) as Hcase.
    destruct (Htouched (Some b) (readLocked nsName w)
                [EvRLock nsName; EvRUnlock nsName]) as (evs & Htr & Hr);
      [done | done |].
    eexists _, _, _, evs. split; [exact Hcase |]. by split. }
  destruct (DynamicBucketTemplate (ns_cfg ns)) as [t|] eqn:Ht.
  2: { pose proof (FindBucket_default bc nsName name ns w Hns Hb Ht) as Hcase.
       destruct (Htouched (ns_defaultBucket ns) (readLocked nsName w)
                   [EvRLock nsName; EvRUnlock nsName]) as (evs & Htr & Hr).
       - done.
       - intros _ b. not_listed.
       - eexists _, _, _, evs. split; [exact Hcase |]. by split. }
  destruct (createNewNamedBucket_total bc nsName name ns t
              (writeLocked nsName w) Hns Ht) as (r & ns' & w' & Hc & _).
  pose proof (FindBucket_create bc nsName name ns t w r ns' w' Hns Hb Ht Hc)
    as Hf.
  apply createNewNamedBucket_trace in Hc as Htr'.
  destruct (Htouched r w'
              ([EvRLock nsName; EvRUnlock nsName; EvLock nsName]
               ++ match r with
                  | Some b => [EvReportActivity b]
                  | None => []
                  end)) as (evs & Htr & Hr).
  - rewrite Htr'. simpl. by rewrite <-!(assoc_L _).
  - intros -> b. simpl. not_listed.
  - eexists r, _, _, (evs ++ [EvUnlock nsName]). split; [exact Hf |].
    split; [simpl; by rewrite Htr, <-(assoc_L _) |].
    destruct r as [b|].
    + destruct Hr as [Hin Hflag]. split; [| done].
      apply elem_of_app. by left.
    + intros b. apply not_elem_of_app. split; [apply Hr | not_listed].
Qed.

Lemma withNamespace_id bc nsName ns :
  bc_namespaces bc !! nsName = Some ns → withNamespace nsName ns bc = bc.
Proof.
  intros Hns. destruct bc. unfold withNamespace. simpl in *.
  by rewrite insert_id.
Qed.

Lemma FindBucket_cap_reached bc nsName name ns bCfg w :
  bc_namespaces bc !! nsName = Some ns →
  DynamicBucketTemplate (ns_cfg ns) = Some bCfg →
  ns_buckets ns !! name = None →
  Buckets (ns_cfg ns) !! name = None →
  capReached ns w →
  FindBucket bc nsName name w =
    Some (None, bc, emit [EvUnlock nsName] (writeLocked nsName w)).
Proof.
  intros Hns Ht Hb Hc Hcap.
  erewrite FindBucket_create; [| done | done | done |].
  2: { by apply createNewNamedBucket_cap. }
  by rewrite withNamespace_id.
Qed.

(** C10: in a namespace with both a template and a default bucket, a
    Find for an absent name without configuration that meets the cap
    returns nil and leaves the container as it was; with a template
    configured, no Find for an absent name returns the namespace
    default. *)
Theorem FindBucket_cap_gives_nil_not_default bc nsName name ns bCfg d w :
  bc_namespaces bc !! nsName = Some ns →
  DynamicBucketTemplate (ns_cfg ns) = Some bCfg →
  ns_defaultBucket ns = Some d →
  (d < length (heap w))%nat →
  ns_buckets ns !! name = None →
  Buckets (ns_cfg ns) !! name = None →
  capReached ns w →
  FindBucket bc nsName name w =
    Some (None, bc, emit [EvUnlock nsName] (writeLocked nsName w))
  ∧ ∀ name' r bc' w',
      ns_buckets ns !! name' = None →
      FindBucket bc nsName name' w = Some (r, bc', w') →
      r ≠ Some d.
Proof.
  intros Hns Ht Hd Hvalid Hb Hc Hcap. split.
  - by eapply FindBucket_cap_reached.
  - intros name' r bc' w' Hb' Hf.
    destruct (createNewNamedBucket_total bc nsName name' ns bCfg
                (writeLocked nsName w) Hns Ht)
      as (r0 & ns' & w0 & Hc0 & Hr0 & _).
    erewrite FindBucket_create in Hf by done.
    injection Hf as <- _ _.
    destruct Hr0 as [-> | ->]; [done |]. simpl. intros [= Heq]. lia.
Qed.

(** *** What a lookup does to the store *)

Lemma view_length w : length (view w) = length (heap w).
Proof. unfold view. by rewrite length_fmap. Qed.

Lemma view_lookup w l o :
  heap w !! l = Some o → view w !! l = Some (settled o).
Proof. intros Hl. unfold view. by rewrite list_lookup_fmap, Hl. Qed.

Lemma view_lookup_inv w l o :
  view w !! l = Some o → ∃ o', heap w !! l = Some o' ∧ o = settled o'.
Proof.
  unfold view. rewrite list_lookup_fmap.
  destruct (heap w !! l) as [o'|]; simpl; [| done].
  intros [= <-]. eauto.
Qed.

Lemma view_onBucket f b w :
  (∀ o, settled (f o) = settled o) → view (onBucket f b w) = view w.
Proof.
  intros Hf. unfold view, onBucket. simpl.
  rewrite (list_fmap_alter settled f id).
  - by apply list_alter_id.
  - apply Forall_forall. intros o _. apply Hf.
Qed.

Lemma view_ReportActivity b w : view (ReportActivity b w) = view w.
Proof. unfold ReportActivity. by apply view_onBucket. Qed.

Lemma view_ActivityDetected b w : view (ActivityDetected b w).2 = view w.
Proof. unfold ActivityDetected. by apply view_onBucket. Qed.

Lemma view_touched r w : view (touched r w) = view w.
Proof. destruct r; [apply view_ReportActivity | done]. Qed.

Lemma goroutines_touched r w : goroutines (touched r w) = goroutines w.
Proof. by destruct r. Qed.

Lemma view_Destroy b w : view (Destroy b w) = alter destroyed b (view w).
Proof.
  unfold Destroy, view, onBucket. simpl.
  apply list_fmap_alter, Forall_forall. by intros o _.
Qed.

Lemma view_createNewNamedBucketFromCfg nsName name ns bCfg dyn w :
  view (createNewNamedBucketFromCfg nsName name ns bCfg dyn w).2 =
    view w ++ [bucketOf nsName name bCfg dyn].
Proof.
  unfold view. rewrite createNewNamedBucketFromCfg_heap.
  by rewrite fmap_app.
Qed.

Lemma Dynamic_view w b :
  Dynamic w b = match view w !! b with
                | Some o => bDynamic o
                | None => false
                end.
Proof.
  unfold Dynamic, view. rewrite list_lookup_fmap.
  by destruct (_ !! _).
Qed.

Lemma view_created nsName name ns bCfg dyn evs w :
  view (emit [EvUnlock nsName]
          (touched (Some (length (heap w)))
             (createNewNamedBucketFromCfg nsName name ns bCfg dyn
                (emit evs w)).2)) =
    view w ++ [bucketOf nsName name bCfg dyn].
Proof.
  change (view (emit ?e ?w0)) with (view w0). rewrite view_touched.
  exact (view_createNewNamedBucketFromCfg nsName name ns bCfg dyn (emit evs w)).
Qed.

(** A lookup either leaves the container, the buckets and the
    goroutines as they were, or it stores one new bucket under the name
    looked up and starts its watcher. *)
Lemma FindBucket_effect bc nsName name w r bc' w' :
  FindBucket bc nsName name w = Some (r, bc', w') →
  (bc' = bc ∧ view w' = view w ∧ goroutines w' = goroutines w
   ∧ (r = None ∨ r = bc_defaultBucket bc
      ∨ ∃ ns, bc_namespaces bc !! nsName = Some ns
              ∧ (r = ns_defaultBucket ns ∨ r = ns_buckets ns !! name)))
  ∨ ∃ ns bCfg dyn,
      bc_namespaces bc !! nsName = Some ns
      ∧ ns_buckets ns !! name = None
      ∧ is_Some (DynamicBucketTemplate (ns_cfg ns))
      ∧ (Buckets (ns_cfg ns) !! name = Some bCfg ∧ dyn = false
         ∨ Buckets (ns_cfg ns) !! name = None
           ∧ DynamicBucketTemplate (ns_cfg ns) = Some bCfg ∧ dyn = true
           ∧ ¬ capReached ns w)
      ∧ r = Some (length (heap w))
      ∧ bc' = withNamespace nsName (stored name (length (heap w)) ns) bc
      ∧ view w' = view w ++ [bucketOf nsName name bCfg dyn]
      ∧ goroutines w' =
          goroutines w ++ [watcherOf nsName name (length (heap w)) bCfg].
Proof.
  destruct (bc_namespaces bc !! nsName) as [ns|] eqn:Hns.
  2: { rewrite FindBucket_unconfigured by done. intros [= <- <- <-]. left.
       rewrite view_touched, goroutines_touched. eauto 10. }
  destruct (ns_buckets ns !! name) as [b|] eqn:Hb.
  { erewrite FindBucket_present by done. intros [= <- <- <-]. left.
    rewrite view_ReportActivity. split_and!; [done..|].
    right. right. exists ns. rewrite Hb. eauto. }
  destruct (DynamicBucketTemplate (ns_cfg ns)) as [t|] eqn:Ht.
  2: { erewrite FindBucket_default by done. intros [= <- <- <-]. left.
       rewrite view_touched, goroutines_touched. eauto 10. }
  intros Hf.
  destruct (Buckets (ns_cfg ns) !! name) as [c|] eqn:Hc.
  - erewrite FindBucket_create in Hf; [| done..|].
    2: { by apply createNewNamedBucket_static. }
    injection Hf as <- <- <-. right. exists ns, c, false.
    split; [done |]. split; [done |]. split; [eauto |].
    split; [by left |]. split; [done |]. split; [done |].
    split; [| done].
    exact (view_created nsName name ns c false
             [EvRLock nsName; EvRUnlock nsName; EvLock nsName] w).
  - destruct (capReached_dec ns w) as [Hcap|Hcap].
    + erewrite FindBucket_create in Hf; [| done..|].
      2: { by apply createNewNamedBucket_cap. }
      injection Hf as <- <- <-. left.
      rewrite withNamespace_id by done. eauto.
    + erewrite FindBucket_create in Hf; [| done..|].
      2: { by eapply createNewNamedBucket_dynamic. }
      injection Hf as <- <- <-. right. exists ns, t, true.
      split; [done |]. split; [done |]. split; [eauto |].
      split; [by right |]. split; [done |]. split; [done |].
      split; [| done].
      exact (view_created nsName name ns t true
               [EvRLock nsName; EvRUnlock nsName; EvLock nsName] w).
Qed.

(** *** A static bucket that was evicted *)

Lemma afterEviction_evicted : afterEviction = Some evicted.
Proof. vm_compute. reflexivity. Qed.

Lemma evicted_reachable : reachable sampleCfg evicted.
Proof.
  pose proof afterEviction_evicted as Hs.
  unfold afterEviction, reachable in *.
  destruct (runWatcher 0 (start sampleCfg)) as [s1|] eqn:H1; [| done].
  simpl in Hs.
  destruct (runWatcher 0 s1) as [s2|] eqn:H2; [| done]. simpl in Hs.
  destruct (runWatcher 0 s2) as [s3|] eqn:H3; [| done]. simpl in Hs.
  eapply rtc_l; [by apply (step_watch _ 0 s1) |].
  eapply rtc_l; [by apply (step_watch _ 0 s2) |].
  eapply rtc_l; [by apply (step_watch _ 0 s3) |].
  eapply rtc_l; [by apply (step_watch _ 0 evicted) |].
  apply rtc_refl.
Qed.

(** C2, as stated, fails: in a namespace with a template, the static
    bucket "b1" is evicted by its watcher, and the next Find for "b1"
    builds it again from its own configuration, with dynamic=false; the
    result is neither nil, nor the namespace default, nor a dynamic
    bucket. *)
Lemma static_eviction_counterexample :
  afterEviction = Some evicted
  ∧ Exists (container evicted) "ns_d" "b1" = false
  ∧ ¬ staticNotRecreated evicted "ns_d" "b1".
Proof.
  split; [vm_compute; reflexivity |]. split; [vm_compute; reflexivity |].
  intros Hclaim.
  edestruct Hclaim as [Hr | [Hr | (b & Hr & Hdyn)]];
    [vm_compute; reflexivity | ..].
  - discriminate Hr.
  - vm_compute in Hr. discriminate Hr.
  - injection Hr as <-. vm_compute in Hdyn. discriminate Hdyn.
Qed.

(** C2, amended: for a statically configured name whose bucket is no
    longer in the namespace map, a Find in a namespace without a
    template returns the namespace default (possibly nil) and builds
    nothing; in a namespace with a template it builds the static bucket
    again from its own configuration, with dynamic=false, whatever the
    cap, and stores it under the name. *)
Theorem FindBucket_after_static_eviction bc nsName name ns bCfg w :
  bc_namespaces bc !! nsName = Some ns →
  Buckets (ns_cfg ns) !! name = Some bCfg →
  ns_buckets ns !! name = None →
  match DynamicBucketTemplate (ns_cfg ns) with
  | None =>
      FindBucket bc nsName name w =
        Some (ns_defaultBucket ns, bc,
              touched (ns_defaultBucket ns) (readLocked nsName w))
      ∧ Exists bc nsName name = false
  | Some _ =>
      ∃ bc' w',
        FindBucket bc nsName name w = Some (Some (length (heap w)), bc', w')
        ∧ heap w' !! length (heap w)
          = Some (freshBucket nsName name bCfg false)
        ∧ Dynamic w' (length (heap w)) = false
        ∧ Exists bc' nsName name = true
  end.
Proof.
  intros Hns Hc Hb.
  destruct (DynamicBucketTemplate (ns_cfg ns)) as [t|] eqn:Ht.
  - assert (Hheap :
      heap (emit [EvUnlock nsName]
              (touched (Some (length (heap w)))
                 (createNewNamedBucketFromCfg nsName name ns bCfg false
                    (writeLocked nsName w)).2)) !! length (heap w)
      = Some (freshBucket nsName name bCfg false)).
    { change (heap (emit ?e ?w0)) with (heap w0). unfold touched.
      rewrite heap_ReportActivity, decide_True by done.
      rewrite createNewNamedBucketFromCfg_heap.
      change (heap (writeLocked nsName w)) with (heap w).
      by rewrite list_lookup_middle. }
    pose proof (createNewNamedBucket_static bc nsName name ns bCfg
                  (writeLocked nsName w) Hc) as Hcreate.
    change (length (heap (writeLocked nsName w))) with (length (heap w))
      in Hcreate.
    eexists _, _. split.
    { eapply FindBucket_create; [done.. |]. exact Hcreate. }
    split; [exact Hheap |]. split.
    + unfold Dynamic.
      change (length (heap (writeLocked nsName w))) with (length (heap w)).
      by rewrite Hheap.
    + unfold Exists, withNamespace. simpl. rewrite lookup_insert_eq.
      simpl. rewrite lookup_insert_eq. by apply bool_decide_eq_true_2.
  - split; [by apply FindBucket_default |].
    unfold Exists. rewrite Hns, Hb. apply bool_decide_eq_false_2.
    by intros [? ?].
Qed.

Lemma FindBucket_after_static_eviction_witness :
  ∃ bc' w',
    FindBucket evictedContainer "ns_d" "b1" evictedWorld
      = Some (Some 2%nat, bc', w')
    ∧ heap w' !! 2%nat = Some (freshBucket "ns_d" "b1" staticCfg false)
    ∧ Dynamic w' 2 = false
    ∧ Exists bc' "ns_d" "b1" = true.
Proof.
  apply (FindBucket_after_static_eviction evictedContainer "ns_d" "b1"
           evictedNs staticCfg evictedWorld); vm_compute; reflexivity.
Defined.

Lemma FindBucket_cap_gives_nil_not_default_witness :
  FindBucket cappedContainer "ns_c" "b" cappedWorld =
    Some (None, cappedContainer,
          emit [EvUnlock "ns_c"] (writeLocked "ns_c" cappedWorld))
  ∧ ∀ name' r bc' w',
      ns_buckets cappedNs !! name' = None →
      FindBucket cappedContainer "ns_c" name' cappedWorld = Some (r, bc', w') →
      r ≠ Some 0%nat.
Proof.
  apply (FindBucket_cap_gives_nil_not_default cappedContainer "ns_c" "b"
           cappedNs templateCfg 0%nat cappedWorld);
    try (vm_compute; reflexivity).
  - simpl. lia.
  - split; vm_compute; [reflexivity | discriminate].
Defined.

End find_bucket.

(** ** The cap on dynamic buckets *)
Section dynamic_buckets.

Implicit Types (bc : BucketContainer) (ns : namespace) (w : World).
Implicit Types (nsName name : string) (names : list string).

Lemma countDynamic_all w (m : gmap string nat) :
  (∀ name b, m !! name = Some b → Dynamic w b = true) →
  map_fold (λ _ b c, if Dynamic w b then c + 1 else c) 0 m = Z.of_nat (size m).
Proof.
  apply (map_fold_weak_ind
           (λ c m, (∀ name b, m !! name = Some b → Dynamic w b = true) →
                   c = Z.of_nat (size m))).
  - intros _. by rewrite map_size_empty.
  - intros name b m' c Hfresh IH Hall.
    rewrite (Hall name b) by apply lookup_insert_eq.
    rewrite map_size_insert_None by done.
    rewrite IH; [lia |].
    intros name' b' Hb'. apply (Hall name').
    rewrite lookup_insert_ne; [done |]. intros ->. congruence.
Qed.

Lemma capReached_all w ns :
  allDynamic w ns →
  capReached ns w ↔
  0 < MaxDynamicBuckets (ns_cfg ns)
  ∧ MaxDynamicBuckets (ns_cfg ns) ≤ Z.of_nat (size (ns_buckets ns)).
Proof. intros Hall. unfold capReached. by rewrite countDynamic_all. Qed.

Lemma FindBucket_Dynamic_mono bc nsName name w r bc' w' b :
  FindBucket bc nsName name w = Some (r, bc', w') →
  Dynamic w b = true → Dynamic w' b = true.
Proof.
  intros Hf. rewrite !Dynamic_view.
  destruct (FindBucket_effect _ _ _ _ _ _ _ Hf)
    as [(_ & -> & _) | (ns & c & dyn & _ & _ & _ & _ & _ & _ & -> & _)];
    [done |].
  destruct (view w !! b) as [o|] eqn:Hb; [| done].
  rewrite lookup_app_l by (by eapply lookup_lt_Some). by rewrite Hb.
Qed.

Lemma FindBuckets_Dynamic_mono names bc nsName w rs bc' w' b :
  FindBuckets bc nsName names w = Some (rs, bc', w') →
  Dynamic w b = true → Dynamic w' b = true.
Proof.
  revert bc w rs. induction names as [|name names IH]; intros bc w rs; simpl.
  - by intros [= _ _ <-].
  - destruct (FindBucket bc nsName name w) as [[[r bc1] w1]|] eqn:Hf;
      simpl; [| done].
    destruct (FindBuckets bc1 nsName names w1) as [[[rs1 bc2] w2]|] eqn:Hfs;
      simpl; [| done].
    intros [= <- <- <-] Hb. eapply IH; [done |].
    by eapply FindBucket_Dynamic_mono.
Qed.

(** A first lookup below the cap stores a new dynamic bucket. *)
Lemma FindBucket_new_dynamic bc nsName name ns bCfg w :
  bc_namespaces bc !! nsName = Some ns →
  DynamicBucketTemplate (ns_cfg ns) = Some bCfg →
  Buckets (ns_cfg ns) !! name = None →
  ns_buckets ns !! name = None →
  ¬ capReached ns w →
  ∃ w', FindBucket bc nsName name w =
          Some (Some (length (heap w)),
                withNamespace nsName (stored name (length (heap w)) ns) bc, w')
        ∧ view w' = view w ++ [bucketOf nsName name bCfg true].
Proof.
  intros Hns Ht Hc Hb Hcap.
  pose proof (createNewNamedBucket_dynamic bc nsName name ns bCfg
                (writeLocked nsName w) Hns Hc Ht Hcap) as Hcreate.
  eexists. split.
  - eapply FindBucket_create; [done.. |]. exact Hcreate.
  - exact (view_created nsName name ns bCfg true
             [EvRLock nsName; EvRUnlock nsName; EvLock nsName] w).
Qed.

Lemma FindBuckets_dynamic nsName bCfg names :
  ∀ bc w ns,
    bc_namespaces bc !! nsName = Some ns →
    DynamicBucketTemplate (ns_cfg ns) = Some bCfg →
    Buckets (ns_cfg ns) = ∅ →
    allDynamic w ns →
    NoDup names →
    (∀ name, name ∈ names → ns_buckets ns !! name = None) →
    (MaxDynamicBuckets (ns_cfg ns) ≤ 0
     ∨ Z.of_nat (size (ns_buckets ns)) + Z.of_nat (length names)
       ≤ MaxDynamicBuckets (ns_cfg ns)) →
    ∃ rs bc' w' ns',
      FindBuckets bc nsName names w = Some (rs, bc', w')
      ∧ Forall (isDynamicBucket w') rs
      ∧ length rs = length names
      ∧ bc_namespaces bc' !! nsName = Some ns'
      ∧ ns_cfg ns' = ns_cfg ns
      ∧ allDynamic w' ns'
      ∧ size (ns_buckets ns') = (size (ns_buckets ns) + length names)%nat
      ∧ ∀ name,
          name ∉ names → ns_buckets ns' !! name = ns_buckets ns !! name.
Proof.
  induction names as [|name names IH];
    intros bc w ns Hns Ht Hc Hall Hnd Hfresh Hroom.
  { exists [], bc, w, ns. simpl. split_and!; first [done | lia]. }
  apply NoDup_cons in Hnd as [Hname Hnd].
  assert (Hcap : ¬ capReached ns w).
  { rewrite capReached_all by done. simpl in Hroom. lia. }
  destruct (FindBucket_new_dynamic bc nsName name ns bCfg w)
    as (w1 & Hf & Hview); try done.
  { by rewrite Hc. }
  { apply Hfresh. by left. }
  set (l := length (heap w)) in *.
  assert (Hl : Dynamic w1 l = true).
  { rewrite Dynamic_view, Hview.
    rewrite list_lookup_middle; [done |]. by rewrite view_length. }
  destruct (IH (withNamespace nsName (stored name l ns) bc) w1
              (stored name l ns))
    as (rs & bc' & w' & ns' & Hfs & Hrs & Hlen & Hns' & Hcfg & Hall' & Hsize
        & Hsame).
  - simpl. apply lookup_insert_eq.
  - done.
  - done.
  - intros name' b. simpl.
    destruct (decide (name = name')) as [->|Hne].
    + rewrite lookup_insert_eq. by intros [= <-].
    + rewrite lookup_insert_ne by done. intros Hb.
      eapply FindBucket_Dynamic_mono; [done |]. by eapply Hall.
  - done.
  - intros name' Hin. simpl. rewrite lookup_insert_ne.
    + apply Hfresh. by right.
    + by intros ->.
  - simpl. rewrite map_size_insert_None by (apply Hfresh; by left).
    simpl in Hroom. lia.
  - exists (Some l :: rs), bc', w', ns'. simpl. rewrite Hf. simpl.
    rewrite Hfs. simpl. split; [done |]. split.
    { constructor; [| done]. exists l. split; [done |].
      by eapply FindBuckets_Dynamic_mono. }
    split; [by rewrite Hlen |]. split; [done |]. split; [done |].
    split; [done |]. split.
    + rewrite Hsize. simpl.
      rewrite map_size_insert_None by (apply Hfresh; by left). lia.
    + intros name' Hnotin. apply not_elem_of_cons in Hnotin as [Hne Hnotin].
      rewrite Hsame by done. simpl. by rewrite lookup_insert_ne.
Qed.

(** C4: in a namespace with a template, no static buckets and an empty
    map, Finds for M distinct names, M = MaxDynamicBuckets > 0, each
    return a bucket that is not nil and is dynamic, and the Find for one
    more name returns nil; when MaxDynamicBuckets ≤ 0, Finds for any
    number of distinct names each return a dynamic bucket. *)
Theorem dynamic_cap bc nsName ns bCfg names name w :
  bc_namespaces bc !! nsName = Some ns →
  DynamicBucketTemplate (ns_cfg ns) = Some bCfg →
  Buckets (ns_cfg ns) = ∅ →
  ns_buckets ns = ∅ →
  NoDup (name :: names) →
  (0 < MaxDynamicBuckets (ns_cfg ns) →
   Z.of_nat (length names) = MaxDynamicBuckets (ns_cfg ns) →
   ∃ rs bc' w' bc'' w'',
     FindBuckets bc nsName names w = Some (rs, bc', w')
     ∧ length rs = length names
     ∧ Forall (isDynamicBucket w') rs
     ∧ FindBucket bc' nsName name w' = Some (None, bc'', w''))
  ∧ (MaxDynamicBuckets (ns_cfg ns) ≤ 0 →
     ∃ rs bc' w',
       FindBuckets bc nsName (name :: names) w = Some (rs, bc', w')
       ∧ length rs = S (length names)
       ∧ Forall (isDynamicBucket w') rs).
Proof.
  intros Hns Ht Hc Hempty Hnd.
  assert (Hall : allDynamic w ns).
  { intros name' b. by rewrite Hempty, lookup_empty. }
  assert (Hfresh : ∀ name', ns_buckets ns !! name' = None).
  { intros name'. by rewrite Hempty, lookup_empty. }
  split.
  - intros Hpos Hlen.
    apply NoDup_cons in Hnd as [Hname Hnd].
    destruct (FindBuckets_dynamic nsName bCfg names bc w ns)
      as (rs & bc' & w' & ns' & Hfs & Hrs & Hlen' & Hns' & Hcfg & Hall' & Hsize
          & Hsame); try done.
    { right. rewrite Hempty, map_size_empty. lia. }
    assert (Hcap : capReached ns' w').
    { rewrite capReached_all by done. rewrite Hcfg, Hsize.
      rewrite Hempty, map_size_empty. lia. }
    exists rs, bc', w', bc', (emit [EvUnlock nsName] (writeLocked nsName w')).
    split; [done |]. split; [done |]. split; [done |].
    eapply FindBucket_cap_reached; try done.
    + by rewrite Hcfg.
    + by rewrite Hsame.
    + by rewrite Hcfg, Hc.
  - intros Hle.
    destruct (FindBuckets_dynamic nsName bCfg (name :: names) bc w ns)
      as (rs & bc' & w' & ns' & Hfs & Hrs & Hlen' & _); try done.
    { by left. }
    by exists rs, bc', w'.
Qed.

Lemma dynamic_cap_witness :
  (∃ rs bc' w' bc'' w'',
     FindBuckets (container (start (dynamicService 2))) "ns_d" ["a"; "b"]
       (world (start (dynamicService 2))) = Some (rs, bc', w')
     ∧ length rs = 2%nat
     ∧ Forall (isDynamicBucket w') rs
     ∧ FindBucket bc' "ns_d" "c" w' = Some (None, bc'', w''))
  ∧ (∃ rs bc' w',
       FindBuckets (container (start (dynamicService 0))) "ns_d"
         ["c"; "a"; "b"] (world (start (dynamicService 0)))
         = Some (rs, bc', w')
       ∧ length rs = 3%nat
       ∧ Forall (isDynamicBucket w') rs).
Proof.
  split.
  - destruct (dynamic_cap (container (start (dynamicService 2))) "ns_d"
                (dynamicNs 2) templateCfg ["a"; "b"] "c"
                (world (start (dynamicService 2)))) as [Hcap _];
      [vm_compute; reflexivity.. | compute_done |].
    apply Hcap; [simpl; lia | reflexivity].
  - destruct (dynamic_cap (container (start (dynamicService 0))) "ns_d"
                (dynamicNs 0) templateCfg ["a"; "b"] "c"
                (world (start (dynamicService 0)))) as [_ Hfree];
      [vm_compute; reflexivity.. | compute_done |].
    apply Hfree. simpl. lia.
Defined.

End dynamic_buckets.

(** ** The invariant of the running system *)
Section invariant.

Implicit Types (bc : BucketContainer) (ns : namespace) (w : World).
Implicit Types (nsName name : string) (b : nat).
Implicit Types (v : list BucketObj) (gs : list watcher) (wt : watcher).

Lemma storedAt_fun bc nsName name b b' :
  storedAt bc nsName name b → storedAt bc nsName name b' → b = b'.
Proof. intros (ns & Hns & Hb) (ns' & Hns' & Hb'). congruence. Qed.

Lemma storedAt_stored bc nsName name ns l n m b :
  bc_namespaces bc !! nsName = Some ns →
  storedAt (withNamespace nsName (stored name l ns) bc) n m b ↔
  (n = nsName ∧ m = name ∧ b = l)
  ∨ ((n, m) ≠ (nsName, name) ∧ storedAt bc n m b).
Proof.
  intros Hns. unfold storedAt, withNamespace, stored. simpl. split.
  - intros (ns' & Hns' & Hb).
    destruct (decide (nsName = n)) as [<-|Hn].
    + rewrite lookup_insert_eq in Hns'. injection Hns' as <-. simpl in Hb.
      destruct (decide (name = m)) as [<-|Hm].
      * rewrite lookup_insert_eq in Hb. left. by injection Hb as <-.
      * rewrite lookup_insert_ne in Hb by done. right.
        split; [congruence | eauto].
    + rewrite lookup_insert_ne in Hns' by done. right.
      split; [congruence | eauto].
  - intros [(-> & -> & ->) | (Hne & ns' & Hns' & Hb)].
    + eexists. rewrite lookup_insert_eq. split; [done |]. simpl.
      by rewrite lookup_insert_eq.
    + destruct (decide (nsName = n)) as [<-|Hn].
      * eexists. rewrite lookup_insert_eq. split; [done |]. simpl.
        rewrite lookup_insert_ne by congruence. congruence.
      * exists ns'. by rewrite lookup_insert_ne.
Qed.

Lemma isDefault_frame bc nsName ns ns' b :
  bc_namespaces bc !! nsName = Some ns →
  ns_defaultBucket ns' = ns_defaultBucket ns →
  isDefault (withNamespace nsName ns' bc) b ↔ isDefault bc b.
Proof.
  intros Hns Hd. unfold isDefault, withNamespace. simpl. split.
  - intros [Hg | (n & ns0 & Hn & Hb)]; [by left |]. right.
    destruct (decide (nsName = n)) as [<-|Hne].
    + rewrite lookup_insert_eq in Hn. injection Hn as <-.
      exists nsName, ns. split; [done | congruence].
    + rewrite lookup_insert_ne in Hn by done. eauto.
  - intros [Hg | (n & ns0 & Hn & Hb)]; [by left |]. right.
    destruct (decide (nsName = n)) as [<-|Hne].
    + exists nsName, ns'. rewrite lookup_insert_eq. split; [done | congruence].
    + exists n, ns0. by rewrite lookup_insert_ne.
Qed.

Lemma storedAt_deleteBucket bc nsName name n m b :
  storedAt (deleteBucket nsName name bc) n m b ↔
  (n, m) ≠ (nsName, name) ∧ storedAt bc n m b.
Proof.
  unfold deleteBucket.
  destruct (bc_namespaces bc !! nsName) as [ns|] eqn:Hns.
  - unfold storedAt, withNamespace, withBuckets. simpl. split.
    + intros (ns' & Hns' & Hb).
      destruct (decide (nsName = n)) as [<-|Hn].
      * rewrite lookup_insert_eq in Hns'. injection Hns' as <-. simpl in Hb.
        apply lookup_delete_Some in Hb as [Hm Hb].
        split; [congruence | eauto].
      * rewrite lookup_insert_ne in Hns' by done.
        split; [congruence | eauto].
    + intros (Hne & ns' & Hns' & Hb).
      destruct (decide (nsName = n)) as [<-|Hn].
      * eexists. rewrite lookup_insert_eq. split; [done |]. simpl.
        rewrite lookup_delete_ne by congruence. congruence.
      * exists ns'. by rewrite lookup_insert_ne.
  - split; [| by intros [_ ?]].
    intros Hst. split; [| done].
    destruct Hst as (ns' & Hns' & _). congruence.
Qed.

Lemma isDefault_deleteBucket bc nsName name b :
  isDefault (deleteBucket nsName name bc) b ↔ isDefault bc b.
Proof.
  unfold deleteBucket.
  destruct (bc_namespaces bc !! nsName) as [ns|] eqn:Hns; [| done].
  by apply (isDefault_frame bc nsName ns).
Qed.

(** A new bucket stored under a free name, with its watcher. *)
Lemma Inv_create bc v gs nsName name ns bCfg dyn :
  Inv bc v gs →
  bc_namespaces bc !! nsName = Some ns →
  ns_buckets ns !! name = None →
  Inv (withNamespace nsName (stored name (length v) ns) bc)
      (v ++ [bucketOf nsName name bCfg dyn])
      (gs ++ [watcherOf nsName name (length v) bCfg]).
Proof.
  intros [Hst Hdef Hwt Hkeys Hdes] Hns Hfree.
  assert (Hnew : ∀ b, storedAt bc nsName name b → False).
  { intros b (ns' & Hns' & Hb). congruence. }
  assert (Hold : ∀ b o, v !! b = Some o →
            (v ++ [bucketOf nsName name bCfg dyn]) !! b = Some o).
  { intros b o Hb. rewrite lookup_app_l; [done |]. by eapply lookup_lt_Some. }
  split.
  - intros n m b. rewrite storedAt_stored by done.
    rewrite (isDefault_frame bc nsName ns) by done.
    intros [(-> & -> & ->) | (Hne & Hb)].
    + split.
      * intros Hd. destruct (Hdef _ Hd) as (o & Ho & _).
        apply lookup_lt_Some in Ho. lia.
      * eexists. by rewrite list_lookup_middle.
    + destruct (Hst _ _ _ Hb) as (Hnd & o & Ho & Hid). split; [done |].
      exists o. split; [by apply Hold | done].
  - intros b. rewrite (isDefault_frame bc nsName ns) by done. intros Hd.
    destruct (Hdef _ Hd) as (o & Ho & Hz). exists o. split; [by apply Hold | done].
  - intros i wt. rewrite lookup_snoc_Some.
    intros [(_ & Hi) | (_ & <-)].
    + destruct (Hwt _ _ Hi) as (Hs & (o & Ho & Hf) & Hpc).
      split; [| split; [| done]].
      * rewrite storedAt_stored by done. right. split; [| done].
        intros [= Hn Hm]. apply (Hnew (wBucket wt)). by rewrite <-Hn, <-Hm.
      * exists o. split; [by apply Hold | done].
    + simpl. split; [| split; [| done]].
      * rewrite storedAt_stored by done. by left.
      * eexists. by rewrite list_lookup_middle.
  - rewrite fmap_app. simpl. apply NoDup_app. split; [done |]. split.
    + intros key Hin ->%list_elem_of_singleton.
      apply list_elem_of_fmap in Hin as (wt & Hkey & Hin).
      apply list_elem_of_lookup_1 in Hin as (i & Hi).
      destruct (Hwt _ _ Hi) as (Hs & _).
      injection Hkey as Hn Hm. apply (Hnew (wBucket wt)).
      by rewrite Hn, Hm.
    + apply NoDup_singleton.
  - intros b o Hb Hnh. apply lookup_snoc_Some in Hb as [(_ & Hb) | (-> & <-)].
    + apply (Hdes _ _ Hb). intros [Hd | (n & m & Hs)]; apply Hnh.
      * left. by rewrite (isDefault_frame bc nsName ns).
      * right. exists n, m. rewrite storedAt_stored by done. right.
        split; [| done]. intros [= -> ->]. by eapply Hnew.
    + exfalso. apply Hnh. right. exists nsName, name.
      rewrite storedAt_stored by done. by left.
Qed.

(** A watcher removes the bucket it watches and destroys it. *)
Lemma Inv_remove bc v gs i wt :
  Inv bc v gs →
  gs !! i = Some wt →
  Inv (deleteBucket (wNamespace wt) (wBucketName wt) bc)
      (alter destroyed (wBucket wt) v) (delete i gs).
Proof.
  intros [Hst Hdef Hwt Hkeys Hdes] Hi.
  destruct (Hwt _ _ Hi) as (Hs & (o & Ho & Hf) & Hpc).
  destruct (Hst _ _ _ Hs) as (Hnd & o0 & Ho0 & Hn0 & Hm0 & Hz0).
  assert (o0 = o) as -> by congruence.
  assert (Hother : ∀ n m b,
            storedAt bc n m b → (n, m) ≠ (wNamespace wt, wBucketName wt) →
            b ≠ wBucket wt).
  { intros n m b Hb Hne ->.
    destruct (Hst _ _ _ Hb) as (_ & o' & Ho' & Hn' & Hm' & _).
    apply Hne. congruence. }
  assert (Hrest : ∀ j wt',
            delete i gs !! j = Some wt' →
            (∃ j', gs !! j' = Some wt') ∧ watcherKey wt' ≠ watcherKey wt).
  { intros j wt'. rewrite list_lookup_delete. intros Hj. split; [eauto |].
    intros Hkey.
    assert (Hneq : (if decide (j < i)%nat then j else S j) ≠ i)
      by (case_decide; lia).
    apply Hneq.
    apply (NoDup_lookup (watcherKey <$> gs) _ _ (watcherKey wt) Hkeys).
    - rewrite list_lookup_fmap, Hj. simpl. by rewrite Hkey.
    - by rewrite list_lookup_fmap, Hi. }
  split.
  - intros n m b. rewrite storedAt_deleteBucket, isDefault_deleteBucket.
    intros [Hne Hb]. destruct (Hst _ _ _ Hb) as (Hnd' & o' & Ho' & Hid).
    split; [done |]. exists o'. split; [| done].
    rewrite list_lookup_alter_ne; [done |].
    intros Heq. by apply (Hother n m b).
  - intros b. rewrite isDefault_deleteBucket. intros Hd.
    destruct (Hdef _ Hd) as (o' & Ho' & Hz). exists o'. split; [| done].
    rewrite list_lookup_alter_ne; [done |]. intros <-. by apply Hnd.
  - intros j wt' Hj. destruct (Hrest _ _ Hj) as ((j' & Hj') & Hkey).
    destruct (Hwt _ _ Hj') as (Hs' & (o' & Ho' & Hf') & Hpc').
    split; [| split; [| done]].
    + rewrite storedAt_deleteBucket. split; [| done]. exact Hkey.
    + exists o'. split; [| done]. rewrite list_lookup_alter_ne; [done |].
      intros Heq. eapply Hother; [exact Hs' | exact Hkey | done].
  - rewrite list_fmap_delete. eapply sublist_NoDup; [done |].
    apply sublist_delete.
  - intros b o' Hb Hnh. destruct (decide (wBucket wt = b)) as [<-|Hne].
    + rewrite list_lookup_alter_eq, Ho in Hb. injection Hb as <-. simpl.
      by rewrite Hz0.
    + rewrite list_lookup_alter_ne in Hb by done.
      apply (Hdes _ _ Hb). intros [Hd | (n & m & Hb')]; apply Hnh.
      * left. by rewrite isDefault_deleteBucket.
      * right. exists n, m. rewrite storedAt_deleteBucket. split; [| done].
        intros [= -> ->]. apply Hne. by eapply storedAt_fun.
Qed.

(** A watcher moves on in its code. *)
Lemma Inv_pc bc v gs i wt pc :
  Inv bc v gs →
  gs !! i = Some wt →
  (pc ≠ AtStart → wFreq wt ≠ 0) →
  Inv bc v (<[i := atPc pc wt]> gs).
Proof.
  intros [Hst Hdef Hwt Hkeys Hdes] Hi Hpc. split; try done.
  - intros j wt'. rewrite list_lookup_insert. case_decide as Hj.
    + intros [= <-]. destruct (Hwt _ _ Hi) as (Hs & Ho & _). by simpl.
    + apply Hwt.
  - rewrite list_fmap_insert.
    change (watcherKey (atPc pc wt)) with (watcherKey wt).
    rewrite list_insert_id; [done |]. by rewrite list_lookup_fmap, Hi.
Qed.

(** A watcher returns. *)
Lemma Inv_return bc v gs i :
  Inv bc v gs → Inv bc v (delete i gs).
Proof.
  intros [Hst Hdef Hwt Hkeys Hdes]. split; try done.
  - intros j wt. rewrite list_lookup_delete. apply Hwt.
  - rewrite list_fmap_delete. eapply sublist_NoDup; [done |].
    apply sublist_delete.
Qed.

(** What a step of a watcher does. *)
Lemma runWatcher_effect i s s' :
  runWatcher i s = Some s' →
  ∃ wt,
    goroutines (world s) !! i = Some wt
    ∧ ((wPc wt = AtStart ∧ wFreq wt = 0
        ∧ container s' = container s
        ∧ view (world s') = view (world s)
        ∧ trace (world s') = trace (world s)
        ∧ goroutines (world s') = delete i (goroutines (world s)))
       ∨ (wPc wt ≠ Removing ∧ wFreq wt ≠ 0
          ∧ container s' = container s
          ∧ view (world s') = view (world s)
          ∧ ∃ pc, pc ≠ AtStart
                  ∧ goroutines (world s')
                    = <[i := atPc pc wt]> (goroutines (world s)))
       ∨ (wPc wt = Removing
          ∧ container s'
            = deleteBucket (wNamespace wt) (wBucketName wt) (container s)
          ∧ view (world s') = alter destroyed (wBucket wt) (view (world s))
          ∧ trace (world s')
            = trace (world s)
              ++ [EvLock (wNamespace wt);
                  EvDelete (wNamespace wt) (wBucketName wt);
                  EvDestroy (wBucket wt); EvUnlock (wNamespace wt)]
          ∧ goroutines (world s') = delete i (goroutines (world s)))).
Proof.
  unfold runWatcher.
  destruct (goroutines (world s) !! i) as [wt|] eqn:Hi; simpl; [| done].
  intros Hs. exists wt. split; [done |].
  unfold watchStep in Hs. destruct (wPc wt) eqn:Hpc.
  - destruct (wFreq wt =? 0) eqn:Hf; simpl in Hs; injection Hs as <-.
    + left. apply Z.eqb_eq in Hf. done.
    + right. left. apply Z.eqb_neq in Hf. simpl.
      split; [done |]. split; [done |]. split; [done |]. split; [done |].
      by exists InLoop.
  - destruct (wFreq wt <=? 0) eqn:Hf; simpl in Hs; [done |].
    injection Hs as <-. right. left. apply Z.leb_gt in Hf. simpl.
    split; [done |]. split; [lia |]. split; [done |].
    split; [apply view_ActivityDetected |].
    exists (if (ActivityDetected (wBucket wt) (world s)).1
            then InLoop else Removing).
    split; [| done]. by destruct (ActivityDetected _ _).1.
  - simpl in Hs. injection Hs as <-. right. right. simpl.
    split; [done |]. split; [done |]. split; [| split; [| done]].
    + exact (view_Destroy (wBucket wt) (world s)).
    + by rewrite <-!(assoc_L (++)).
Qed.

Lemma step_invariant s s' : step s s' → invariant s → invariant s'.
Proof.
  unfold invariant. intros Hstep Hinv.
  destruct Hstep as [s n m r bc w Hf | s b | s i s' Hw].
  - simpl.
    destruct (FindBucket_effect _ _ _ _ _ _ _ Hf)
      as [(-> & -> & -> & _)
         | (ns & c & dyn & Hns & Hb & _ & _ & _ & -> & -> & ->)]; [done |].
    rewrite <-view_length. by apply Inv_create.
  - simpl. by rewrite view_ReportActivity.
  - destruct (runWatcher_effect _ _ _ Hw) as (wt & Hi & Hcases).
    destruct Hcases
      as [(_ & _ & -> & -> & _ & ->)
         | [(_ & Hfreq & -> & -> & pc & _ & ->)
           | (_ & -> & -> & _ & ->)]].
    + by apply Inv_return.
    + by apply Inv_pc.
    + by apply Inv_remove.
Qed.

(** *** The invariant holds when the container is built *)

Lemma withNamespace_twice bc nsName ns ns' :
  withNamespace nsName ns' (withNamespace nsName ns bc)
  = withNamespace nsName ns' bc.
Proof. unfold withNamespace. simpl. by rewrite insert_insert_eq. Qed.

Lemma Inv_initial cfg d v :
  (d = None ∧ v = []
   ∨ ∃ o, d = Some 0%nat ∧ v = [o] ∧ bDestroyed o = 0%nat) →
  Inv {| bc_cfg := cfg; bc_namespaces := ∅; bc_defaultBucket := d |} v [].
Proof.
  intros Hd.
  assert (Hno : ∀ n m b,
            ¬ storedAt {| bc_cfg := cfg; bc_namespaces := ∅;
                          bc_defaultBucket := d |} n m b).
  { intros n m b (ns & Hns & _). simpl in Hns. by rewrite lookup_empty in Hns. }
  assert (Hdef : ∀ b,
            isDefault {| bc_cfg := cfg; bc_namespaces := ∅;
                         bc_defaultBucket := d |} b ↔ d = Some b).
  { intros b. unfold isDefault. simpl. split; [| by left].
    intros [? | (n & ns & Hns & _)]; [done |].
    by rewrite lookup_empty in Hns. }
  split.
  - intros n m b Hs. by apply Hno in Hs.
  - intros b. rewrite Hdef. intros ->.
    destruct Hd as [[? _] | (o & [= ->] & -> & Hz)]; [done |]. by exists o.
  - intros i wt. by rewrite lookup_nil.
  - constructor.
  - intros b o Hb Hnh. exfalso. apply Hnh. left. rewrite Hdef.
    destruct Hd as [[_ ->] | (o' & -> & -> & _)]; [by rewrite lookup_nil in Hb |].
    destruct b; [done |]. by rewrite lookup_cons, lookup_nil in Hb.
Qed.

(** A namespace enters the container with an empty map and, when one is
    configured, a default bucket that was just made. *)
Lemma Inv_namespace bc v gs nsName nsCfg d ext :
  Inv bc v gs →
  bc_namespaces bc !! nsName = None →
  (d = None ∧ ext = []
   ∨ ∃ o, d = Some (length v) ∧ ext = [o] ∧ bDestroyed o = 0%nat) →
  Inv (withNamespace nsName
         {| ns_cfg := nsCfg; ns_buckets := ∅; ns_defaultBucket := d |} bc)
      (v ++ ext) gs.
Proof.
  intros [Hst Hdef Hwt Hkeys Hdes] Hns Hd.
  set (bc' := withNamespace nsName _ bc).
  assert (Hstored : ∀ n m b, storedAt bc' n m b ↔ storedAt bc n m b).
  { intros n m b. unfold storedAt, bc', withNamespace. simpl.
    destruct (decide (nsName = n)) as [<-|Hne].
    - rewrite lookup_insert_eq, Hns. split.
      + intros (ns & [= <-] & Hb). simpl in Hb. by rewrite lookup_empty in Hb.
      + by intros (ns & ? & _).
    - by rewrite lookup_insert_ne. }
  assert (Hdefault : ∀ b, isDefault bc' b ↔ isDefault bc b ∨ d = Some b).
  { intros b. unfold isDefault, bc', withNamespace. simpl. split.
    - intros [Hg | (n & ns & Hn & Hb)]; [by left; left |].
      destruct (decide (nsName = n)) as [<-|Hne].
      + rewrite lookup_insert_eq in Hn. injection Hn as <-. by right.
      + rewrite lookup_insert_ne in Hn by done. left. right. eauto.
    - intros [[Hg | (n & ns & Hn & Hb)] | Hb]; [by left | |].
      + right. exists n, ns. rewrite lookup_insert_ne; [done |].
        intros ->. congruence.
      + right. eexists nsName, _. by rewrite lookup_insert_eq. }
  assert (Hold : ∀ b o, v !! b = Some o → (v ++ ext) !! b = Some o).
  { intros b o Hb. rewrite lookup_app_l; [done |]. by eapply lookup_lt_Some. }
  assert (Hfresh : ∀ b, d = Some b → b = length v ∧ ∃ o, ext = [o]
                                     ∧ bDestroyed o = 0%nat).
  { intros b ->. destruct Hd as [[? _] | (o & [= ->] & -> & Hz)]; [done |].
    eauto. }
  split.
  - intros n m b. rewrite Hstored, Hdefault. intros Hs.
    destruct (Hst _ _ _ Hs) as (Hnd & o & Ho & Hid). split.
    + intros [Hd' | Hd']; [done |].
      apply Hfresh in Hd' as [-> _]. apply lookup_lt_Some in Ho. lia.
    + exists o. split; [by apply Hold | done].
  - intros b. rewrite Hdefault. intros [Hd' | Hd'].
    + destruct (Hdef _ Hd') as (o & Ho & Hz). exists o.
      split; [by apply Hold | done].
    + apply Hfresh in Hd' as (-> & o & -> & Hz). exists o.
      split; [by rewrite list_lookup_middle | done].
  - intros i wt Hi. destruct (Hwt _ _ Hi) as (Hs & (o & Ho & Hf) & Hpc).
    split; [by rewrite Hstored |]. split; [| done].
    exists o. split; [by apply Hold | done].
  - done.
  - intros b o Hb Hnh.
    destruct (v !! b) as [o'|] eqn:Hvb.
    + rewrite (Hold _ _ Hvb) in Hb. injection Hb as <-.
      apply (Hdes _ _ Hvb). intros [Hd' | (n & m & Hs)]; apply Hnh.
      * left. rewrite Hdefault. by left.
      * right. exists n, m. by rewrite Hstored.
    + exfalso. apply Hnh. left. rewrite Hdefault. right.
      apply lookup_ge_None in Hvb.
      destruct Hd as [[_ ->] | (o' & -> & -> & _)].
      * rewrite app_nil_r in Hb. apply lookup_lt_Some in Hb. lia.
      * apply lookup_lt_Some in Hb. rewrite length_app in Hb. simpl in Hb.
        f_equal. lia.
Qed.

Lemma namedBuckets_built bc nsName nsp0 w0 (mb : gmap string BucketConfig) :
  Inv (withNamespace nsName nsp0 bc) (view w0) (goroutines w0) →
  ns_buckets nsp0 = ∅ →
  let r :=
    map_fold (λ bucketName bucketCfg '(nsp, w),
                let '(_, nsp, w) :=
                  createNewNamedBucketFromCfg nsName bucketName nsp bucketCfg
                    false w in
                (nsp, w))
             (nsp0, w0) mb in
  Inv (withNamespace nsName r.1 bc) (view r.2) (goroutines r.2)
  ∧ frame r.1 = frame nsp0
  ∧ ∃ ext, view r.2 = view w0 ++ ext.
Proof.
  intros Hinv0 Hempty r. subst r. eapply proj1.
  apply (map_fold_weak_ind
           (λ (r : namespace * World) (m : gmap string BucketConfig),
              (Inv (withNamespace nsName r.1 bc) (view r.2) (goroutines r.2)
               ∧ frame r.1 = frame nsp0
               ∧ ∃ ext, view r.2 = view w0 ++ ext)
              ∧ ∀ name, m !! name = None → ns_buckets r.1 !! name = None)).
  - simpl. split; [split; [done | split; [done |]] |].
    + exists []. by rewrite app_nil_r.
    + intros name _. by rewrite Hempty, lookup_empty.
  - intros name c m [nsp w1] Hfresh ((Hinv & Hframe & ext & Hext) & Hnone).
    simpl in Hinv, Hframe, Hext, Hnone.
    pose proof (Inv_create _ _ _ nsName name nsp c false Hinv) as Hnew.
    rewrite withNamespace_twice, view_length in Hnew.
    rewrite <-(view_createNewNamedBucketFromCfg nsName name nsp c false w1)
      in Hnew.
    split; [split; [| split] |].
    + apply Hnew; [apply lookup_insert_eq | by apply Hnone].
    + done.
    + exists (ext ++ [bucketOf nsName name c false]).
      rewrite (assoc_L (++)), <-Hext.
      exact (view_createNewNamedBucketFromCfg nsName name nsp c false w1).
    + intros name'. rewrite lookup_insert_None. intros [Hm Hne]. simpl.
      rewrite lookup_insert_ne by done. by apply Hnone.
Qed.

Lemma newNamespace_built bc w nsName nsCfg :
  Inv bc (view w) (goroutines w) →
  bc_namespaces bc !! nsName = None →
  let r := newNamespace nsName nsCfg w in
  Inv (withNamespace nsName r.1 bc) (view r.2) (goroutines r.2)
  ∧ ns_cfg r.1 = nsCfg
  ∧ nsDefaultConfigured nsName r.1 (view r.2)
  ∧ ∃ ext, view r.2 = view w ++ ext.
Proof.
  intros Hinv Hns. unfold newNamespace.
  destruct (DefaultBucket nsCfg) as [dCfg|] eqn:Hd.
  - set (nsp0 := {| ns_cfg := nsCfg; ns_buckets := ∅;
                    ns_defaultBucket := Some (length (heap w)) |}).
    set (w0 := (NewBucket nsName DEFAULT_BUCKET_NAME dCfg false w).2).
    assert (Hview : view w0
                    = view w ++ [bucketOf nsName DEFAULT_BUCKET_NAME dCfg false]).
    { unfold view, w0. simpl. by rewrite fmap_app. }
    pose proof (namedBuckets_built bc nsName nsp0 w0 (Buckets nsCfg)) as Hb.
    cbv zeta in Hb. set (R := map_fold _ (nsp0, w0) (Buckets nsCfg)) in Hb.
    destruct Hb as (Hinv' & Hframe & ext & Hext); [| done |].
    { rewrite Hview. unfold nsp0. rewrite <-view_length.
      apply Inv_namespace; [done | done |]. right. eauto. }
    unfold frame in Hframe. injection Hframe as Hcfg Hdef.
    assert (Hfinal :
      Inv (withNamespace nsName R.1 bc) (view R.2) (goroutines R.2)
      ∧ ns_cfg R.1 = nsCfg
      ∧ nsDefaultConfigured nsName R.1 (view R.2)
      ∧ ∃ ext, view R.2 = view w ++ ext).
    { split; [exact Hinv' |]. split; [exact Hcfg |]. split.
      + unfold nsDefaultConfigured. rewrite Hcfg, Hd.
        exists (length (heap w)). split; [exact Hdef |].
        rewrite Hext, Hview.
        rewrite lookup_app_l
          by (rewrite length_app, view_length; simpl; lia).
        rewrite list_lookup_middle; [done |]. by rewrite view_length.
      + exists ([bucketOf nsName DEFAULT_BUCKET_NAME dCfg false] ++ ext).
        by rewrite Hext, Hview, <-(assoc_L (++)). }
    exact Hfinal.
  - set (nsp0 := {| ns_cfg := nsCfg; ns_buckets := ∅;
                    ns_defaultBucket := None |}).
    pose proof (namedBuckets_built bc nsName nsp0 w (Buckets nsCfg)) as Hb.
    cbv zeta in Hb. set (R := map_fold _ (nsp0, w) (Buckets nsCfg)) in Hb.
    destruct Hb as (Hinv' & Hframe & ext & Hext); [| done |].
    { rewrite <-(app_nil_r (view w)).
      apply Inv_namespace; [done | done |]. by left. }
    unfold frame in Hframe. injection Hframe as Hcfg Hdef.
    assert (Hfinal :
      Inv (withNamespace nsName R.1 bc) (view R.2) (goroutines R.2)
      ∧ ns_cfg R.1 = nsCfg
      ∧ nsDefaultConfigured nsName R.1 (view R.2)
      ∧ ∃ ext, view R.2 = view w ++ ext).
    { split; [exact Hinv' |]. split; [exact Hcfg |]. split; [| by exists ext].
      unfold nsDefaultConfigured. by rewrite Hcfg, Hd. }
    exact Hfinal.
Qed.

Lemma NewBucketContainer_built cfg :
  let r := NewBucketContainer cfg emptyWorld in
  Inv r.1 (view r.2) (goroutines r.2)
  ∧ built cfg (Namespaces cfg) r.1 (view r.2).
Proof.
  unfold NewBucketContainer.
  set (dw := match GlobalDefaultBucket cfg with
             | Some dCfg =>
                 let '(b, w) :=
                   NewBucket GLOBAL_NAMESPACE DEFAULT_BUCKET_NAME dCfg false
                     emptyWorld in
                 (Some b, w)
             | None => (None, emptyWorld)
             end).
  assert (Hdw : Inv {| bc_cfg := cfg; bc_namespaces := ∅;
                       bc_defaultBucket := dw.1 |} (view dw.2) []
                ∧ goroutines dw.2 = []
                ∧ globalDefaultConfigured cfg dw.1 (view dw.2)).
  { unfold dw, globalDefaultConfigured.
    destruct (GlobalDefaultBucket cfg) as [dCfg|]; simpl.
    - split; [| split; [done |]].
      + apply Inv_initial. right. eauto.
      + by exists 0%nat.
    - split; [| done]. apply Inv_initial. by left. }
  destruct dw as [d w0]. simpl in Hdw. destruct Hdw as (Hinv0 & Hgs0 & Hg0).
  apply (map_fold_weak_ind
           (λ (r : BucketContainer * World) (m : gmap string NamespaceConfig),
              Inv r.1 (view r.2) (goroutines r.2)
              ∧ built cfg m r.1 (view r.2))).
  - simpl. rewrite Hgs0. split; [done |]. split; [done |]. split; [done |].
    split.
    + intros nsName. simpl. by rewrite !lookup_empty.
    + intros nsName ns. simpl. by rewrite lookup_empty.
  - intros nsName nsCfg m [bc w] Hfresh (Hinv & Hcfg & Hg & Hm & Hd).
    simpl in Hinv, Hcfg, Hg, Hm, Hd.
    assert (Hns : bc_namespaces bc !! nsName = None).
    { specialize (Hm nsName). rewrite Hfresh in Hm.
      by apply fmap_None in Hm. }
    destruct (newNamespace_built bc w nsName nsCfg Hinv Hns)
      as (Hinv' & Hcfg' & Hd' & ext & Hext).
    destruct (newNamespace nsName nsCfg w) as [nsp w'] eqn:Hnew.
    simpl in Hinv', Hcfg', Hd', Hext. simpl.
    assert (Hold : ∀ b o, view w !! b = Some o → view w' !! b = Some o).
    { intros b o Hb. rewrite Hext, lookup_app_l; [done |].
      by eapply lookup_lt_Some. }
    split; [done |]. split; [done |]. split.
    { unfold globalDefaultConfigured in *.
      destruct (GlobalDefaultBucket cfg) as [dCfg|]; [| done].
      destruct Hg as (b & Hb & Ho). exists b. split; [done | by apply Hold]. }
    split.
    + intros n. unfold withNamespace. simpl.
      destruct (decide (nsName = n)) as [<-|Hne].
      * rewrite !lookup_insert_eq. simpl. by rewrite Hcfg'.
      * rewrite !lookup_insert_ne by done. apply Hm.
    + intros n ns. unfold withNamespace. simpl.
      destruct (decide (nsName = n)) as [<-|Hne].
      * rewrite lookup_insert_eq. by intros [= <-].
      * rewrite lookup_insert_ne by done. intros Hn.
        specialize (Hd _ _ Hn). unfold nsDefaultConfigured in *.
        destruct (DefaultBucket (ns_cfg ns)) as [dCfg|]; [| done].
        destruct Hd as (b & Hb & Ho). exists b. split; [done | by apply Hold].
Qed.

Lemma start_invariant cfg : invariant (start cfg).
Proof.
  pose proof (NewBucketContainer_built cfg) as [Hinv _].
  unfold invariant, start.
  by destruct (NewBucketContainer cfg emptyWorld) as [bc w].
Qed.

Lemma start_built cfg :
  built cfg (Namespaces cfg) (container (start cfg)) (view (world (start cfg))).
Proof.
  pose proof (NewBucketContainer_built cfg) as [_ Hbuilt].
  unfold start.
  by destruct (NewBucketContainer cfg emptyWorld) as [bc w].
Qed.

Lemma reachable_invariant cfg s : reachable cfg s → invariant s.
Proof.
  unfold reachable. revert s.
  apply (rtc_ind_r (λ s, invariant s) (start cfg)).
  - apply start_invariant.
  - intros s1 s2 _ Hstep IH. by eapply step_invariant.
Qed.

Lemma rtc_invariant s s' : rtc step s s' → invariant s → invariant s'.
Proof.
  intros Hrun Hinv. revert s' Hrun.
  apply (rtc_ind_r (λ s', invariant s') s); [done |].
  intros s1 s2 _ Hstep IH. by eapply step_invariant.
Qed.

(** *** What no step changes *)

Lemma sameFrames_refl bc : sameFrames bc bc.
Proof. by split_and!. Qed.

Lemma sameFrames_trans bc1 bc2 bc3 :
  sameFrames bc1 bc2 → sameFrames bc2 bc3 → sameFrames bc1 bc3.
Proof.
  intros (Hc1 & Hd1 & Hf1) (Hc2 & Hd2 & Hf2).
  split_and!; [congruence | congruence |].
  intros nsName. by rewrite Hf2, Hf1.
Qed.

Lemma sameFrames_withNamespace bc nsName ns ns' :
  bc_namespaces bc !! nsName = Some ns →
  frame ns' = frame ns →
  sameFrames bc (withNamespace nsName ns' bc).
Proof.
  intros Hns Hframe. split_and!; try done. intros n. simpl.
  destruct (decide (nsName = n)) as [<-|Hne].
  - rewrite lookup_insert_eq, Hns. simpl. by rewrite Hframe.
  - by rewrite lookup_insert_ne.
Qed.

Lemma sameFrames_deleteBucket bc nsName name :
  sameFrames bc (deleteBucket nsName name bc).
Proof.
  unfold deleteBucket.
  destruct (bc_namespaces bc !! nsName) as [ns|] eqn:Hns.
  - by apply (sameFrames_withNamespace bc nsName ns).
  - apply sameFrames_refl.
Qed.

Lemma step_sameFrames s s' :
  step s s' → sameFrames (container s) (container s').
Proof.
  intros [s0 n m r bc w Hf | s0 b | s0 i s1 Hw]; simpl.
  - destruct (FindBucket_effect _ _ _ _ _ _ _ Hf)
      as [(-> & _) | (ns & c & dyn & Hns & _ & _ & _ & _ & -> & _)].
    + apply sameFrames_refl.
    + by apply (sameFrames_withNamespace _ n ns).
  - apply sameFrames_refl.
  - destruct (runWatcher_effect _ _ _ Hw) as (wt & Hi & Hcases).
    destruct Hcases
      as [(_ & _ & -> & _) | [(_ & _ & -> & _) | (_ & -> & _)]].
    + apply sameFrames_refl.
    + apply sameFrames_refl.
    + apply sameFrames_deleteBucket.
Qed.

Lemma rtc_sameFrames s s' :
  rtc step s s' → sameFrames (container s) (container s').
Proof.
  revert s'. apply (rtc_ind_r (λ s', sameFrames (container s) (container s')) s).
  - apply sameFrames_refl.
  - intros s1 s2 _ Hstep IH. eapply sameFrames_trans; [done |].
    by apply step_sameFrames.
Qed.

(** No step touches a default bucket in the store, but for its activity
    channel. *)
Lemma step_defaults_untouched s s' b :
  step s s' → invariant s → isDefault (container s) b →
  view (world s') !! b = view (world s) !! b.
Proof.
  intros Hstep [Hst Hdef Hwt Hkeys Hdes] Hd.
  destruct (Hdef _ Hd) as (o & Ho & _).
  destruct Hstep as [s0 n m r bc w Hf | s0 b' | s0 i s1 Hw]; simpl in *.
  - destruct (FindBucket_effect _ _ _ _ _ _ _ Hf)
      as [(_ & -> & _) | (ns & c & dyn & _ & _ & _ & _ & _ & _ & -> & _)];
      [done |].
    rewrite lookup_app_l; [done |]. by eapply lookup_lt_Some.
  - by rewrite view_ReportActivity.
  - destruct (runWatcher_effect _ _ _ Hw) as (wt & Hi & Hcases).
    destruct Hcases
      as [(_ & _ & _ & -> & _) | [(_ & _ & _ & -> & _) | (_ & _ & -> & _)]];
      [done | done |].
    rewrite list_lookup_alter_ne; [done |]. intros Heq.
    destruct (Hwt _ _ Hi) as (Hs & _).
    destruct (Hst _ _ _ Hs) as (Hnd & _). apply Hnd. by rewrite Heq.
Qed.

Lemma built_frames cfg m bc bc' v v' :
  built cfg m bc v →
  sameFrames bc bc' →
  (∀ b, isDefault bc b → v' !! b = v !! b) →
  built cfg m bc' v'.
Proof.
  intros (Hcfg & Hg & Hm & Hd) (Hc & Hdb & Hf) Hsame. split_and!.
  - congruence.
  - unfold globalDefaultConfigured in *. rewrite Hdb.
    destruct (GlobalDefaultBucket cfg) as [dCfg|]; [| done].
    destruct Hg as (b & Hb & Ho). exists b. split; [done |].
    rewrite Hsame; [done |]. by left.
  - intros nsName. rewrite <-Hm.
    change ns_cfg with (fst ∘ frame).
    by rewrite !option_fmap_compose, Hf.
  - intros nsName ns' Hns'. specialize (Hf nsName). rewrite Hns' in Hf.
    destruct (bc_namespaces bc !! nsName) as [ns|] eqn:Hns; [| done].
    injection Hf as Hcfg' Hdef'. specialize (Hd _ _ Hns).
    unfold nsDefaultConfigured in *. rewrite Hcfg', Hdef'.
    destruct (DefaultBucket (ns_cfg ns)) as [dCfg|]; [| done].
    destruct Hd as (b & Hb & Ho). exists b. split; [done |].
    rewrite Hsame; [done |]. right. eauto.
Qed.

Lemma reachable_built cfg s :
  reachable cfg s →
  built cfg (Namespaces cfg) (container s) (view (world s)).
Proof.
  intros Hreach. pose proof Hreach as Hrun. revert s Hrun Hreach.
  apply (rtc_ind_r
           (λ s, reachable cfg s →
                 built cfg (Namespaces cfg) (container s) (view (world s)))
           (start cfg)).
  - intros _. apply start_built.
  - intros s1 s2 Hrun Hstep IH _.
    assert (Hinv : invariant s1) by by apply (reachable_invariant cfg).
    eapply built_frames; [by apply IH | by apply step_sameFrames |].
    intros b Hb. by apply step_defaults_untouched.
Qed.

Lemma invariant_unwatched s b :
  invariant s → isDefault (container s) b → unwatched (world s) b.
Proof.
  intros [Hst Hdef Hwt Hkeys Hdes] Hb wt Hin Heq.
  apply list_elem_of_lookup_1 in Hin as (i & Hi).
  destruct (Hwt _ _ Hi) as (Hs & _).
  destruct (Hst _ _ _ Hs) as (Hnd & _). apply Hnd. by rewrite Heq.
Qed.

(** C9: the global default and the default of each namespace, when
    configured, are the buckets the constructor made, with dynamic=false;
    in every state the system can reach they are still the defaults of
    the container, no goroutine watches them and Destroy was never called
    on them. *)
Theorem defaults_never_evicted cfg s :
  reachable cfg s →
  match GlobalDefaultBucket cfg with
  | Some dCfg =>
      ∃ b, bc_defaultBucket (container (start cfg)) = Some b
           ∧ bc_defaultBucket (container s) = Some b
           ∧ view (world s) !! b
             = Some (bucketOf GLOBAL_NAMESPACE DEFAULT_BUCKET_NAME dCfg false)
           ∧ unwatched (world s) b
  | None => bc_defaultBucket (container s) = None
  end
  ∧ ∀ nsName nsCfg,
      Namespaces cfg !! nsName = Some nsCfg →
      ∃ ns0 ns,
        bc_namespaces (container (start cfg)) !! nsName = Some ns0
        ∧ bc_namespaces (container s) !! nsName = Some ns
        ∧ ns_cfg ns = nsCfg
        ∧ match DefaultBucket nsCfg with
          | Some dCfg =>
              ∃ b, ns_defaultBucket ns0 = Some b
                   ∧ ns_defaultBucket ns = Some b
                   ∧ view (world s) !! b
                     = Some (bucketOf nsName DEFAULT_BUCKET_NAME dCfg false)
                   ∧ unwatched (world s) b
          | None => ns_defaultBucket ns = None
          end.
Proof.
  intros Hreach.
  pose proof (reachable_invariant _ _ Hreach) as Hinv.
  pose proof (reachable_built _ _ Hreach) as (Hcfg & Hg & Hm & Hd).
  pose proof (rtc_sameFrames _ _ Hreach) as (_ & Hdb & Hf).
  split.
  - unfold globalDefaultConfigured in Hg.
    destruct (GlobalDefaultBucket cfg) as [dCfg|]; [| done].
    destruct Hg as (b & Hb & Ho). exists b. split; [congruence |].
    split; [done |]. split; [done |].
    apply invariant_unwatched; [done |]. by left.
  - intros nsName nsCfg Hns. specialize (Hm nsName). rewrite Hns in Hm.
    destruct (bc_namespaces (container s) !! nsName) as [ns|] eqn:Hs; [| done].
    injection Hm as Hnc. specialize (Hf nsName). rewrite Hs in Hf.
    destruct (bc_namespaces (container (start cfg)) !! nsName) as [ns0|];
      [| done].
    injection Hf as Hcfg0 Hdef0. exists ns0, ns.
    split; [done |]. split; [done |]. split; [done |].
    specialize (Hd _ _ Hs). unfold nsDefaultConfigured in Hd.
    rewrite Hnc in Hd. destruct (DefaultBucket nsCfg) as [dCfg|]; [| done].
    destruct Hd as (b & Hb & Ho). exists b. split; [congruence |].
    split; [done |]. split; [done |].
    apply invariant_unwatched; [done |]. right. eauto.
Qed.

Lemma defaults_never_evicted_witness :
  ∃ ns0 ns,
    bc_namespaces (container (start sampleCfg)) !! "ns_d" = Some ns0
    ∧ bc_namespaces (container evicted) !! "ns_d" = Some ns
    ∧ ∃ b, ns_defaultBucket ns0 = Some b
           ∧ ns_defaultBucket ns = Some b
           ∧ view (world evicted) !! b
             = Some (bucketOf "ns_d" DEFAULT_BUCKET_NAME templateCfg false)
           ∧ unwatched (world evicted) b.
Proof.
  destruct (defaults_never_evicted sampleCfg evicted evicted_reachable)
    as [_ Hns].
  destruct (Hns "ns_d" (ns_cfg evictedNs)) as (ns0 & ns & H0 & H1 & _ & Hd);
    [vm_compute; reflexivity |].
  exists ns0, ns. split; [exact H0 |]. split; [exact H1 |]. exact Hd.
Defined.

End invariant.

(** ** Idle eviction *)
Section eviction.

Implicit Types (bc : BucketContainer) (ns : namespace) (w : World).
Implicit Types (nsName name : string) (b : nat) (s : System).

Lemma Exists_deleteBucket bc nsName name :
  Exists (deleteBucket nsName name bc) nsName name = false.
Proof.
  unfold Exists, deleteBucket.
  destruct (bc_namespaces bc !! nsName) as [ns|] eqn:Hns.
  - simpl. rewrite lookup_insert_eq. simpl. rewrite lookup_delete_eq.
    apply bool_decide_eq_false_2. by intros [? ?].
  - by rewrite Hns.
Qed.

Lemma idle_reachable : reachable sampleCfg idle.
Proof.
  unfold reachable.
  assert (Hrun : (s ← runWatcher 0 (start sampleCfg); runWatcher 0 s)
                 = Some idle) by (vm_compute; reflexivity).
  destruct (runWatcher 0 (start sampleCfg)) as [s1|] eqn:H1; [| done].
  simpl in Hrun.
  eapply rtc_l; [by apply (step_watch _ 0 s1) |].
  eapply rtc_l; [by apply (step_watch _ 0 idle) |].
  apply rtc_refl.
Qed.

(** A watcher that finds no activity at a tick leaves its loop, and its
    next step removes the bucket and destroys it. *)
Lemma eviction_steps s i wt :
  invariant s →
  goroutines (world s) !! i = Some wt →
  wPc wt = InLoop →
  0 < wFreq wt →
  (ActivityDetected (wBucket wt) (world s)).1 = false →
  ∃ s1 s2,
    runWatcher i s = Some s1
    ∧ container s1 = container s
    ∧ goroutines (world s1) !! i = Some (atPc Removing wt)
    ∧ runWatcher i s1 = Some s2
    ∧ trace (world s2) = trace (world s1) ++ removalEvents wt
    ∧ Exists (container s2) (wNamespace wt) (wBucketName wt) = false
    ∧ goroutines (world s2) = delete i (goroutines (world s))
    ∧ ∃ o, heap (world s2) !! wBucket wt = Some o ∧ bDestroyed o = 1%nat.
Proof.
  intros Hinv Hi Hpc Hfreq Hidle.
  assert (Hlt : (i < length (goroutines (world s)))%nat)
    by by eapply lookup_lt_Some.
  set (w1 := (ActivityDetected (wBucket wt) (world s)).2).
  set (s1 := {| container := container s;
                world := withGoroutines
                           (<[i := atPc Removing wt]> (goroutines w1)) w1 |}).
  assert (H1 : runWatcher i s = Some s1).
  { unfold runWatcher. rewrite Hi. simpl. unfold watchStep. rewrite Hpc.
    rewrite (proj2 (Z.leb_gt _ _) Hfreq).
    destruct (ActivityDetected (wBucket wt) (world s)) as [keep w'] eqn:Had.
    simpl in Hidle. subst keep. done. }
  assert (Hi1 : goroutines (world s1) !! i = Some (atPc Removing wt)).
  { simpl. by rewrite list_lookup_insert_eq. }
  destruct (runWatcher i s1) as [s2|] eqn:H2.
  2: { unfold runWatcher in H2. rewrite Hi1 in H2. done. }
  destruct (runWatcher_effect _ _ _ H2) as (wt' & Hi' & Hcases).
  assert (wt' = atPc Removing wt) as -> by congruence.
  destruct Hcases
    as [([=] & _) | [(Hne & _) | (_ & Hbc & Hview & Htrace & Hgs)]];
    [done |].
  exists s1, s2. split; [done |]. split; [done |]. split; [done |].
  split; [done |]. split; [exact Htrace |]. split.
  { rewrite Hbc. apply Exists_deleteBucket. }
  split.
  { rewrite Hgs. simpl.
    apply list_eq. intros j. rewrite !list_lookup_delete.
    rewrite list_lookup_insert_ne; [done |]. case_decide; lia. }
  destruct Hinv as [Hst Hdef Hwt Hkeys Hdes].
  destruct (Hwt _ _ Hi) as (Hs & _).
  destruct (Hst _ _ _ Hs) as (_ & o & Ho & _ & _ & Hz).
  assert (Hv2 : view (world s2) !! wBucket wt = Some (destroyed o)).
  { rewrite Hview. simpl. change (view (withGoroutines ?g ?w0)) with (view w0).
    unfold w1. rewrite view_ActivityDetected.
    by rewrite list_lookup_alter_eq, Ho. }
  apply view_lookup_inv in Hv2 as (o2 & Ho2 & Heq).
  exists o2. split; [done |].
  change (bDestroyed o2) with (bDestroyed (settled o2)).
  rewrite <-Heq. simpl. by rewrite Hz.
Qed.

(** Destroy was called once on every bucket the container no longer
    holds, and never on one it holds. *)
Lemma destroyed_once s b o :
  invariant s →
  heap (world s) !! b = Some o →
  (held (container s) b → bDestroyed o = 0%nat)
  ∧ (¬ held (container s) b → bDestroyed o = 1%nat).
Proof.
  intros [Hst Hdef Hwt Hkeys Hdes] Hb. apply view_lookup in Hb.
  change (bDestroyed o) with (bDestroyed (settled o)). split.
  - intros [Hd | (n & m & Hs)].
    + destruct (Hdef _ Hd) as (o' & Ho' & Hz). congruence.
    + destruct (Hst _ _ _ Hs) as (_ & o' & Ho' & _ & _ & Hz). congruence.
  - by apply Hdes.
Qed.

Lemma idleDuration_zero bCfg : MaxIdleMillis bCfg = 0 → idleDuration bCfg = 0.
Proof. unfold idleDuration. by intros ->. Qed.

(** The watcher of a bucket with MaxIdleMillis = 0 can only return. *)
Lemma watcher_of_unlimited s i wt o :
  invariant s →
  goroutines (world s) !! i = Some wt →
  heap (world s) !! wBucket wt = Some o →
  MaxIdleMillis (bConfig o) = 0 →
  runWatcher i s = Some (returned i s).
Proof.
  intros [Hst Hdef Hwt Hkeys Hdes] Hi Hb Hzero.
  destruct (Hwt _ _ Hi) as (_ & (o' & Ho' & Hf) & Hpc).
  apply view_lookup in Hb. assert (o' = settled o) as -> by congruence.
  simpl in Hf. rewrite (idleDuration_zero _ Hzero) in Hf.
  assert (Hstart : wPc wt = AtStart).
  { destruct (wPc wt); [done | |]; by destruct Hpc. }
  unfold runWatcher. rewrite Hi. simpl. unfold watchStep.
  by rewrite Hstart, Hf.
Qed.

(** No step removes a bucket with MaxIdleMillis = 0 from its map, or
    destroys it. *)
Lemma step_keeps_unlimited s s' nsName name b o :
  step s s' → invariant s →
  storedAt (container s) nsName name b →
  view (world s) !! b = Some o →
  MaxIdleMillis (bConfig o) = 0 →
  storedAt (container s') nsName name b ∧ view (world s') !! b = Some o.
Proof.
  intros Hstep [Hst Hdef Hwt Hkeys Hdes] Hs Hb Hzero.
  destruct Hstep as [s0 n m r bc w Hf | s0 b' | s0 i s1 Hw]; simpl in *.
  - destruct (FindBucket_effect _ _ _ _ _ _ _ Hf)
      as [(-> & -> & _)
         | (ns & c & dyn & Hns & Hfree & _ & _ & _ & -> & -> & _)];
      [done |].
    split.
    + rewrite storedAt_stored by done. right. split; [| done].
      intros [= -> ->]. destruct Hs as (ns' & Hns' & Hb'). congruence.
    + rewrite lookup_app_l; [done |]. by eapply lookup_lt_Some.
  - by rewrite view_ReportActivity.
  - destruct (runWatcher_effect _ _ _ Hw) as (wt & Hi & Hcases).
    destruct Hcases
      as [(_ & _ & -> & -> & _) | [(_ & _ & -> & -> & _) | (Hpc & -> & -> & _)]];
      [done | done |].
    destruct (Hwt _ _ Hi) as (Hs' & (o' & Ho' & Hfreq) & Hne).
    assert (Hkey : (nsName, name) ≠ (wNamespace wt, wBucketName wt)).
    { intros [= -> ->].
      assert (b = wBucket wt) as -> by by eapply storedAt_fun.
      assert (o' = o) as -> by congruence.
      apply Hne; [by rewrite Hpc |].
      by rewrite Hfreq, idleDuration_zero. }
    split.
    + by rewrite storedAt_deleteBucket.
    + rewrite list_lookup_alter_ne; [done |]. intros <-.
      destruct (Hst _ _ _ Hs) as (_ & o1 & Ho1 & Hn1 & Hm1 & _).
      destruct (Hst _ _ _ Hs') as (_ & o2 & Ho2 & Hn2 & Hm2 & _).
      apply Hkey. congruence.
Qed.

Lemma never_evicted s s' nsName name b o :
  rtc step s s' → invariant s →
  storedAt (container s) nsName name b →
  view (world s) !! b = Some o →
  MaxIdleMillis (bConfig o) = 0 →
  storedAt (container s') nsName name b ∧ view (world s') !! b = Some o.
Proof.
  intros Hrun Hinv Hs Hb Hzero. revert s' Hrun.
  apply (rtc_ind_r
           (λ s', storedAt (container s') nsName name b
                  ∧ view (world s') !! b = Some o) s); [done |].
  intros s1 s2 Hrun Hstep [Hs1 Hb1].
  eapply step_keeps_unlimited; [done | | done | done | done].
  by eapply rtc_invariant.
Qed.

(** C5, as stated, fails on the order of the release and the call: in
    the run that evicts "b1", Destroy is called while the exclusive lock
    of the namespace is still held. *)
Lemma eviction_order_counterexample :
  afterEviction = Some evicted
  ∧ destroysOutsideLock false (trace (world evicted)) ≠ true.
Proof. split; [vm_compute; reflexivity | vm_compute; discriminate]. Qed.

(** C5, amended: a watcher that finds no activity at a tick takes the
    exclusive lock of the namespace, removes the bucket from the map,
    calls Destroy on it while it still holds the lock, and releases the
    lock as it returns; Destroy was called exactly once on every bucket
    the container no longer holds and never on one it holds; the watcher
    of a bucket with MaxIdleMillis = 0 returns at once, and that bucket
    is never removed or destroyed. *)
Theorem idle_eviction cfg s :
  reachable cfg s →
  (∀ i wt,
     goroutines (world s) !! i = Some wt →
     wPc wt = InLoop →
     0 < wFreq wt →
     (ActivityDetected (wBucket wt) (world s)).1 = false →
     ∃ s1 s2,
       runWatcher i s = Some s1
       ∧ container s1 = container s
       ∧ goroutines (world s1) !! i = Some (atPc Removing wt)
       ∧ runWatcher i s1 = Some s2
       ∧ trace (world s2) = trace (world s1) ++ removalEvents wt
       ∧ Exists (container s2) (wNamespace wt) (wBucketName wt) = false
       ∧ goroutines (world s2) = delete i (goroutines (world s))
       ∧ ∃ o, heap (world s2) !! wBucket wt = Some o ∧ bDestroyed o = 1%nat)
  ∧ (∀ b o,
       heap (world s) !! b = Some o →
       (held (container s) b → bDestroyed o = 0%nat)
       ∧ (¬ held (container s) b → bDestroyed o = 1%nat))
  ∧ (∀ nsName name b o,
       storedAt (container s) nsName name b →
       heap (world s) !! b = Some o →
       MaxIdleMillis (bConfig o) = 0 →
       (∀ i wt,
          goroutines (world s) !! i = Some wt → wBucket wt = b →
          runWatcher i s = Some (returned i s))
       ∧ ∀ s',
           rtc step s s' →
           storedAt (container s') nsName name b
           ∧ ∃ o', heap (world s') !! b = Some o' ∧ bDestroyed o' = 0%nat).
Proof.
  intros Hreach. pose proof (reachable_invariant _ _ Hreach) as Hinv.
  split; [| split].
  - intros i wt Hi Hpc Hfreq Hidle. by apply eviction_steps.
  - intros b o Hb. by apply destroyed_once.
  - intros nsName name b o Hs Hb Hzero. split.
    + intros i wt Hi Hwb. eapply watcher_of_unlimited; [done | done | |].
      * by rewrite Hwb.
      * done.
    + intros s' Hrun.
      destruct (never_evicted s s' nsName name b (settled o))
        as [Hs' Hb']; [done | done | done | by apply view_lookup | done |].
      split; [done |].
      apply view_lookup_inv in Hb' as (o' & Ho' & Heq).
      exists o'. split; [done |].
      change (bDestroyed o') with (bDestroyed (settled o')).
      rewrite <-Heq. simpl.
      destruct (destroyed_once s b o Hinv Hb) as [Hheld _].
      apply Hheld. right. eauto.
Qed.

Lemma idle_eviction_witness :
  ∃ s1 s2,
    runWatcher 0 idle = Some s1
    ∧ container s1 = container idle
    ∧ goroutines (world s1) !! 0%nat = Some (atPc Removing idleWatcher)
    ∧ runWatcher 0 s1 = Some s2
    ∧ trace (world s2) = trace (world s1) ++ removalEvents idleWatcher
    ∧ Exists (container s2) "ns_d" "b1" = false
    ∧ goroutines (world s2) = []
    ∧ ∃ o, heap (world s2) !! 1%nat = Some o ∧ bDestroyed o = 1%nat.
Proof.
  destruct (idle_eviction sampleCfg idle idle_reachable) as (Hevict & _ & _).
  apply (Hevict 0%nat idleWatcher); vm_compute; reflexivity.
Defined.

End eviction.

(** * Further properties *)

(** ** The activity channel as a flag *)
Section activity_flag.

Implicit Types (m : ActivityChannel) (calls : list signalCall).

Lemma chanRun_flagRun calls :
  ∀ m, (length m ≤ capacity)%nat →
    (chanRun m calls).1 = (flagRun (bool_decide (m ≠ [])) calls).1
    ∧ (length (chanRun m calls).2 ≤ capacity)%nat
    ∧ bool_decide ((chanRun m calls).2 ≠ [])
      = (flagRun (bool_decide (m ≠ [])) calls).2.
Proof.
  induction calls as [|[] calls IH]; intros m Hm; simpl.
  - done.
  - destruct (IH (chanReportActivity m)) as (Hrs & Hlen & Hflag).
    { by apply chanReportActivity_capacity. }
    assert (Hset : bool_decide (chanReportActivity m ≠ []) = true).
    { apply bool_decide_eq_true_2. intros Hnil.
      pose proof (chanReportActivity_length m Hm) as Hl.
      rewrite Hnil in Hl. done. }
    rewrite Hset in Hrs, Hflag. done.
  - destruct (IH []) as (Hrs & Hlen & Hflag); [unfold capacity; simpl; lia |].
    replace (bool_decide (@nil bool ≠ [])) with false in Hrs, Hflag
      by (symmetry; by apply bool_decide_eq_false_2; intros H).
    assert (Hm' : (chanActivityDetected m).2 = [])
      by by apply chanActivityDetected_length.
    destruct (chanActivityDetected m) as [r m'] eqn:Hd. simpl in Hm'. subst m'.
    destruct (chanRun [] calls) as [rs m''].
    simpl in Hrs, Hlen, Hflag. simpl.
    destruct (flagRun false calls) as [rs' flag']. simpl in *.
    subst rs' flag'.
    split; [| done]. f_equal.
    destruct m as [|x m]; simpl in Hd; injection Hd as <-.
    + symmetry. apply bool_decide_eq_false_2. by intros H.
    + symmetry. by apply bool_decide_eq_true_2.
Qed.

(** X1: on a channel made by NewActivityChannel, any sequence of
    ReportActivity and ActivityDetected calls gets the answers a flag
    would give that a report sets and a check reads and clears: a check
    answers true exactly when a report was made since the check before
    it.  The channel never holds more than one report. *)
Theorem activity_channel_is_flag calls :
  (chanRun NewActivityChannel calls).1 = (flagRun false calls).1
  ∧ (length (chanRun NewActivityChannel calls).2 ≤ 1)%nat
  ∧ ((chanRun NewActivityChannel calls).2 ≠ [] ↔
     (flagRun false calls).2 = true).
Proof.
  destruct (chanRun_flagRun calls NewActivityChannel) as (Hrs & Hlen & Hflag).
  { unfold capacity. simpl. lia. }
  replace (bool_decide (NewActivityChannel ≠ [])) with false in Hrs, Hflag
    by (symmetry; by apply bool_decide_eq_false_2; intros H).
  split; [done |]. split; [done |].
  rewrite <-Hflag. by rewrite bool_decide_eq_true.
Qed.

End activity_flag.

(** ** Lookups, one after the other *)
Section lookups.

Implicit Types (bc : BucketContainer) (ns : namespace) (w : World).
Implicit Types (nsName name : string) (b : nat).

Lemma lookupBucket_storedAt bc nsName name b :
  storedAt bc nsName name b ↔ lookupBucket bc nsName name = Some b.
Proof.
  unfold storedAt, lookupBucket. split.
  - intros (ns & -> & Hb). done.
  - destruct (bc_namespaces bc !! nsName) as [ns|]; simpl; [eauto | done].
Qed.

Lemma Exists_lookupBucket bc nsName name :
  Exists bc nsName name = bool_decide (is_Some (lookupBucket bc nsName name)).
Proof.
  unfold Exists, lookupBucket.
  by destruct (bc_namespaces bc !! nsName) as [ns|].
Qed.

Lemma lookupBucket_stored bc nsName name ns l n m :
  bc_namespaces bc !! nsName = Some ns →
  lookupBucket (withNamespace nsName (stored name l ns) bc) n m =
    if decide ((n, m) = (nsName, name)) then Some l else lookupBucket bc n m.
Proof.
  intros Hns. unfold lookupBucket, withNamespace, stored. simpl.
  destruct (decide (nsName = n)) as [<-|Hn].
  - rewrite lookup_insert_eq, Hns. simpl.
    destruct (decide (name = m)) as [<-|Hm].
    + rewrite lookup_insert_eq. by rewrite decide_True.
    + rewrite lookup_insert_ne by done. rewrite decide_False; [done |].
      intros [= ?]. done.
  - rewrite lookup_insert_ne by done. rewrite decide_False; [done |].
    intros [= ? ?]. done.
Qed.

Lemma dynamicCount_view w w' (m : gmap string nat) :
  view w = view w' → dynamicCount w m = dynamicCount w' m.
Proof.
  intros Hview. unfold dynamicCount. rewrite !map_fold_foldr.
  induction (map_to_list m) as [|[k b] l IH]; simpl; [done |].
  by rewrite IH, !Dynamic_view, Hview.
Qed.

Lemma capReached_view w w' ns :
  view w = view w' → capReached ns w ↔ capReached ns w'.
Proof.
  intros Hview. unfold capReached.
  change (map_fold _ 0 (ns_buckets ns)) with (dynamicCount w (ns_buckets ns))
    at 1.
  change (map_fold _ 0 (ns_buckets ns)) with (dynamicCount w' (ns_buckets ns)).
  by rewrite (dynamicCount_view w w').
Qed.

Lemma creates_view bc nsName name w w' :
  view w = view w' → creates bc nsName name w → creates bc nsName name w'.
Proof.
  intros Hview (ns & Hns & Hb & Ht & Hc). exists ns.
  split; [done |]. split; [done |]. split; [done |].
  destruct Hc as [Hc | Hc]; [by left | right].
  by rewrite <-(capReached_view w w').
Qed.

(** What a lookup answers and leaves behind. *)
Lemma FindBucket_outcome bc nsName name w :
  ∃ r bc' w',
    FindBucket bc nsName name w = Some (r, bc', w')
    ∧ r = resolved bc' nsName name
    ∧ ((¬ creates bc nsName name w
        ∧ bc' = bc ∧ view w' = view w ∧ goroutines w' = goroutines w)
       ∨ (creates bc nsName name w
          ∧ ∃ ns bCfg dyn,
              bc_namespaces bc !! nsName = Some ns
              ∧ bc' = withNamespace nsName (stored name (length (heap w)) ns) bc
              ∧ view w' = view w ++ [bucketOf nsName name bCfg dyn]
              ∧ goroutines w' =
                  goroutines w
                  ++ [watcherOf nsName name (length (heap w)) bCfg])).
Proof.
  unfold resolved.
  destruct (bc_namespaces bc !! nsName) as [ns|] eqn:Hns.
  2: { eexists _, _, _. split; [by apply FindBucket_unconfigured |].
       rewrite Hns. split; [done |]. left.
       rewrite view_touched, goroutines_touched.
       split; [| done]. intros (ns & Hns' & _). congruence. }
  destruct (ns_buckets ns !! name) as [b|] eqn:Hb.
  { eexists _, _, _. split; [by eapply FindBucket_present |].
    rewrite Hns, Hb. split; [done |]. left.
    rewrite view_ReportActivity. split; [| done].
    intros (ns' & Hns' & Hb' & _). congruence. }
  destruct (DynamicBucketTemplate (ns_cfg ns)) as [t|] eqn:Ht.
  2: { eexists _, _, _. split; [by eapply FindBucket_default |].
       rewrite Hns, Hb, Ht. split; [done |]. left.
       rewrite view_touched, goroutines_touched. split; [| done].
       intros (ns' & Hns' & _ & [t Ht'] & _). congruence. }
  assert (Hcreated :
            resolved (withNamespace nsName (stored name (length (heap w)) ns) bc)
              nsName name = Some (length (heap w))).
  { unfold resolved, withNamespace, stored. simpl.
    rewrite lookup_insert_eq. simpl. by rewrite lookup_insert_eq. }
  unfold resolved in Hcreated.
  destruct (Buckets (ns_cfg ns) !! name) as [c|] eqn:Hc.
  - pose proof (createNewNamedBucket_static bc nsName name ns c
                  (writeLocked nsName w) Hc) as Hcreate.
    eexists _, _, _. split; [by eapply FindBucket_create |].
    split; [symmetry; exact Hcreated |]. right. split.
    { exists ns. rewrite Hc, Ht. eauto 10. }
    exists ns, c, false. split; [done |]. split; [done |].
    split; [| done].
    exact (view_created nsName name ns c false
             [EvRLock nsName; EvRUnlock nsName; EvLock nsName] w).
  - destruct (capReached_dec ns w) as [Hcap|Hcap].
    + eexists _, _, _. split; [by eapply FindBucket_cap_reached |].
      rewrite Hns, Hb, Ht. split; [done |]. left. split; [| done].
      intros (ns' & Hns' & _ & _ & [[c Hc'] | Hncap]).
      * congruence.
      * apply Hncap. congruence.
    + pose proof (createNewNamedBucket_dynamic bc nsName name ns t
                    (writeLocked nsName w) Hns Hc Ht Hcap) as Hcreate.
      eexists _, _, _. split; [by eapply FindBucket_create |].
      split; [symmetry; exact Hcreated |]. right. split.
      { exists ns. rewrite Ht. eauto 10. }
      exists ns, t, true. split; [done |]. split; [done |].
      split; [| done].
      exact (view_created nsName name ns t true
               [EvRLock nsName; EvRUnlock nsName; EvLock nsName] w).
Qed.

(** X2: a Find answers what the cascade resolves to in the container it
    leaves behind; a second Find for the same name right after it
    returns the same bucket (or nil again), changes nothing in the
    container, builds no bucket and starts no watcher. *)
Theorem FindBucket_twice bc nsName name w :
  ∃ r bc' w' w'',
    FindBucket bc nsName name w = Some (r, bc', w')
    ∧ r = resolved bc' nsName name
    ∧ FindBucket bc' nsName name w' = Some (r, bc', w'')
    ∧ view w'' = view w'
    ∧ goroutines w'' = goroutines w'.
Proof.
  destruct (FindBucket_outcome bc nsName name w)
    as (r & bc' & w' & Hf & Hr & Hcase).
  destruct (FindBucket_outcome bc' nsName name w')
    as (r2 & bc2 & w2 & Hf2 & Hr2 & Hcase2).
  assert (Hno : ¬ creates bc' nsName name w').
  { destruct Hcase as [(Hno & -> & Hview & _) | (_ & ns & c & dyn & Hns & -> & _)].
    - intros Hc. apply Hno. by apply (creates_view _ _ _ w' w).
    - intros (ns' & Hns' & Hb' & _). simpl in Hns'.
      rewrite lookup_insert_eq in Hns'. injection Hns' as <-.
      simpl in Hb'. by rewrite lookup_insert_eq in Hb'. }
  destruct Hcase2 as [(_ & -> & Hview2 & Hgs2) | (Hc & _)]; [| done].
  exists r, bc', w', w2. split; [done |]. split; [done |].
  split; [| done]. rewrite Hf2. congruence.
Qed.

(** X3: a Find changes the map of no other namespace and no other name;
    it never removes the bucket stored under the name it looks up; it
    leaves the configuration and the defaults alone; and it adds at most
    one bucket to the store, destroying none. *)
Theorem FindBucket_frame bc nsName name w :
  ∃ r bc' w' ext,
    FindBucket bc nsName name w = Some (r, bc', w')
    ∧ (∀ n m, (n, m) ≠ (nsName, name) →
         lookupBucket bc' n m = lookupBucket bc n m)
    ∧ (∀ b, lookupBucket bc nsName name = Some b →
         lookupBucket bc' nsName name = Some b ∧ r = Some b)
    ∧ sameFrames bc bc'
    ∧ view w' = view w ++ ext
    ∧ (length ext ≤ 1)%nat.
Proof.
  destruct (FindBucket_outcome bc nsName name w)
    as (r & bc' & w' & Hf & Hr & Hcase).
  destruct Hcase
    as [(Hno & -> & Hview & _)
       | ((ns0 & Hns0 & Hb0 & _) & ns & c & dyn & Hns & -> & Hview & _)].
  - exists r, bc, w', []. split; [done |]. split; [done |]. split.
    { intros b Hb. split; [done |]. rewrite Hr. unfold resolved.
      unfold lookupBucket in Hb.
      destruct (bc_namespaces bc !! nsName) as [ns|]; simpl in Hb; [| done].
      by rewrite Hb. }
    split; [apply sameFrames_refl |].
    split; [by rewrite app_nil_r | simpl; lia].
  - eexists r, _, w', [bucketOf nsName name c dyn]. split; [exact Hf |]. split.
    { intros n m Hne. rewrite (lookupBucket_stored bc nsName name ns) by done.
      by rewrite decide_False. }
    split.
    { intros b Hb. unfold lookupBucket in Hb. rewrite Hns0 in Hb.
      simpl in Hb. congruence. }
    split; [by apply (sameFrames_withNamespace bc nsName ns) |].
    split; [done | simpl; lia].
Qed.

End lookups.

(** ** What holds in every state the system can reach *)
Section reachable_states.

Implicit Types (bc : BucketContainer) (ns : namespace) (w : World).
Implicit Types (nsName name : string) (b : nat) (s : System).

Lemma leaving_reachable : reachable sampleCfg leaving.
Proof.
  eapply rtc_r; [apply idle_reachable |].
  apply (step_watch _ 0). vm_compute. reflexivity.
Qed.

(** X4: in every reachable state a bucket stored under a name of a
    namespace is no default bucket, carries that namespace and name as
    its identity, was never destroyed, and is stored under no other
    name. *)
Theorem stored_buckets_distinct cfg s nsName name b :
  reachable cfg s →
  storedAt (container s) nsName name b →
  ¬ isDefault (container s) b
  ∧ (∃ o, heap (world s) !! b = Some o
          ∧ bNamespace o = nsName ∧ bName o = name
          ∧ bDestroyed o = 0%nat)
  ∧ ∀ nsName' name',
      storedAt (container s) nsName' name' b →
      nsName' = nsName ∧ name' = name.
Proof.
  intros Hreach Hs.
  pose proof (reachable_invariant _ _ Hreach) as [Hst Hdef Hwt Hkeys Hdes].
  destruct (Hst _ _ _ Hs) as (Hnd & o & Ho & Hn & Hm & Hz).
  split; [done |]. split.
  - apply view_lookup_inv in Ho as (o' & Ho' & ->). by exists o'.
  - intros n' m' Hs'.
    destruct (Hst _ _ _ Hs') as (_ & o' & Ho' & Hn' & Hm' & _).
    assert (o' = o) as -> by congruence. by subst.
Qed.

Lemma stored_buckets_distinct_witness :
  ¬ isDefault (container idle) 1
  ∧ (∃ o, heap (world idle) !! 1%nat = Some o
          ∧ bNamespace o = "ns_d" ∧ bName o = "b1"
          ∧ bDestroyed o = 0%nat)
  ∧ ∀ nsName' name',
      storedAt (container idle) nsName' name' 1 →
      nsName' = "ns_d" ∧ name' = "b1".
Proof.
  apply (stored_buckets_distinct sampleCfg idle "ns_d" "b1" 1 idle_reachable).
  exists idleNs. split; vm_compute; reflexivity.
Defined.




(** X6: in every reachable state a goroutine running watch watches the
    bucket that is stored under its name, at the idle period of that
    bucket, is past its first test only if that period is not zero, and
    is the only goroutine watching that bucket. *)
Theorem watchers_distinct cfg s i wt :
  reachable cfg s →
  goroutines (world s) !! i = Some wt →
  storedAt (container s) (wNamespace wt) (wBucketName wt) (wBucket wt)
  ∧ (∃ o, heap (world s) !! wBucket wt = Some o
          ∧ wFreq wt = idleDuration (bConfig o))
  ∧ (wPc wt ≠ AtStart → wFreq wt ≠ 0)
  ∧ ∀ j wt',
      goroutines (world s) !! j = Some wt' →
      wBucket wt' = wBucket wt → j = i.
Proof.
  intros Hreach Hi.
  pose proof (reachable_invariant _ _ Hreach) as [Hst Hdef Hwt Hkeys Hdes].
  destruct (Hwt _ _ Hi) as (Hs & (o & Ho & Hf) & Hpc).
  split; [done |]. split.
  { apply view_lookup_inv in Ho as (o' & Ho' & ->). by exists o'. }
  split; [done |]. intros j wt' Hj Hb.
  destruct (Hwt _ _ Hj) as (Hs' & _). rewrite Hb in Hs'.
  destruct (Hst _ _ _ Hs) as (_ & o1 & Ho1 & Hn1 & Hm1 & _).
  destruct (Hst _ _ _ Hs') as (_ & o2 & Ho2 & Hn2 & Hm2 & _).
  assert (o2 = o1) as -> by congruence.
  apply (NoDup_lookup (watcherKey <$> goroutines (world s)) _ _
           (watcherKey wt) Hkeys).
  - rewrite list_lookup_fmap, Hj. simpl. unfold watcherKey. congruence.
  - by rewrite list_lookup_fmap, Hi.
Qed.

Lemma watchers_distinct_witness :
  storedAt (container idle) "ns_d" "b1" 1
  ∧ (∃ o, heap (world idle) !! 1%nat = Some o
          ∧ 50000000 = idleDuration (bConfig o))
  ∧ (InLoop ≠ AtStart → 50000000 ≠ 0)
  ∧ ∀ j wt',
      goroutines (world idle) !! j = Some wt' →
      wBucket wt' = 1%nat → j = 0%nat.
Proof.
  apply (watchers_distinct sampleCfg idle 0 idleWatcher idle_reachable).
  reflexivity.
Defined.

End reachable_states.

(** ** Reports and eviction *)
Section reports.

Implicit Types (bc : BucketContainer) (ns : namespace) (w : World).
Implicit Types (nsName name : string) (b : nat) (s : System).

Lemma pending_ReportActivity b' w b :
  pending w b → pending (ReportActivity b' w) b.
Proof.
  intros (o & Ho & Hne). unfold pending. rewrite heap_ReportActivity.
  case_decide as Hb.
  - rewrite Ho. simpl. eexists. split; [done |]. simpl.
    unfold chanReportActivity. by destruct (bActivity o).
  - eauto.
Qed.

Lemma pending_touched r w b : pending w b → pending (touched r w) b.
Proof. destruct r; [apply pending_ReportActivity | done]. Qed.

Lemma pending_created nsName name ns bCfg dyn w b :
  pending w b →
  pending (createNewNamedBucketFromCfg nsName name ns bCfg dyn w).2 b.
Proof.
  intros (o & Ho & Hne). exists o. split; [| done].
  rewrite createNewNamedBucketFromCfg_heap.
  rewrite lookup_app_l; [done |]. by eapply lookup_lt_Some.
Qed.

Lemma pending_createNewNamedBucket bc nsName name ns w r ns' w' b :
  createNewNamedBucket bc nsName name ns w = Some (r, ns', w') →
  pending w b → pending w' b.
Proof.
  intros Hc Hp. unfold createNewNamedBucket in Hc.
  destruct (Buckets (ns_cfg ns) !! name) as [c|].
  - pose proof (pending_created nsName name ns c false w b Hp) as Hp'.
    destruct (createNewNamedBucketFromCfg nsName name ns c false w)
      as [[b1 ns1] w1]. by injection Hc as <- <- <-.
  - destruct (countDynamicBuckets bc nsName w) as [k|]; simpl in Hc; [| done].
    destruct ((MaxDynamicBuckets (ns_cfg ns) <=? k)
              && (0 <? MaxDynamicBuckets (ns_cfg ns))).
    + by injection Hc as <- <- <-.
    + destruct (DynamicBucketTemplate (ns_cfg ns)) as [c|]; simpl in Hc;
        [| done].
      injection Hc as <- <- <-.
      exact (pending_created nsName name ns c true w b Hp).
Qed.

(** A lookup never takes a report away. *)
Lemma pending_FindBucket bc nsName name w r bc' w' b :
  FindBucket bc nsName name w = Some (r, bc', w') →
  pending w b → pending w' b.
Proof.
  intros Hf Hp.
  destruct (bc_namespaces bc !! nsName) as [ns|] eqn:Hns.
  2: { rewrite (FindBucket_unconfigured _ _ _ _ Hns) in Hf.
       injection Hf as <- <- <-. by apply pending_touched. }
  destruct (ns_buckets ns !! name) as [b0|] eqn:Hb.
  { rewrite (FindBucket_present _ _ _ _ _ _ Hns Hb) in Hf.
    injection Hf as <- <- <-. by apply pending_ReportActivity. }
  destruct (DynamicBucketTemplate (ns_cfg ns)) as [c|] eqn:Ht.
  2: { rewrite (FindBucket_default _ _ _ _ _ Hns Hb Ht) in Hf.
       injection Hf as <- <- <-. by apply pending_touched. }
  destruct (createNewNamedBucket bc nsName name ns (writeLocked nsName w))
    as [[[r1 ns1] w1]|] eqn:Hc.
  - rewrite (FindBucket_create _ _ _ _ _ _ _ _ _ Hns Hb Ht Hc) in Hf.
    injection Hf as <- <- <-.
    apply (pending_touched r1 w1 b).
    by eapply pending_createNewNamedBucket.
  - unfold FindBucket in Hf. rewrite Hns, Hb, Ht in Hf.
    unfold writeLocked, readLocked in Hc. by rewrite Hc in Hf.
Qed.

Lemma atPc_same wt : atPc (wPc wt) wt = wt.
Proof. by destruct wt. Qed.

(** X7: a report of activity on a bucket stays pending through every
    step of the system except one: the tick of a watcher of that bucket,
    which takes the report, stays in its loop and leaves the container
    as it is. *)
Theorem report_outlives_other_steps s s' b :
  step s s' →
  pending (world s) b →
  pending (world s') b
  ∨ ∃ i wt,
      goroutines (world s) !! i = Some wt
      ∧ wBucket wt = b ∧ wPc wt = InLoop
      ∧ runWatcher i s = Some s'
      ∧ container s' = container s
      ∧ goroutines (world s') = goroutines (world s).
Proof.
  intros Hstep Hp.
  destruct Hstep as [s0 n m r bc w Hf | s0 b' | s0 i s1 Hw].
  - left. by eapply pending_FindBucket.
  - left. by apply pending_ReportActivity.
  - pose proof Hw as Hrun. unfold runWatcher in Hw.
    destruct (goroutines (world s0) !! i) as [wt|] eqn:Hi; simpl in Hw;
      [| done].
    unfold watchStep in Hw. destruct (wPc wt) eqn:Hpc.
    + left. destruct (wFreq wt =? 0); simpl in Hw; by injection Hw as <-.
    + destruct (wFreq wt <=? 0); simpl in Hw; [done |].
      injection Hw as <-.
      destruct Hp as (o & Ho & Hne).
      destruct (decide (wBucket wt = b)) as [Hb | Hb].
      * right. exists i, wt. split; [done |]. split; [done |].
        split; [done |]. split; [done |]. split; [done |]. simpl.
        unfold ActivityDetected. simpl. rewrite Hb, Ho.
        destruct (bActivity o) as [|x rest]; [done |]. simpl.
        rewrite <-Hpc, atPc_same. by apply list_insert_id.
      * left. exists o. split; [| done]. simpl.
        by rewrite list_lookup_alter_ne.
    + left. simpl in Hw. injection Hw as <-.
      destruct Hp as (o & Ho & Hne).
      change (heap (world s0) !! b = Some o) in Ho.
      unfold pending.
      change (heap (world _))
        with (alter destroyed (wBucket wt) (heap (world s0))).
      destruct (decide (wBucket wt = b)) as [Hb | Hb].
      * exists (destroyed o). split; [| done].
        by rewrite Hb, list_lookup_alter_eq, Ho.
      * exists o. split; [| done]. by rewrite list_lookup_alter_ne.
Qed.

Lemma report_outlives_other_steps_witness :
  pending (ReportActivity 0 (world (start sampleCfg))) 1
  ∨ ∃ i wt,
      goroutines (world (start sampleCfg)) !! i = Some wt
      ∧ wBucket wt = 1%nat ∧ wPc wt = InLoop
      ∧ runWatcher i (start sampleCfg)
        = Some {| container := container (start sampleCfg);
                  world := ReportActivity 0 (world (start sampleCfg)) |}
      ∧ container (start sampleCfg) = container (start sampleCfg)
      ∧ goroutines (ReportActivity 0 (world (start sampleCfg)))
        = goroutines (world (start sampleCfg)).
Proof.
  apply (report_outlives_other_steps (start sampleCfg) _ 1
           (step_ReportActivity (start sampleCfg) 0)).
  exists (freshBucket "ns_d" "b1" staticCfg false).
  split; [vm_compute; reflexivity | discriminate].
Defined.

Lemma runWatcher_Removing i s wt :
  goroutines (world s) !! i = Some wt →
  wPc wt = Removing →
  runWatcher i s =
    Some {| container := (removeBucket wt (container s) (world s)).1;
            world := withGoroutines (delete i (goroutines (world s)))
                       (removeBucket wt (container s) (world s)).2 |}.
Proof.
  intros Hi Hpc. unfold runWatcher. rewrite Hi. simpl.
  unfold watchStep. by rewrite Hpc.
Qed.

(** X8: once a watcher has left its loop, a lookup of its bucket still
    finds the bucket and reports activity on it, and the next step of
    the watcher removes and destroys that bucket all the same, with the
    report pending. *)
Theorem eviction_ignores_late_activity cfg s i wt :
  reachable cfg s →
  goroutines (world s) !! i = Some wt →
  wPc wt = Removing →
  ∃ w' s2 o,
    FindBucket (container s) (wNamespace wt) (wBucketName wt) (world s)
      = Some (Some (wBucket wt), container s, w')
    ∧ pending w' (wBucket wt)
    ∧ runWatcher i {| container := container s; world := w' |} = Some s2
    ∧ Exists (container s2) (wNamespace wt) (wBucketName wt) = false
    ∧ heap (world s2) !! wBucket wt = Some o
    ∧ bDestroyed o = 1%nat ∧ bActivity o ≠ [].
Proof.
  intros Hreach Hi Hpc.
  pose proof (reachable_invariant _ _ Hreach) as [Hst Hdef Hwt Hkeys Hdes].
  destruct (Hwt _ _ Hi) as (Hs & _).
  destruct (Hst _ _ _ Hs) as (_ & o & Ho & _ & _ & Hz).
  apply view_lookup_inv in Ho as (o0 & Ho0 & ->).
  destruct Hs as (ns & Hns & Hb).
  set (w' := ReportActivity (wBucket wt)
               (readLocked (wNamespace wt) (world s))).
  set (o1 := withActivity (chanReportActivity (bActivity o0)) o0).
  assert (Ho1 : heap w' !! wBucket wt = Some o1).
  { unfold w'. rewrite heap_ReportActivity, decide_True by done.
    change (heap (readLocked ?n ?w0)) with (heap w0). by rewrite Ho0. }
  assert (Hne : bActivity o1 ≠ []) by by eapply ReportActivity_flagged.
  set (s1 := {| container := container s; world := w' |}).
  exists w', (Build_System (removeBucket wt (container s1) (world s1)).1
                (withGoroutines (delete i (goroutines (world s1)))
                   (removeBucket wt (container s1) (world s1)).2)),
    (destroyed o1).
  split; [by apply (FindBucket_present _ _ _ ns) |].
  split; [by exists o1 |].
  split; [by apply runWatcher_Removing |].
  split; [apply Exists_deleteBucket |].
  split.
  - change (heap (world _)) with (alter destroyed (wBucket wt) (heap w')).
    by rewrite list_lookup_alter_eq, Ho1.
  - simpl in Hz. simpl. by rewrite Hz.
Qed.

Lemma eviction_ignores_late_activity_witness :
  ∃ w' s2 o,
    FindBucket (container leaving) "ns_d" "b1" (world leaving)
      = Some (Some 1%nat, container leaving, w')
    ∧ pending w' 1
    ∧ runWatcher 0 {| container := container leaving; world := w' |} = Some s2
    ∧ Exists (container s2) "ns_d" "b1" = false
    ∧ heap (world s2) !! 1%nat = Some o
    ∧ bDestroyed o = 1%nat ∧ bActivity o ≠ [].
Proof.
  apply (eviction_ignores_late_activity sampleCfg leaving 0 leavingWatcher
           leaving_reachable); reflexivity.
Defined.

End reports.

(** ** The answers of the handler *)
Section responses.

Implicit Types (qs : QuotaService) (req : AllowRequest).

Lemma invalid_explicit req : invalid (explicit req) = invalid req.
Proof.
  unfold invalid, explicit, GetName, GetNamespace, GetNumTokensRequested,
    tokensPassed. simpl.
  by destruct (NumTokensRequested req).
Qed.

Lemma answer_explicit qs req : answer qs (explicit req) = answer qs req.
Proof. done. Qed.

(** X9: the response carries the number of tokens granted and the wait
    together, exactly when the status is OK or OK_WAIT, which is exactly
    when the request is well formed and the quota service returns no
    error; they are then the values the service returned, and the status
    is OK_WAIT exactly when the wait is positive. *)
Theorem Allow_granted qs req :
  (is_Some (NumTokensGranted (Allow qs req))
   ↔ is_Some (WaitMillis (Allow qs req)))
  ∧ (is_Some (NumTokensGranted (Allow qs req))
     ↔ Status (Allow qs req) = Some AllowResponse_OK
       ∨ Status (Allow qs req) = Some AllowResponse_OK_WAIT)
  ∧ (is_Some (NumTokensGranted (Allow qs req))
     ↔ invalid req = false ∧ (answer qs req).2 = None)
  ∧ (is_Some (NumTokensGranted (Allow qs req)) →
     NumTokensGranted (Allow qs req) = Some (answer qs req).1.1
     ∧ WaitMillis (Allow qs req) = Some (Nanoseconds (answer qs req).1.2)
     ∧ (Status (Allow qs req) = Some AllowResponse_OK_WAIT
        ↔ 0 < (answer qs req).1.2)).
Proof.
  assert (Hno : ¬ is_Some (@None Z)) by (intros [? ?]; done).
  destruct (invalid req) eqn:Hv.
  - unfold Allow. rewrite Hv. simpl.
    split_and!; try (split; intros H); try (intros H);
      try (by destruct (Hno H)); intuition congruence.
  - rewrite (Allow_valid _ _ Hv).
    destruct (answer qs req) as [[granted wait] [[[]|]|]]; simpl;
      try (split_and!; try (split; intros H); try (intros H);
           try (by destruct (Hno H)); intuition congruence).
    destruct (0 <? wait) eqn:Hw;
      [apply Z.ltb_lt in Hw | apply Z.ltb_ge in Hw];
      (split_and!; try (split; intros H); try (intros H); eauto;
       try (split_and!; [done | done |]; split; intros H'; [lia || done |]);
       try done; try lia; try congruence).
Qed.

(** X10: a request that is not well formed is answered without the
    quota service: the answer is the same whatever the service is.  A
    well-formed request is answered from what the service returns for
    the namespace, the name, the number of tokens (1 when unset) and the
    override of the wait (-1 when unset), and from nothing else of the
    service; a request that leaves the two numbers unset is answered as
    the one that sets them to 1 and to -1. *)
Theorem Allow_consults_service qs qs' req :
  (invalid req = true → Allow qs req = Allow qs' req)
  ∧ (answer qs req = answer qs' req → Allow qs req = Allow qs' req)
  ∧ Allow qs (explicit req) = Allow qs req.
Proof.
  split_and!.
  - intros Hv. unfold Allow. by rewrite Hv.
  - intros Ha. destruct (invalid req) eqn:Hv.
    + unfold Allow. by rewrite Hv.
    + by rewrite !(Allow_valid _ _ Hv), Ha.
  - destruct (invalid req) eqn:Hv.
    + unfold Allow. by rewrite invalid_explicit, Hv.
    + rewrite (Allow_valid qs (explicit req)), (Allow_valid qs req);
        [done | done | by rewrite invalid_explicit].
Qed.

Lemma Allow_consults_service_witness :
  Allow waitOneMillisecond
    {| Namespace := None; Name := Some "b"; NumTokensRequested := None;
       MaxWaitMillisOverride := None |}
  = Allow brokenService
      {| Namespace := None; Name := Some "b"; NumTokensRequested := None;
         MaxWaitMillisOverride := None |}.
Proof.
  exact (proj1 (Allow_consults_service waitOneMillisecond brokenService
                  {| Namespace := None; Name := Some "b";
                     NumTokensRequested := None;
                     MaxWaitMillisOverride := None |}) eq_refl).
Defined.

(** X11: the status is REJECTED exactly when the request is well formed
    and the quota service returns a QuotaServiceError for a missing
    bucket, a rejection or a timeout; the response is the same for the
    three reasons and carries neither tokens nor a wait. *)
Theorem Allow_rejected qs req :
  (Status (Allow qs req) = Some AllowResponse_REJECTED
   ↔ invalid req = false
     ∧ ∃ reason,
         (answer qs req).2 = Some (QuotaServiceError reason)
         ∧ (reason = ER_NO_SUCH_BUCKET ∨ reason = ER_REJECTED
            ∨ reason = ER_TIMED_OUT_WAITING))
  ∧ (Status (Allow qs req) = Some AllowResponse_REJECTED →
     Allow qs req = {| Status := Some AllowResponse_REJECTED;
                       NumTokensGranted := None; WaitMillis := None |}).
Proof.
  destruct (invalid req) eqn:Hv.
  - unfold Allow at 1 2. rewrite Hv. simpl.
    split; [| done]. split; [done | by intros [? _]].
  - rewrite (Allow_valid _ _ Hv).
    destruct (answer qs req) as [[granted wait] [[[]|]|]]; simpl;
      try destruct (0 <? wait);
      (split; [split; [intros H | intros (_ & reason & H & Hr)] | intros H]);
      try done; try (split; [done |]; eauto 6);
      try (injection H as <-; intuition congruence).
Qed.

End responses.

(** ** Qualified names *)
Section qualified_names.

Implicit Types (nsName name : string).

(** X12: two pairs of a namespace and a bucket name get the same
    qualified name only if they are the same pair, provided the
    namespaces hold no colon. *)
Theorem FullyQualifiedName_inj nsName name nsName' name' :
  hasColon nsName = false → hasColon nsName' = false →
  FullyQualifiedName nsName name = FullyQualifiedName nsName' name' →
  nsName = nsName' ∧ name = name'.
Proof.
  unfold FullyQualifiedName. revert nsName'.
  induction nsName as [|c rest IH]; intros [|c' rest']; simpl.
  - intros _ _ [= Heq]. by subst.
  - intros _ Hc [= Heq _]. subst c'.
    by rewrite bool_decide_eq_true_2 in Hc.
  - intros Hc _ [= Heq _]. subst c.
    by rewrite bool_decide_eq_true_2 in Hc.
  - intros Hc Hc' [= Hcc Heq]. subst c'.
    apply orb_false_iff in Hc as [_ Hc]. apply orb_false_iff in Hc' as [_ Hc'].
    destruct (IH rest' Hc Hc' Heq) as [Hr Hn]. by subst.
Qed.

Lemma FullyQualifiedName_inj_witness :
  "ns" = "ns" ∧ "b" = "b".
Proof.
  apply (FullyQualifiedName_inj "ns" "b" "ns" "b"); reflexivity.
Defined.

Lemma append_assoc (a b c : string) : (a +:+ b) +:+ c = a +:+ (b +:+ c).
Proof.
  induction a as [|x a IH]; [done |].
  change (String x ((a +:+ b) +:+ c) = String x (a +:+ b +:+ c)).
  by f_equal.
Qed.

Lemma append_self (a t : string) : a +:+ t = a → t = EmptyString.
Proof.
  induction a as [|x a IH]; intros H; [exact H |].
  change (String x (a +:+ t) = String x a) in H.
  injection H as H. by apply IH.
Qed.

(** X13: where a namespace may hold a colon, different pairs share a
    qualified name: the pair of [a:b] and [c] and the pair of [a] and
    [b:c]. *)
Theorem FullyQualifiedName_collision (a b c : string) :
  FullyQualifiedName (a +:+ ":" +:+ b) c = FullyQualifiedName a (b +:+ ":" +:+ c)
  ∧ (a +:+ ":" +:+ b, c) ≠ (a, b +:+ ":" +:+ c).
Proof.
  split.
  - unfold FullyQualifiedName. by rewrite !append_assoc.
  - intros [= Ha _]. by apply append_self in Ha.
Qed.

End qualified_names.

(** ** Where buckets come from, how many there are, who watches them *)
Section origins.

Implicit Types (bc : BucketContainer) (ns : namespace) (w : World).
Implicit Types (nsName name : string) (b : nat) (s : System).
Implicit Types (v : list BucketObj) (gs : list watcher).

Lemma isDyn_app v ext b : (b < length v)%nat → isDyn (v ++ ext) b = isDyn v b.
Proof. intros Hb. unfold isDyn. by rewrite lookup_app_l. Qed.

Lemma isDyn_destroyed v l b : isDyn (alter destroyed l v) b = isDyn v b.
Proof.
  unfold isDyn. destruct (decide (l = b)) as [->|Hne].
  - rewrite list_lookup_alter_eq. by destruct (v !! b).
  - by rewrite list_lookup_alter_ne.
Qed.

Lemma dynamicIn_ext v v' (m : gmap string nat) :
  (∀ k b, m !! k = Some b → isDyn v b = isDyn v' b) →
  dynamicIn v m = dynamicIn v' m.
Proof.
  intros H. unfold dynamicIn. rewrite !map_fold_foldr.
  assert (Hl : ∀ k b, (k, b) ∈ map_to_list m → isDyn v b = isDyn v' b).
  { intros k b Hin. apply (H k). by apply elem_of_map_to_list. }
  induction (map_to_list m) as [|[k b] l IH]; simpl; [done |].
  rewrite IH, (Hl k b); [done | |].
  - apply elem_of_cons. by left.
  - intros k' b' Hin. apply (Hl k'). apply elem_of_cons. by right.
Qed.

Lemma dynamicIn_insert v (m : gmap string nat) k b :
  m !! k = None →
  dynamicIn v (<[k := b]> m)
  = if isDyn v b then dynamicIn v m + 1 else dynamicIn v m.
Proof.
  intros Hk. unfold dynamicIn. rewrite map_fold_insert_L; [done | | done].
  intros j1 j2 z1 z2 y _ _ _. destruct (isDyn v z1), (isDyn v z2); lia.
Qed.

Lemma dynamicIn_delete v (m : gmap string nat) k b :
  m !! k = Some b →
  dynamicIn v m
  = if isDyn v b then dynamicIn v (delete k m) + 1
    else dynamicIn v (delete k m).
Proof.
  intros Hk. unfold dynamicIn.
  rewrite (map_fold_delete_L _ _ k b m); [done | | done].
  intros j1 j2 z1 z2 y _ _ _. destruct (isDyn v z1), (isDyn v z2); lia.
Qed.

Lemma dynamicIn_bounds v (m : gmap string nat) :
  0 ≤ dynamicIn v m ≤ Z.of_nat (size m).
Proof.
  unfold dynamicIn.
  apply (map_fold_weak_ind (λ c m, 0 ≤ c ≤ Z.of_nat (size m))).
  - by rewrite map_size_empty.
  - intros k b m' c Hfresh IH. rewrite map_size_insert_None by done.
    destruct (isDyn v b); lia.
Qed.

Lemma dynamicIn_static v (m : gmap string nat) :
  (∀ k b, m !! k = Some b → isDyn v b = false) → dynamicIn v m = 0.
Proof.
  unfold dynamicIn.
  apply (map_fold_weak_ind
           (λ c m, (∀ k b, m !! k = Some b → isDyn v b = false) → c = 0)).
  - done.
  - intros k b m' c Hfresh IH Hall.
    rewrite (Hall k b) by apply lookup_insert_eq. apply IH.
    intros k' b' Hb'. apply (Hall k').
    rewrite lookup_insert_ne; [done |]. intros ->. congruence.
Qed.

Lemma dynamicCount_dynamicIn w (m : gmap string nat) :
  dynamicCount w m = dynamicIn (view w) m.
Proof.
  unfold dynamicCount, dynamicIn. rewrite !map_fold_foldr.
  induction (map_to_list m) as [|[k b] l IH]; simpl; [done |].
  by rewrite IH, Dynamic_view.
Qed.

Lemma capReached_dynamicIn ns w :
  capReached ns w ↔
  0 < MaxDynamicBuckets (ns_cfg ns)
  ∧ MaxDynamicBuckets (ns_cfg ns) ≤ dynamicIn (view w) (ns_buckets ns).
Proof.
  unfold capReached.
  change (map_fold _ 0 (ns_buckets ns)) with (dynamicCount w (ns_buckets ns)).
  by rewrite dynamicCount_dynamicIn.
Qed.

Lemma lookup_delete_other {A} (l : list A) i j x :
  l !! j = Some x → j ≠ i → ∃ j', delete i l !! j' = Some x.
Proof.
  intros Hj Hne. destruct (decide (j < i)%nat) as [Hlt|Hge].
  - exists j. by rewrite list_lookup_delete_lt.
  - exists (pred j). rewrite list_lookup_delete_ge by lia.
    by replace (S (pred j)) with j by lia.
Qed.

Lemma lookup_destroyed v l b o :
  alter destroyed l v !! b = Some o →
  ∃ o', v !! b = Some o' ∧ bDynamic o = bDynamic o' ∧ bConfig o = bConfig o'.
Proof.
  destruct (decide (l = b)) as [->|Hne].
  - rewrite list_lookup_alter_eq. destruct (v !! b) as [o'|]; [| done].
    intros [= <-]. by exists o'.
  - rewrite list_lookup_alter_ne by done. intros Ho. by exists o.
Qed.

(** *** What a creation, a removal and a move of a watcher keep *)

Lemma Kept_create bc v gs nsName name ns bCfg dyn :
  Inv bc v gs → Kept bc v gs →
  bc_namespaces bc !! nsName = Some ns →
  ns_buckets ns !! name = None →
  (Buckets (ns_cfg ns) !! name = Some bCfg ∧ dyn = false
   ∨ Buckets (ns_cfg ns) !! name = None
     ∧ DynamicBucketTemplate (ns_cfg ns) = Some bCfg ∧ dyn = true
     ∧ ¬ (0 < MaxDynamicBuckets (ns_cfg ns)
          ∧ MaxDynamicBuckets (ns_cfg ns) ≤ dynamicIn v (ns_buckets ns))) →
  Kept (withNamespace nsName (stored name (length v) ns) bc)
       (v ++ [bucketOf nsName name bCfg dyn])
       (gs ++ [watcherOf nsName name (length v) bCfg]).
Proof.
  intros [Hst Hdef Hwt Hkeys Hdes] [Hor Hcap Hwd Hlv] Hns Hfree Hkind.
  assert (Hvalid : ∀ n ns0 m b,
            bc_namespaces bc !! n = Some ns0 → ns_buckets ns0 !! m = Some b →
            (b < length v)%nat).
  { intros n ns0 m b Hn Hb.
    destruct (Hst n m b) as (_ & o & Ho & _); [by exists ns0 |].
    by eapply lookup_lt_Some. }
  assert (Hsame : ∀ n ns0,
            bc_namespaces bc !! n = Some ns0 →
            dynamicIn (v ++ [bucketOf nsName name bCfg dyn]) (ns_buckets ns0)
            = dynamicIn v (ns_buckets ns0)).
  { intros n ns0 Hn. apply dynamicIn_ext. intros k b Hb.
    apply isDyn_app. by eapply Hvalid. }
  split.
  - intros n ns1 m b o Hn Hb Ho. simpl in Hn.
    destruct (decide (nsName = n)) as [<-|Hne].
    + rewrite lookup_insert_eq in Hn. injection Hn as <-. simpl in Hb.
      change (origin (ns_cfg ns) m o).
      destruct (decide (name = m)) as [<-|Hm].
      * rewrite lookup_insert_eq in Hb. injection Hb as <-.
        rewrite list_lookup_middle in Ho by done. injection Ho as <-.
        unfold origin. simpl.
        destruct Hkind as [(Hc & ->) | (Hc & Ht & -> & _)]; done.
      * rewrite lookup_insert_ne in Hb by done.
        rewrite lookup_app_l in Ho by by eapply Hvalid.
        by eapply Hor.
    + rewrite lookup_insert_ne in Hn by done.
      rewrite lookup_app_l in Ho by by eapply Hvalid.
      by eapply Hor.
  - intros n ns1 Hn Hpos. simpl in Hn.
    destruct (decide (nsName = n)) as [<-|Hne].
    + rewrite lookup_insert_eq in Hn. injection Hn as <-.
      change (0 < MaxDynamicBuckets (ns_cfg ns)) in Hpos.
      change (dynamicIn (v ++ [bucketOf nsName name bCfg dyn])
                (<[name := length v]> (ns_buckets ns))
              ≤ MaxDynamicBuckets (ns_cfg ns)).
      rewrite dynamicIn_insert by done.
      rewrite (Hsame _ _ Hns).
      specialize (Hcap _ _ Hns Hpos).
      unfold isDyn. rewrite list_lookup_middle by done. simpl.
      destruct Hkind as [(_ & ->) | (_ & _ & -> & Hroom)]; [done |]. lia.
    + rewrite lookup_insert_ne in Hn by done.
      rewrite (Hsame _ _ Hn). by eapply Hcap.
  - intros n m b o Hs Ho Hidle.
    rewrite storedAt_stored in Hs by done.
    destruct Hs as [(-> & -> & ->) | (Hne & Hs)].
    + exists (length gs), (watcherOf nsName name (length v) bCfg).
      split; [by apply list_lookup_middle | done].
    + destruct (Hst _ _ _ Hs) as (_ & o' & Ho' & _).
      rewrite lookup_app_l in Ho by by eapply lookup_lt_Some.
      destruct (Hwd _ _ _ _ Hs Ho Hidle) as (i & wt & Hi & Hb).
      exists i, wt. split; [| done].
      rewrite lookup_app_l; [done |]. by eapply lookup_lt_Some.
  - intros i wt. rewrite lookup_snoc_Some.
    intros [(_ & Hi) | (_ & <-)]; [by eapply Hlv | done].
Qed.

Lemma deleteBucket_lookup bc nsName name n ns' :
  bc_namespaces (deleteBucket nsName name bc) !! n = Some ns' →
  ∃ ns,
    bc_namespaces bc !! n = Some ns
    ∧ ns_cfg ns' = ns_cfg ns
    ∧ (ns_buckets ns' = ns_buckets ns
       ∨ ns_buckets ns' = delete name (ns_buckets ns)).
Proof.
  unfold deleteBucket.
  destruct (bc_namespaces bc !! nsName) as [ns|] eqn:Hns.
  - simpl. destruct (decide (nsName = n)) as [<-|Hne].
    + rewrite lookup_insert_eq. intros [= <-]. exists ns. simpl. eauto.
    + rewrite lookup_insert_ne by done. intros Hn. exists ns'. eauto.
  - intros Hn. exists ns'. eauto.
Qed.

Lemma Kept_remove bc v gs i wt :
  Inv bc v gs → Kept bc v gs →
  gs !! i = Some wt →
  Kept (deleteBucket (wNamespace wt) (wBucketName wt) bc)
       (alter destroyed (wBucket wt) v) (delete i gs).
Proof.
  intros [Hst Hdef Hwt Hkeys Hdes] [Hor Hcap Hwd Hlv] Hi.
  split.
  - intros n ns' m b o Hn Hb Ho.
    apply deleteBucket_lookup in Hn as (ns & Hn & Hcfg & Hm).
    apply lookup_destroyed in Ho as (o' & Ho' & Hdyn & Hc).
    assert (Hb' : ns_buckets ns !! m = Some b).
    { destruct Hm as [Hm | Hm]; rewrite Hm in Hb; [done |].
      by apply lookup_delete_Some in Hb as [_ Hb]. }
    pose proof (Hor _ _ _ _ _ Hn Hb' Ho') as Horigin.
    unfold origin in *. by rewrite Hcfg, Hdyn, Hc.
  - intros n ns' Hn Hpos.
    apply deleteBucket_lookup in Hn as (ns & Hn & Hcfg & Hm).
    rewrite Hcfg in *. specialize (Hcap _ _ Hn Hpos).
    rewrite (dynamicIn_ext _ v) by (intros; apply isDyn_destroyed).
    destruct Hm as [-> | ->]; [done |].
    destruct (ns_buckets ns !! wBucketName wt) as [b|] eqn:Hb.
    + rewrite (dynamicIn_delete v _ _ _ Hb) in Hcap.
      destruct (isDyn v b); lia.
    + by rewrite delete_id.
  - intros n m b o Hs Ho Hidle.
    apply storedAt_deleteBucket in Hs as [Hne Hs].
    apply lookup_destroyed in Ho as (o' & Ho' & _ & Hc).
    rewrite Hc in Hidle.
    destruct (Hwd _ _ _ _ Hs Ho' Hidle) as (j & wt' & Hj & Hb).
    assert (Hji : j ≠ i).
    { intros ->. assert (wt' = wt) as -> by congruence.
      destruct (Hwt _ _ Hi) as (Hs' & _). rewrite Hb in Hs'.
      destruct (Hst _ _ _ Hs) as (_ & o1 & Ho1 & Hn1 & Hm1 & _).
      destruct (Hst _ _ _ Hs') as (_ & o2 & Ho2 & Hn2 & Hm2 & _).
      apply Hne. congruence. }
    destruct (lookup_delete_other gs i j wt' Hj Hji) as (j' & Hj').
    by exists j', wt'.
  - intros j wt' Hj. apply (list_elem_of_lookup_2 (delete i gs)) in Hj.
    apply list_elem_of_delete_inv, list_elem_of_lookup_1 in Hj as (k & Hk).
    by eapply Hlv.
Qed.

Lemma Kept_pc bc v gs i wt pc :
  Kept bc v gs →
  gs !! i = Some wt →
  (pc = Removing → 0 < wFreq wt) →
  Kept bc v (<[i := atPc pc wt]> gs).
Proof.
  intros [Hor Hcap Hwd Hlv] Hi Hpc. split; [done | done | |].
  - intros n m b o Hs Ho Hidle.
    destruct (Hwd _ _ _ _ Hs Ho Hidle) as (j & wt' & Hj & Hb).
    destruct (decide (i = j)) as [<-|Hne].
    + exists i, (atPc pc wt). split.
      * apply list_lookup_insert_eq. by eapply lookup_lt_Some.
      * simpl. congruence.
    + exists j, wt'. by rewrite list_lookup_insert_ne.
  - intros j wt'. rewrite list_lookup_insert_Some.
    intros [(<- & <- & _) | (_ & Hj)]; [| by eapply Hlv].
    simpl. done.
Qed.

Lemma Kept_return bc v gs i wt :
  Inv bc v gs → Kept bc v gs →
  gs !! i = Some wt → wFreq wt = 0 →
  Kept bc v (delete i gs).
Proof.
  intros [Hst Hdef Hwt Hkeys Hdes] [Hor Hcap Hwd Hlv] Hi Hzero.
  split; [done | done | |].
  - intros n m b o Hs Ho Hidle.
    destruct (Hwd _ _ _ _ Hs Ho Hidle) as (j & wt' & Hj & Hb).
    assert (Hji : j ≠ i).
    { intros ->. assert (wt' = wt) as -> by congruence.
      destruct (Hwt _ _ Hi) as (_ & (o' & Ho' & Hf) & _).
      rewrite Hb in Ho'. congruence. }
    destruct (lookup_delete_other gs i j wt' Hj Hji) as (j' & Hj').
    by exists j', wt'.
  - intros j wt' Hj. apply (list_elem_of_lookup_2 (delete i gs)) in Hj.
    apply list_elem_of_delete_inv, list_elem_of_lookup_1 in Hj as (k & Hk).
    by eapply Hlv.
Qed.

(** A step of a watcher, with the position it moves to. *)
Lemma runWatcher_moves i s s' :
  runWatcher i s = Some s' →
  ∃ wt,
    goroutines (world s) !! i = Some wt
    ∧ ((wPc wt = AtStart ∧ wFreq wt = 0
        ∧ container s' = container s
        ∧ view (world s') = view (world s)
        ∧ goroutines (world s') = delete i (goroutines (world s)))
       ∨ (∃ pc,
            (pc = Removing → 0 < wFreq wt)
            ∧ container s' = container s
            ∧ view (world s') = view (world s)
            ∧ goroutines (world s')
              = <[i := atPc pc wt]> (goroutines (world s)))
       ∨ (container s'
            = deleteBucket (wNamespace wt) (wBucketName wt) (container s)
          ∧ view (world s') = alter destroyed (wBucket wt) (view (world s))
          ∧ goroutines (world s') = delete i (goroutines (world s)))).
Proof.
  unfold runWatcher.
  destruct (goroutines (world s) !! i) as [wt|] eqn:Hi; simpl; [| done].
  intros Hs. exists wt. split; [done |].
  unfold watchStep in Hs. destruct (wPc wt) eqn:Hpc.
  - destruct (wFreq wt =? 0) eqn:Hf; simpl in Hs; injection Hs as <-.
    + left. apply Z.eqb_eq in Hf. done.
    + right. left. exists InLoop. done.
  - destruct (wFreq wt <=? 0) eqn:Hf; simpl in Hs; [done |].
    injection Hs as <-. right. left. apply Z.leb_gt in Hf.
    exists (if (ActivityDetected (wBucket wt) (world s)).1
            then InLoop else Removing).
    split; [done |]. split; [done |].
    split; [apply view_ActivityDetected | done].
  - simpl in Hs. injection Hs as <-. right. right.
    split; [done |]. split; [| done].
    exact (view_Destroy (wBucket wt) (world s)).
Qed.

Lemma step_kept s s' : step s s' → invariant s → kept s → kept s'.
Proof.
  unfold invariant, kept. intros Hstep Hinv Hk.
  destruct Hstep as [s n m r bc w Hf | s b | s i s' Hw].
  - simpl.
    destruct (FindBucket_effect _ _ _ _ _ _ _ Hf)
      as [(-> & -> & -> & _)
         | (ns & c & dyn & Hns & Hfree & _ & Hkind & _ & -> & -> & ->)];
      [done |].
    rewrite <-view_length.
    apply Kept_create; [done | done | done | done |].
    destruct Hkind as [Hs | (Hc & Ht & Hd & Hroom)]; [by left | right].
    split; [done |]. split; [done |]. split; [done |].
    by rewrite <-capReached_dynamicIn.
  - simpl. by rewrite view_ReportActivity.
  - destruct (runWatcher_moves _ _ _ Hw) as (wt & Hi & Hcases).
    destruct Hcases
      as [(_ & Hz & -> & -> & ->)
         | [(pc & Hpc & -> & -> & ->) | (-> & -> & ->)]].
    + by eapply Kept_return.
    + by apply Kept_pc.
    + by apply Kept_remove.
Qed.

(** *** What the constructor builds *)

Lemma goroutines_created nsName name ns bCfg dyn w :
  goroutines (createNewNamedBucketFromCfg nsName name ns bCfg dyn w).2
  = goroutines w ++ [watcherOf nsName name (length (heap w)) bCfg].
Proof. done. Qed.

Lemma namedBuckets_body nsName name ns bCfg w :
  (let '(_, nsp, w') :=
     createNewNamedBucketFromCfg nsName name ns bCfg false w in
   (nsp, w'))
  = (stored name (length (heap w)) ns,
     (createNewNamedBucketFromCfg nsName name ns bCfg false w).2).
Proof. done. Qed.

Lemma namedBuckets_configured nsName nsp0 w0 (mb : gmap string BucketConfig) :
  ns_buckets nsp0 = ∅ →
  let r :=
    map_fold (λ bucketName bucketCfg '(nsp, w),
                let '(_, nsp, w) :=
                  createNewNamedBucketFromCfg nsName bucketName nsp bucketCfg
                    false w in
                (nsp, w))
             (nsp0, w0) mb in
  ns_cfg r.1 = ns_cfg nsp0
  ∧ (∀ name b,
       ns_buckets r.1 !! name = Some b →
       ∃ c, mb !! name = Some c
            ∧ view r.2 !! b = Some (bucketOf nsName name c false)
            ∧ watcherOf nsName name b c ∈ goroutines r.2)
  ∧ (∀ name, is_Some (mb !! name) → is_Some (ns_buckets r.1 !! name))
  ∧ ∃ ext gext,
      view r.2 = view w0 ++ ext
      ∧ goroutines r.2 = goroutines w0 ++ gext
      ∧ ∀ wt, wt ∈ gext → wPc wt = AtStart.
Proof.
  intros Hempty r. subst r.
  apply (map_fold_weak_ind
           (λ (r : namespace * World) (m : gmap string BucketConfig),
              ns_cfg r.1 = ns_cfg nsp0
              ∧ (∀ name b,
                   ns_buckets r.1 !! name = Some b →
                   ∃ c, m !! name = Some c
                        ∧ view r.2 !! b = Some (bucketOf nsName name c false)
                        ∧ watcherOf nsName name b c ∈ goroutines r.2)
              ∧ (∀ name, is_Some (m !! name) → is_Some (ns_buckets r.1 !! name))
              ∧ ∃ ext gext,
                  view r.2 = view w0 ++ ext
                  ∧ goroutines r.2 = goroutines w0 ++ gext
                  ∧ ∀ wt, wt ∈ gext → wPc wt = AtStart)).
  - simpl. split; [done |]. split; [| split].
    + intros name b. by rewrite Hempty, lookup_empty.
    + intros name [c Hc]. by rewrite lookup_empty in Hc.
    + exists [], []. rewrite !app_nil_r. split; [done |]. split; [done |].
      intros wt Hin. by apply elem_of_nil in Hin.
  - intros name c m [nsp w1] Hfresh
      (Hcfg & Hin & Hall & ext & gext & Hext & Hgext & Hat).
    simpl in Hcfg, Hin, Hall, Hext, Hgext.
    cbv beta iota. rewrite namedBuckets_body.
    set (w2 := (createNewNamedBucketFromCfg nsName name nsp c false w1).2).
    assert (Hv : view w2 = view w1 ++ [bucketOf nsName name c false])
      by apply view_createNewNamedBucketFromCfg.
    assert (Hg : goroutines w2
                 = goroutines w1 ++ [watcherOf nsName name (length (heap w1)) c])
      by apply goroutines_created.
    change ((stored name (length (heap w1)) nsp, w2).1)
      with (stored name (length (heap w1)) nsp).
    change ((stored name (length (heap w1)) nsp, w2).2) with w2.
    change (ns_buckets (stored name (length (heap w1)) nsp))
      with (<[name := length (heap w1)]> (ns_buckets nsp)).
    split; [exact Hcfg |]. split; [| split].
    + intros name0 b Hb.
      apply lookup_insert_Some in Hb as [(<- & <-) | (Hne & Hb)].
      * exists c. rewrite lookup_insert_eq. split; [done |]. split.
        -- rewrite Hv, <-view_length. by apply list_lookup_middle.
        -- rewrite Hg. apply elem_of_app. right.
           by apply list_elem_of_singleton.
      * destruct (Hin _ _ Hb) as (c0 & Hc0 & Hvb & Hw).
        exists c0. rewrite lookup_insert_ne by done. split; [done |]. split.
        -- rewrite Hv, lookup_app_l; [done |]. by eapply lookup_lt_Some.
        -- rewrite Hg. apply elem_of_app. by left.
    + intros name0 Hsome. destruct (decide (name = name0)) as [<-|Hne].
      * rewrite lookup_insert_eq. eauto.
      * rewrite lookup_insert_ne by done.
        rewrite lookup_insert_ne in Hsome by done. by apply Hall.
    + exists (ext ++ [bucketOf nsName name c false]),
        (gext ++ [watcherOf nsName name (length (heap w1)) c]).
      rewrite Hv, Hg, Hext, Hgext, !(assoc_L (++)).
      split; [done |]. split; [done |].
      intros wt Hwt. apply elem_of_app in Hwt as [Hwt | Hwt]; [by apply Hat |].
      by apply list_elem_of_singleton in Hwt as ->.
Qed.

Lemma newNamespace_configured w nsName nsCfg :
  let r := newNamespace nsName nsCfg w in
  ns_cfg r.1 = nsCfg
  ∧ (∀ name b,
       ns_buckets r.1 !! name = Some b →
       ∃ c, Buckets nsCfg !! name = Some c
            ∧ view r.2 !! b = Some (bucketOf nsName name c false)
            ∧ watcherOf nsName name b c ∈ goroutines r.2)
  ∧ (∀ name,
       is_Some (Buckets nsCfg !! name) → is_Some (ns_buckets r.1 !! name))
  ∧ ∃ ext gext,
      view r.2 = view w ++ ext
      ∧ goroutines r.2 = goroutines w ++ gext
      ∧ ∀ wt, wt ∈ gext → wPc wt = AtStart.
Proof.
  unfold newNamespace.
  destruct (DefaultBucket nsCfg) as [dCfg|] eqn:Hd.
  - set (nsp0 := {| ns_cfg := nsCfg; ns_buckets := ∅;
                    ns_defaultBucket := Some (length (heap w)) |}).
    set (w0 := (NewBucket nsName DEFAULT_BUCKET_NAME dCfg false w).2).
    assert (Hview : view w0
                    = view w ++ [bucketOf nsName DEFAULT_BUCKET_NAME dCfg false]).
    { unfold view, w0. simpl. by rewrite fmap_app. }
    pose proof (namedBuckets_configured nsName nsp0 w0 (Buckets nsCfg) eq_refl)
      as Hb.
    cbv zeta in Hb. set (R := map_fold _ (nsp0, w0) (Buckets nsCfg)) in Hb.
    destruct Hb as (Hcfg & Hin & Hall & ext & gext & Hext & Hgext & Hat).
    assert (Hfinal :
      ns_cfg R.1 = nsCfg
      ∧ (∀ name b,
           ns_buckets R.1 !! name = Some b →
           ∃ c, Buckets nsCfg !! name = Some c
                ∧ view R.2 !! b = Some (bucketOf nsName name c false)
                ∧ watcherOf nsName name b c ∈ goroutines R.2)
      ∧ (∀ name,
           is_Some (Buckets nsCfg !! name) → is_Some (ns_buckets R.1 !! name))
      ∧ ∃ ext gext,
          view R.2 = view w ++ ext
          ∧ goroutines R.2 = goroutines w ++ gext
          ∧ ∀ wt, wt ∈ gext → wPc wt = AtStart).
    { split; [exact Hcfg |]. split; [exact Hin |]. split; [exact Hall |].
      exists ([bucketOf nsName DEFAULT_BUCKET_NAME dCfg false] ++ ext), gext.
      split; [by rewrite Hext, Hview, <-(assoc_L (++)) |].
      split; [exact Hgext | exact Hat]. }
    exact Hfinal.
  - set (nsp0 := {| ns_cfg := nsCfg; ns_buckets := ∅;
                    ns_defaultBucket := None |}).
    pose proof (namedBuckets_configured nsName nsp0 w (Buckets nsCfg) eq_refl)
      as Hb.
    cbv zeta in Hb. set (R := map_fold _ (nsp0, w) (Buckets nsCfg)) in Hb.
    exact Hb.
Qed.

Lemma NewBucketContainer_configured cfg :
  let r := NewBucketContainer cfg emptyWorld in
  asConfigured (Namespaces cfg) r.1 (view r.2) (goroutines r.2).
Proof.
  unfold NewBucketContainer.
  set (dw := match GlobalDefaultBucket cfg with
             | Some dCfg =>
                 let '(b, w) :=
                   NewBucket GLOBAL_NAMESPACE DEFAULT_BUCKET_NAME dCfg false
                     emptyWorld in
                 (Some b, w)
             | None => (None, emptyWorld)
             end).
  assert (Hgs0 : goroutines dw.2 = []).
  { unfold dw. by destruct (GlobalDefaultBucket cfg). }
  destruct dw as [d w0]. simpl in Hgs0.
  apply (map_fold_weak_ind
           (λ (r : BucketContainer * World) (m : gmap string NamespaceConfig),
              asConfigured m r.1 (view r.2) (goroutines r.2))).
  - simpl. rewrite Hgs0. split_and!.
    + intros n ns. simpl. by rewrite lookup_empty.
    + intros n ns name b. simpl. by rewrite lookup_empty.
    + intros n nsCfg name. by rewrite lookup_empty.
    + intros wt Hin. by apply elem_of_nil in Hin.
  - intros nsName nsCfg m [bc w] Hfresh (Hcfg & Hin & Hall & Hat).
    simpl in Hcfg, Hin, Hall, Hat.
    assert (Hns : bc_namespaces bc !! nsName = None).
    { destruct (bc_namespaces bc !! nsName) as [ns|] eqn:Hns; [| done].
      apply Hcfg in Hns. congruence. }
    destruct (newNamespace_configured w nsName nsCfg)
      as (Hcfg' & Hin' & Hall' & ext & gext & Hext & Hgext & Hat').
    destruct (newNamespace nsName nsCfg w) as [nsp w'] eqn:Hnew.
    simpl in Hcfg', Hin', Hall', Hext, Hgext. simpl.
    split_and!.
    + intros n ns. simpl. destruct (decide (nsName = n)) as [<-|Hne].
      * rewrite !lookup_insert_eq. intros [= <-]. by rewrite Hcfg'.
      * rewrite !lookup_insert_ne by done. apply Hcfg.
    + intros n ns name b. simpl. destruct (decide (nsName = n)) as [<-|Hne].
      * rewrite lookup_insert_eq. intros [= <-] Hb. rewrite Hcfg'.
        by apply Hin'.
      * rewrite lookup_insert_ne by done. intros Hn Hb.
        destruct (Hin _ _ _ _ Hn Hb) as (c & Hc & Hv & Hw).
        exists c. split; [done |]. split.
        -- rewrite Hext, lookup_app_l; [done |]. by eapply lookup_lt_Some.
        -- rewrite Hgext. apply elem_of_app. by left.
    + intros n nsCfg0 name. destruct (decide (nsName = n)) as [<-|Hne].
      * rewrite lookup_insert_eq. intros [= <-] Hsome.
        destruct (Hall' _ Hsome) as [b Hb]. exists b, nsp.
        split; [apply lookup_insert_eq | done].
      * rewrite lookup_insert_ne by done. intros Hn Hsome.
        destruct (Hall _ _ _ Hn Hsome) as (b & ns & Hns' & Hb).
        exists b, ns. split; [| done]. simpl. by rewrite lookup_insert_ne.
    + intros wt. rewrite Hgext, elem_of_app.
      intros [Hwt | Hwt]; [by apply Hat | by apply Hat'].
Qed.

Lemma start_configured cfg :
  asConfigured (Namespaces cfg) (container (start cfg))
    (view (world (start cfg))) (goroutines (world (start cfg))).
Proof.
  pose proof (NewBucketContainer_configured cfg) as H.
  unfold start. by destruct (NewBucketContainer cfg emptyWorld) as [bc w].
Qed.

Lemma start_kept cfg : kept (start cfg).
Proof.
  destruct (start_configured cfg) as (Hcfg & Hin & Hall & Hat).
  split.
  - intros n ns name b o Hn Hb Ho.
    destruct (Hin _ _ _ _ Hn Hb) as (c & Hc & Hv & _).
    assert (o = bucketOf n name c false) as -> by congruence.
    exact Hc.
  - intros n ns Hn Hpos. rewrite dynamicIn_static; [lia |].
    intros name b Hb. destruct (Hin _ _ _ _ Hn Hb) as (c & _ & Hv & _).
    unfold isDyn. by rewrite Hv.
  - intros n name b o (ns & Hn & Hb) Ho _.
    destruct (Hin _ _ _ _ Hn Hb) as (c & _ & _ & Hw).
    apply list_elem_of_lookup_1 in Hw as (i & Hi).
    exists i, (watcherOf n name b c). by split.
  - intros i wt Hi Hpc. apply list_elem_of_lookup_2 in Hi.
    apply Hat in Hi. congruence.
Qed.

Lemma reachable_kept cfg s : reachable cfg s → kept s.
Proof.
  intros Hreach. pose proof Hreach as Hrun. revert s Hrun Hreach.
  apply (rtc_ind_r (λ s, reachable cfg s → kept s) (start cfg)).
  - intros _. apply start_kept.
  - intros s1 s2 Hrun Hstep IH _.
    eapply step_kept; [done | by eapply reachable_invariant | by apply IH].
Qed.

Lemma reachable_cfg cfg s nsName ns :
  reachable cfg s →
  bc_namespaces (container s) !! nsName = Some ns →
  Namespaces cfg !! nsName = Some (ns_cfg ns).
Proof.
  intros Hreach Hns.
  destruct (reachable_built _ _ Hreach) as (_ & _ & Hm & _).
  by rewrite <-Hm, Hns.
Qed.

(** X14: the constructor stores a bucket under a name of a namespace
    exactly when the configuration names it there; each such bucket is
    built with dynamic=false from the configuration of its name and has
    a watcher with the idle period of that configuration; every watcher
    is at its start; and the container has the configured namespaces,
    each with its configuration. *)
Theorem NewBucketContainer_buckets cfg nsName name :
  (Exists (container (start cfg)) nsName name = true
   ↔ ∃ nsCfg, Namespaces cfg !! nsName = Some nsCfg
              ∧ is_Some (Buckets nsCfg !! name))
  ∧ (∀ b, lookupBucket (container (start cfg)) nsName name = Some b →
       ∃ nsCfg c i,
         Namespaces cfg !! nsName = Some nsCfg
         ∧ Buckets nsCfg !! name = Some c
         ∧ view (world (start cfg)) !! b = Some (bucketOf nsName name c false)
         ∧ goroutines (world (start cfg)) !! i
           = Some (watcherOf nsName name b c))
  ∧ (∀ i wt, goroutines (world (start cfg)) !! i = Some wt → wPc wt = AtStart)
  ∧ ns_cfg <$> bc_namespaces (container (start cfg)) !! nsName
    = Namespaces cfg !! nsName.
Proof.
  destruct (start_configured cfg) as (Hcfg & Hin & Hall & Hat).
  destruct (start_built cfg) as (_ & _ & Hm & _).
  split_and!.
  - rewrite Exists_lookupBucket, bool_decide_eq_true. unfold lookupBucket.
    split.
    + intros [b Hb].
      destruct (bc_namespaces (container (start cfg)) !! nsName)
        as [ns|] eqn:Hns; [| done].
      simpl in Hb. destruct (Hin _ _ _ _ Hns Hb) as (c & Hc & _).
      exists (ns_cfg ns). split; [by apply Hcfg | eauto].
    + intros (nsCfg & Hn & Hsome).
      destruct (Hall _ _ _ Hn Hsome) as (b & ns & Hns & Hb).
      exists b. by rewrite Hns.
  - intros b Hb. unfold lookupBucket in Hb.
    destruct (bc_namespaces (container (start cfg)) !! nsName)
      as [ns|] eqn:Hns; [| done].
    simpl in Hb. destruct (Hin _ _ _ _ Hns Hb) as (c & Hc & Hv & Hw).
    apply list_elem_of_lookup_1 in Hw as (i & Hi).
    exists (ns_cfg ns), c, i. split; [by apply Hcfg | done].
  - intros i wt Hi. apply Hat. by eapply list_elem_of_lookup_2.
  - apply Hm.
Qed.

(** X15: in every reachable state the count of countDynamicBuckets for
    a namespace of the container lies between 0 and the number of
    buckets of the namespace, and it is no more than MaxDynamicBuckets
    when that is positive. *)
Theorem dynamic_count_bounded cfg s nsName ns :
  reachable cfg s →
  bc_namespaces (container s) !! nsName = Some ns →
  ∃ k,
    countDynamicBuckets (container s) nsName (world s) = Some k
    ∧ 0 ≤ k ≤ Z.of_nat (size (ns_buckets ns))
    ∧ (0 < MaxDynamicBuckets (ns_cfg ns) → k ≤ MaxDynamicBuckets (ns_cfg ns)).
Proof.
  intros Hreach Hns.
  pose proof (reachable_kept _ _ Hreach) as [Hor Hcap Hwd Hlv].
  exists (dynamicIn (view (world s)) (ns_buckets ns)).
  split; [| split].
  - unfold countDynamicBuckets. rewrite Hns. simpl. f_equal.
    exact (dynamicCount_dynamicIn (world s) (ns_buckets ns)).
  - apply dynamicIn_bounds.
  - by eapply Hcap.
Qed.

Lemma dynamic_count_bounded_witness :
  ∃ k,
    countDynamicBuckets (container evicted) "ns_d" (world evicted) = Some k
    ∧ 0 ≤ k ≤ Z.of_nat (size (ns_buckets evictedNs))
    ∧ (0 < MaxDynamicBuckets (ns_cfg evictedNs)
       → k ≤ MaxDynamicBuckets (ns_cfg evictedNs)).
Proof.
  apply (dynamic_count_bounded sampleCfg evicted "ns_d" evictedNs
           evicted_reachable).
  reflexivity.
Defined.

(** X16: in every reachable state a stored bucket has the configuration
    that the service configuration gives for its name: a bucket built
    as dynamic has the template of its namespace and a name without a
    configuration of its own, any other has the configuration of its
    name. *)
Theorem bucket_origin cfg s nsName name b :
  reachable cfg s →
  storedAt (container s) nsName name b →
  ∃ nsCfg o,
    Namespaces cfg !! nsName = Some nsCfg
    ∧ heap (world s) !! b = Some o
    ∧ origin nsCfg name o.
Proof.
  intros Hreach (ns & Hns & Hb).
  pose proof (reachable_kept _ _ Hreach) as [Hor Hcap Hwd Hlv].
  pose proof (reachable_invariant _ _ Hreach) as [Hst Hdef Hwt Hkeys Hdes].
  destruct (Hst nsName name b) as (_ & o & Ho & _); [by exists ns |].
  pose proof (Hor _ _ _ _ _ Hns Hb Ho) as Horigin.
  apply view_lookup_inv in Ho as (o' & Ho' & ->).
  exists (ns_cfg ns), o'. split; [by eapply reachable_cfg |].
  split; [done |]. exact Horigin.
Qed.

Lemma bucket_origin_witness :
  ∃ nsCfg o,
    Namespaces sampleCfg !! "ns_d" = Some nsCfg
    ∧ heap (world idle) !! 1%nat = Some o
    ∧ origin nsCfg "b1" o.
Proof.
  apply (bucket_origin sampleCfg idle "ns_d" "b1" 1 idle_reachable).
  exists idleNs. split; vm_compute; reflexivity.
Defined.

(** X17: in every reachable state a stored bucket whose idle period is
    not zero has a goroutine watching it, with that period. *)
Theorem stored_bucket_watched cfg s nsName name b o :
  reachable cfg s →
  storedAt (container s) nsName name b →
  heap (world s) !! b = Some o →
  idleDuration (bConfig o) ≠ 0 →
  ∃ i wt,
    goroutines (world s) !! i = Some wt
    ∧ wBucket wt = b
    ∧ wNamespace wt = nsName ∧ wBucketName wt = name
    ∧ wFreq wt = idleDuration (bConfig o).
Proof.
  intros Hreach Hs Ho Hidle.
  pose proof (reachable_kept _ _ Hreach) as [Hor Hcap Hwd Hlv].
  pose proof (reachable_invariant _ _ Hreach) as [Hst Hdef Hwt Hkeys Hdes].
  apply view_lookup in Ho.
  destruct (Hwd _ _ _ _ Hs Ho Hidle) as (i & wt & Hi & Hb).
  exists i, wt. split; [done |]. split; [done |].
  destruct (Hwt _ _ Hi) as (Hs' & (o' & Ho' & Hf) & _).
  rewrite Hb in Hs', Ho'.
  destruct (Hst _ _ _ Hs) as (_ & o1 & Ho1 & Hn1 & Hm1 & _).
  destruct (Hst _ _ _ Hs') as (_ & o2 & Ho2 & Hn2 & Hm2 & _).
  assert (o2 = o1) by congruence. assert (o' = settled o) by congruence.
  subst. split; [congruence |]. split; [congruence | done].
Qed.

Lemma stored_bucket_watched_witness :
  ∃ i wt,
    goroutines (world idle) !! i = Some wt
    ∧ wBucket wt = 1%nat
    ∧ wNamespace wt = "ns_d" ∧ wBucketName wt = "b1"
    ∧ wFreq wt = idleDuration (bConfig (bucketOf "ns_d" "b1" staticCfg false)).
Proof.
  apply (stored_bucket_watched sampleCfg idle "ns_d" "b1" 1
           (bucketOf "ns_d" "b1" staticCfg false) idle_reachable).
  - exists idleNs. split; vm_compute; reflexivity.
  - reflexivity.
  - vm_compute. discriminate.
Defined.

End origins.

(** ** Idle periods that never run out *)
Section idle_periods.

Implicit Types (bc : BucketContainer) (ns : namespace) (w : World).
Implicit Types (nsName name : string) (b : nat) (s : System).

Lemma wrap64_zero z : wrap64 z = 0 ↔ (2 ^ 64 | z).
Proof.
  unfold wrap64. split.
  - intros Hz. exists ((z + 2 ^ 63) / 2 ^ 64).
    pose proof (Z.div_mod (z + 2 ^ 63) (2 ^ 64)). lia.
  - intros [q ->].
    replace (q * 2 ^ 64 + 2 ^ 63) with (2 ^ 63 + q * 2 ^ 64) by lia.
    rewrite Z.mod_add by lia. rewrite Z.mod_small by lia. lia.
Qed.

Lemma wrap64_small z : - 2 ^ 63 ≤ z < 2 ^ 63 → wrap64 z = z.
Proof. intros Hz. unfold wrap64. rewrite Z.mod_small by lia. lia. Qed.

Lemma wrap64_range z : - 2 ^ 63 ≤ wrap64 z < 2 ^ 63.
Proof.
  unfold wrap64. pose proof (Z.mod_pos_bound (z + 2 ^ 63) (2 ^ 64)). lia.
Qed.

(** X18: the idle period handed to watch is zero, so that the watcher
    returns at once, exactly when MaxIdleMillis is a multiple of 2^58;
    it is MaxIdleMillis milliseconds in nanoseconds whenever that fits
    in 64 bits, which it does between -9223372036854 and 9223372036854;
    and it is always a 64-bit number. *)
Theorem idleDuration_exact bCfg :
  (idleDuration bCfg = 0 ↔ (2 ^ 58 | MaxIdleMillis bCfg))
  ∧ (- 9223372036854 ≤ MaxIdleMillis bCfg ≤ 9223372036854 →
     idleDuration bCfg = MaxIdleMillis bCfg * 1000000)
  ∧ - 2 ^ 63 ≤ idleDuration bCfg < 2 ^ 63.
Proof.
  unfold idleDuration, Millisecond. split; [| split].
  - rewrite wrap64_zero. split.
    + intros [q Hq]. apply (Z.gauss _ 15625).
      * exists q. lia.
      * reflexivity.
    + intros [q ->]. exists (q * 15625). lia.
  - intros Hm. apply wrap64_small. lia.
  - apply wrap64_range.
Qed.

Lemma idleDuration_exact_witness :
  idleDuration staticCfg = MaxIdleMillis staticCfg * 1000000.
Proof.
  apply (proj1 (proj2 (idleDuration_exact staticCfg))). simpl. lia.
Defined.

(** No step removes or destroys a bucket whose idle period is not
    positive. *)
Lemma step_keeps_untimed s s' nsName name b o :
  step s s' → invariant s → kept s →
  storedAt (container s) nsName name b →
  view (world s) !! b = Some o →
  idleDuration (bConfig o) ≤ 0 →
  storedAt (container s') nsName name b ∧ view (world s') !! b = Some o.
Proof.
  intros Hstep [Hst Hdef Hwt Hkeys Hdes] [Hor Hcap Hwd Hlv] Hs Hb Hidle.
  destruct Hstep as [s0 n m r bc w Hf | s0 b' | s0 i s1 Hw]; simpl in *.
  - destruct (FindBucket_effect _ _ _ _ _ _ _ Hf)
      as [(-> & -> & _)
         | (ns & c & dyn & Hns & Hfree & _ & _ & _ & -> & -> & _)];
      [done |].
    split.
    + rewrite storedAt_stored by done. right. split; [| done].
      intros [= -> ->]. destruct Hs as (ns' & Hns' & Hb'). congruence.
    + rewrite lookup_app_l; [done |]. by eapply lookup_lt_Some.
  - by rewrite view_ReportActivity.
  - destruct (runWatcher_effect _ _ _ Hw) as (wt & Hi & Hcases).
    destruct Hcases
      as [(_ & _ & -> & -> & _) | [(_ & _ & -> & -> & _) | (Hpc & -> & -> & _)]];
      [done | done |].
    destruct (Hwt _ _ Hi) as (Hs' & (o' & Ho' & Hfreq) & Hne).
    pose proof (Hlv _ _ Hi Hpc) as Hpos.
    assert (Hkey : (nsName, name) ≠ (wNamespace wt, wBucketName wt)).
    { intros [= -> ->].
      assert (b = wBucket wt) as -> by by eapply storedAt_fun.
      assert (o' = o) as -> by congruence. lia. }
    split.
    + by rewrite storedAt_deleteBucket.
    + rewrite list_lookup_alter_ne; [done |]. intros <-.
      destruct (Hst _ _ _ Hs) as (_ & o1 & Ho1 & Hn1 & Hm1 & _).
      destruct (Hst _ _ _ Hs') as (_ & o2 & Ho2 & Hn2 & Hm2 & _).
      apply Hkey. congruence.
Qed.

Lemma untimed_never_evicted s s' nsName name b o :
  rtc step s s' → invariant s → kept s →
  storedAt (container s) nsName name b →
  view (world s) !! b = Some o →
  idleDuration (bConfig o) ≤ 0 →
  (invariant s' ∧ kept s')
  ∧ storedAt (container s') nsName name b ∧ view (world s') !! b = Some o.
Proof.
  intros Hrun Hinv Hk Hs Hb Hidle. revert s' Hrun.
  apply (rtc_ind_r
           (λ s', (invariant s' ∧ kept s')
                  ∧ storedAt (container s') nsName name b
                  ∧ view (world s') !! b = Some o) s); [done |].
  intros s1 s2 Hrun Hstep [[Hinv1 Hk1] [Hs1 Hb1]].
  split.
  - split; [by eapply step_invariant | by eapply step_kept].
  - by eapply step_keeps_untimed.
Qed.

(** X19: a bucket whose idle period is negative is never removed from
    its map and never destroyed; its watcher passes the test of
    freq == 0, never leaves its loop, and cannot move once it waits for
    a tick. *)
Theorem negative_idle_never_evicted cfg s nsName name b o :
  reachable cfg s →
  storedAt (container s) nsName name b →
  heap (world s) !! b = Some o →
  idleDuration (bConfig o) < 0 →
  (∀ i wt,
     goroutines (world s) !! i = Some wt → wBucket wt = b →
     wPc wt ≠ Removing
     ∧ (wPc wt = AtStart →
        ∃ s1, runWatcher i s = Some s1
              ∧ goroutines (world s1) !! i = Some (atPc InLoop wt))
     ∧ (wPc wt = InLoop → runWatcher i s = None))
  ∧ ∀ s',
      rtc step s s' →
      storedAt (container s') nsName name b
      ∧ ∃ o', heap (world s') !! b = Some o' ∧ bDestroyed o' = 0%nat.
Proof.
  intros Hreach Hs Hb Hneg.
  pose proof (reachable_invariant _ _ Hreach) as Hinv.
  pose proof (reachable_kept _ _ Hreach) as Hk.
  split.
  - intros i wt Hi Hwb.
    destruct Hinv as [Hst Hdef Hwt Hkeys Hdes].
    destruct Hk as [Hor Hcap Hwd Hlv].
    destruct (Hwt _ _ Hi) as (_ & (o' & Ho' & Hf) & _).
    rewrite Hwb in Ho'. apply view_lookup in Hb.
    assert (o' = settled o) as -> by congruence. simpl in Hf.
    split; [| split].
    + intros Hpc. specialize (Hlv _ _ Hi Hpc). lia.
    + intros Hpc. unfold runWatcher. rewrite Hi. simpl.
      unfold watchStep. rewrite Hpc.
      rewrite (proj2 (Z.eqb_neq _ _)) by lia. simpl.
      eexists. split; [done |]. simpl.
      apply list_lookup_insert_eq. by eapply lookup_lt_Some.
    + intros Hpc. unfold runWatcher. rewrite Hi. simpl.
      unfold watchStep. rewrite Hpc.
      by rewrite (proj2 (Z.leb_le _ _)) by lia.
  - intros s' Hrun.
    destruct (untimed_never_evicted s s' nsName name b (settled o))
      as ([Hinv' Hk'] & Hs' & Hb');
      [done | done | done | done | by apply view_lookup | simpl; lia |].
    split; [done |].
    apply view_lookup_inv in Hb' as (o' & Ho' & Heq).
    exists o'. split; [done |].
    destruct (destroyed_once s' b o' Hinv' Ho') as [Hheld _].
    apply Hheld. right. eauto.
Qed.

Lemma negative_idle_never_evicted_witness :
  storedAt (container (start negativeCfg)) "ns_n" "b" 0
  ∧ ∃ o', heap (world (start negativeCfg)) !! 0%nat = Some o'
          ∧ bDestroyed o' = 0%nat.
Proof.
  apply (negative_idle_never_evicted negativeCfg (start negativeCfg)
           "ns_n" "b" 0
           (freshBucket "ns_n" "b"
              {| MaxIdleMillis := -1; Rate := 1; Capacity := 1 |} false)).
  - apply rtc_refl.
  - exists negativeNs. split; vm_compute; reflexivity.
  - vm_compute. reflexivity.
  - vm_compute. reflexivity.
  - apply rtc_refl.
Defined.

End idle_periods.

(** ** The dump of the container *)
Section dumps.

Implicit Types (bc : BucketContainer) (ns : namespace).
Implicit Types (nsName name : string).

Lemma sortStrings_Permutation l1 l2 :
  l1 ≡ₚ l2 → sortStrings l1 = sortStrings l2.
Proof.
  intros Hp. unfold sortStrings. apply (Sorted_unique String.le).
  - apply (Sorted_merge_sort String.le).
  - apply (Sorted_merge_sort String.le).
  - by rewrite !(merge_sort_Permutation String.le).
Qed.

Lemma foldl_ext_all {A B} (f g : A → B → A) a l :
  (∀ a x, f a x = g a x) → foldl f a l = foldl g a l.
Proof.
  intros Hfg. revert a. induction l as [|x l IH]; intros a; simpl; [done |].
  by rewrite Hfg, IH.
Qed.

Lemma foldl_Some {A B} (f : option A → B → option A) a l :
  (∀ a x, x ∈ l → is_Some (f (Some a) x)) → is_Some (foldl f (Some a) l).
Proof.
  revert a. induction l as [|x l IH]; intros a Hf; simpl; [by eexists |].
  destruct (Hf a x) as [a' Ha']; [apply elem_of_cons; by left |].
  rewrite Ha'. apply IH. intros a0 y Hy. apply Hf. apply elem_of_cons.
  by right.
Qed.

Lemma elem_of_keys {A} (m : gmap string A) k : k ∈ keys m ↔ is_Some (m !! k).
Proof.
  unfold keys. rewrite list_elem_of_fmap. split.
  - intros ([k' x] & -> & Hin). apply elem_of_map_to_list in Hin. by exists x.
  - intros [x Hx]. exists (k, x). split; [done |].
    by apply elem_of_map_to_list.
Qed.

(** X20: the dump does not depend on the order in which the two range
    loops hand out the keys of the maps: for every order of the
    namespaces and of the buckets of each namespace it is the same
    string, and the lookup of a namespace in the second loop never
    fails. *)
Theorem String_order_independent bc nsOrder bOrder :
  nsOrder ≡ₚ keys (bc_namespaces bc) →
  (∀ nsName ns,
     bc_namespaces bc !! nsName = Some ns →
     bOrder nsName ≡ₚ keys (ns_buckets ns)) →
  dump nsOrder bOrder bc = BucketContainer_String bc
  ∧ is_Some (BucketContainer_String bc).
Proof.
  intros Hns Hb. split.
  - unfold BucketContainer_String, dump. cbv zeta.
    rewrite (sortStrings_Permutation _ _ Hns).
    apply foldl_ext_all. intros [buffer|] nsName; simpl; [| done].
    destruct (bc_namespaces bc !! nsName) as [ns|] eqn:Hn; simpl; [| done].
    by rewrite (sortStrings_Permutation _ _ (Hb _ _ Hn)).
  - unfold BucketContainer_String, dump. cbv zeta.
    apply foldl_Some. intros buffer nsName Hin. simpl.
    unfold sortStrings in Hin.
    rewrite (merge_sort_Permutation String.le) in Hin.
    apply elem_of_keys in Hin as [ns Hn]. rewrite Hn. simpl. by eexists.
Qed.

Lemma String_order_independent_witness :
  dump ["ns_d"] (λ _, ["b1"]) (container idle)
  = BucketContainer_String (container idle)
  ∧ is_Some (BucketContainer_String (container idle)).
Proof.
  apply (String_order_independent (container idle) ["ns_d"] (λ _, ["b1"])).
  - vm_compute. reflexivity.
  - intros nsName ns Hn. simpl in Hn.
    apply lookup_singleton_Some in Hn as [_ <-]. vm_compute. reflexivity.
Defined.

End dumps.

(** ** The channels of the running system *)
Section buffers.

Implicit Types (bc : BucketContainer) (ns : namespace) (w : World).
Implicit Types (nsName name : string) (b : nat) (s : System).

Lemma buffered_onBucket f b w :
  (∀ o, (length (bActivity o) ≤ capacity)%nat →
        (length (bActivity (f o)) ≤ capacity)%nat) →
  buffered w → buffered (onBucket f b w).
Proof.
  intros Hf Hw l o. unfold onBucket. simpl.
  destruct (decide (b = l)) as [->|Hne].
  - rewrite list_lookup_alter_eq.
    destruct (heap w !! l) as [o'|] eqn:Ho'; [| done].
    intros [= <-]. apply Hf. by eapply Hw.
  - rewrite list_lookup_alter_ne by done. apply Hw.
Qed.

Lemma buffered_ReportActivity b w : buffered w → buffered (ReportActivity b w).
Proof.
  intros Hw.
  apply (buffered_onBucket
           (λ o, withActivity (chanReportActivity (bActivity o)) o) b w);
    [| done].
  intros o Ho. simpl. by apply chanReportActivity_capacity.
Qed.

Lemma buffered_ActivityDetected b w :
  buffered w → buffered (ActivityDetected b w).2.
Proof.
  intros Hw.
  apply (buffered_onBucket
           (λ o, withActivity (chanActivityDetected (bActivity o)).2 o) b w);
    [| done].
  intros o Ho. simpl. by apply chanActivityDetected_capacity.
Qed.

Lemma buffered_Destroy b w : buffered w → buffered (Destroy b w).
Proof. intros Hw. by apply (buffered_onBucket destroyed b w). Qed.

Lemma buffered_touched r w : buffered w → buffered (touched r w).
Proof. destruct r; [apply buffered_ReportActivity | done]. Qed.

Lemma buffered_NewBucket nsName name bCfg dyn w :
  buffered w → buffered (NewBucket nsName name bCfg dyn w).2.
Proof.
  intros Hw l o. simpl. rewrite lookup_snoc_Some.
  intros [(_ & Ho) | (_ & <-)]; [by eapply Hw |]. simpl. unfold capacity. lia.
Qed.

Lemma buffered_created nsName name ns bCfg dyn w :
  buffered w →
  buffered (createNewNamedBucketFromCfg nsName name ns bCfg dyn w).2.
Proof.
  intros Hw l o. rewrite createNewNamedBucketFromCfg_heap, lookup_snoc_Some.
  intros [(_ & Ho) | (_ & <-)]; [by eapply Hw | done].
Qed.

Lemma buffered_createNewNamedBucket bc nsName name ns w r ns' w' :
  createNewNamedBucket bc nsName name ns w = Some (r, ns', w') →
  buffered w → buffered w'.
Proof.
  intros Hc Hw. unfold createNewNamedBucket in Hc.
  destruct (Buckets (ns_cfg ns) !! name) as [c|].
  - pose proof (buffered_created nsName name ns c false w Hw) as Hw'.
    destruct (createNewNamedBucketFromCfg nsName name ns c false w)
      as [[b1 ns1] w1]. by injection Hc as <- <- <-.
  - destruct (countDynamicBuckets bc nsName w) as [k|]; simpl in Hc; [| done].
    destruct ((MaxDynamicBuckets (ns_cfg ns) <=? k)
              && (0 <? MaxDynamicBuckets (ns_cfg ns))).
    + by injection Hc as <- <- <-.
    + destruct (DynamicBucketTemplate (ns_cfg ns)) as [c|]; simpl in Hc;
        [| done].
      injection Hc as <- <- <-.
      exact (buffered_created nsName name ns c true w Hw).
Qed.

Lemma buffered_FindBucket bc nsName name w r bc' w' :
  FindBucket bc nsName name w = Some (r, bc', w') →
  buffered w → buffered w'.
Proof.
  intros Hf Hw.
  destruct (bc_namespaces bc !! nsName) as [ns|] eqn:Hns.
  2: { rewrite (FindBucket_unconfigured _ _ _ _ Hns) in Hf.
       injection Hf as <- <- <-. by apply buffered_touched. }
  destruct (ns_buckets ns !! name) as [b0|] eqn:Hb.
  { rewrite (FindBucket_present _ _ _ _ _ _ Hns Hb) in Hf.
    injection Hf as <- <- <-. by apply buffered_ReportActivity. }
  destruct (DynamicBucketTemplate (ns_cfg ns)) as [c|] eqn:Ht.
  2: { rewrite (FindBucket_default _ _ _ _ _ Hns Hb Ht) in Hf.
       injection Hf as <- <- <-. by apply buffered_touched. }
  destruct (createNewNamedBucket bc nsName name ns (writeLocked nsName w))
    as [[[r1 ns1] w1]|] eqn:Hc.
  - rewrite (FindBucket_create _ _ _ _ _ _ _ _ _ Hns Hb Ht Hc) in Hf.
    injection Hf as <- <- <-.
    apply (buffered_touched r1 w1).
    by eapply buffered_createNewNamedBucket.
  - unfold FindBucket in Hf. rewrite Hns, Hb, Ht in Hf.
    unfold writeLocked, readLocked in Hc. by rewrite Hc in Hf.
Qed.

Lemma buffered_runWatcher i s s' :
  runWatcher i s = Some s' → buffered (world s) → buffered (world s').
Proof.
  unfold runWatcher.
  destruct (goroutines (world s) !! i) as [wt|] eqn:Hi; simpl; [| done].
  intros Hs Hw. unfold watchStep in Hs. destruct (wPc wt).
  - destruct (wFreq wt =? 0); simpl in Hs; by injection Hs as <-.
  - destruct (wFreq wt <=? 0); simpl in Hs; [done |].
    injection Hs as <-.
    exact (buffered_ActivityDetected (wBucket wt) (world s) Hw).
  - simpl in Hs. injection Hs as <-.
    exact (buffered_Destroy (wBucket wt) (world s) Hw).
Qed.

Lemma step_buffered s s' :
  step s s' → buffered (world s) → buffered (world s').
Proof.
  intros [s0 n m r bc w Hf | s0 b | s0 i s1 Hw] Hb; simpl.
  - by eapply buffered_FindBucket.
  - by apply buffered_ReportActivity.
  - by eapply buffered_runWatcher.
Qed.

Lemma buffered_newNamespace nsName nsCfg w :
  buffered w → buffered (newNamespace nsName nsCfg w).2.
Proof.
  intros Hw. unfold newNamespace.
  set (st := match DefaultBucket nsCfg with
             | Some dCfg =>
                 let '(b, w0) :=
                   NewBucket nsName DEFAULT_BUCKET_NAME dCfg false w in
                 ({| ns_cfg := nsCfg; ns_buckets := ∅;
                     ns_defaultBucket := Some b |}, w0)
             | None =>
                 ({| ns_cfg := nsCfg; ns_buckets := ∅;
                     ns_defaultBucket := None |}, w)
             end).
  assert (Hst : buffered st.2).
  { unfold st. destruct (DefaultBucket nsCfg) as [dCfg|]; [| done].
    exact (buffered_NewBucket nsName DEFAULT_BUCKET_NAME dCfg false w Hw). }
  destruct st as [nsp0 w0]. simpl in Hst.
  apply (map_fold_weak_ind
           (λ (r : namespace * World) (m : gmap string BucketConfig),
              buffered r.2)); [done |].
  intros name c m [nsp w1] _ Hw1. simpl in Hw1.
  cbv beta iota. rewrite namedBuckets_body.
  exact (buffered_created nsName name nsp c false w1 Hw1).
Qed.

Lemma start_buffered cfg : buffered (world (start cfg)).
Proof.
  assert (Hb : buffered (NewBucketContainer cfg emptyWorld).2).
  { unfold NewBucketContainer.
    set (dw := match GlobalDefaultBucket cfg with
               | Some dCfg =>
                   let '(b, w) :=
                     NewBucket GLOBAL_NAMESPACE DEFAULT_BUCKET_NAME dCfg false
                       emptyWorld in
                   (Some b, w)
               | None => (None, emptyWorld)
               end).
    assert (Hdw : buffered dw.2).
    { unfold dw. destruct (GlobalDefaultBucket cfg) as [dCfg|].
      - apply (buffered_NewBucket GLOBAL_NAMESPACE DEFAULT_BUCKET_NAME dCfg
                 false emptyWorld).
        intros b o. simpl. by rewrite lookup_nil.
      - intros b o. simpl. by rewrite lookup_nil. }
    destruct dw as [d w0]. simpl in Hdw.
    apply (map_fold_weak_ind
             (λ (r : BucketContainer * World) (m : gmap string NamespaceConfig),
                buffered r.2)); [done |].
    intros nsName nsCfg m [bc w] _ Hw. simpl in Hw.
    pose proof (buffered_newNamespace nsName nsCfg w Hw) as Hw'.
    cbv beta iota.
    by destruct (newNamespace nsName nsCfg w) as [nsp w']. }
  unfold start. by destruct (NewBucketContainer cfg emptyWorld) as [bc w].
Qed.

Lemma reachable_buffered cfg s : reachable cfg s → buffered (world s).
Proof.
  unfold reachable. revert s.
  apply (rtc_ind_r (λ s, buffered (world s)) (start cfg)).
  - apply start_buffered.
  - intros s1 s2 _ Hstep IH. by eapply step_buffered.
Qed.

(** X21: in every reachable state every activity channel holds at most
    one report, so that one call of ActivityDetected empties it. *)
Theorem channels_within_capacity cfg s b o :
  reachable cfg s →
  heap (world s) !! b = Some o →
  (length (bActivity o) ≤ 1)%nat
  ∧ ¬ pending (ActivityDetected b (world s)).2 b.
Proof.
  intros Hreach Ho. pose proof (reachable_buffered _ _ Hreach _ _ Ho) as Hlen.
  split; [exact Hlen |].
  intros (o' & Ho' & Hne). unfold ActivityDetected in Ho'. simpl in Ho'.
  rewrite list_lookup_alter_eq, Ho in Ho'. injection Ho' as <-.
  simpl in Hne. by rewrite chanActivityDetected_length in Hne.
Qed.

Lemma channels_within_capacity_witness :
  (length (bActivity (freshBucket "ns_d" "b1" staticCfg false)) ≤ 1)%nat
  ∧ ¬ pending (ActivityDetected 1 (world (start sampleCfg))).2 1.
Proof.
  apply (channels_within_capacity sampleCfg (start sampleCfg) 1
           (freshBucket "ns_d" "b1" staticCfg false)).
  - apply rtc_refl.
  - vm_compute. reflexivity.
Defined.

(** X22: while a watcher waits for a tick, a lookup of its bucket buys
    the bucket one tick: the lookup returns the bucket, the next tick of
    the watcher finds the activity and keeps the watcher in its loop and
    the bucket in its map, and no report is left for the tick after. *)
Theorem lookup_buys_one_tick cfg s i wt :
  reachable cfg s →
  goroutines (world s) !! i = Some wt →
  wPc wt = InLoop →
  0 < wFreq wt →
  ∃ w' s2,
    FindBucket (container s) (wNamespace wt) (wBucketName wt) (world s)
      = Some (Some (wBucket wt), container s, w')
    ∧ runWatcher i {| container := container s; world := w' |} = Some s2
    ∧ container s2 = container s
    ∧ goroutines (world s2) = goroutines (world s)
    ∧ Exists (container s2) (wNamespace wt) (wBucketName wt) = true
    ∧ ¬ pending (world s2) (wBucket wt).
Proof.
  intros Hreach Hi Hpc Hfreq.
  pose proof (reachable_invariant _ _ Hreach) as [Hst Hdef Hwt Hkeys Hdes].
  pose proof (reachable_buffered _ _ Hreach) as Hbuf.
  destruct (Hwt _ _ Hi) as (Hs & _).
  destruct (Hst _ _ _ Hs) as (_ & o & Ho & _).
  apply view_lookup_inv in Ho as (o0 & Ho0 & _).
  pose proof (Hbuf _ _ Ho0) as Hlen.
  destruct Hs as (ns & Hns & Hb).
  set (w' := ReportActivity (wBucket wt)
               (readLocked (wNamespace wt) (world s))).
  set (o1 := withActivity (chanReportActivity (bActivity o0)) o0).
  assert (Ho1 : heap w' !! wBucket wt = Some o1).
  { unfold w'. rewrite heap_ReportActivity, decide_True by done.
    change (heap (readLocked ?n ?w0)) with (heap w0). by rewrite Ho0. }
  assert (Hfull : ∃ x, bActivity o1 = [x]).
  { simpl. unfold chanReportActivity, capacity in *.
    destruct (bActivity o0) as [|x [|y rest]]; simpl in *; eauto. lia. }
  destruct Hfull as [x Hx].
  assert (Hkeep : (ActivityDetected (wBucket wt) w').1 = true).
  { unfold ActivityDetected. cbv zeta. cbn [fst]. by rewrite Ho1, Hx. }
  set (w2 := (ActivityDetected (wBucket wt) w').2).
  exists w', {| container := container s;
               world := withGoroutines
                          (<[i := atPc InLoop wt]> (goroutines w2)) w2 |}.
  split; [by apply (FindBucket_present _ _ _ ns) |].
  split.
  { unfold runWatcher.
    change (goroutines (world {| container := container s; world := w' |}))
      with (goroutines (world s)).
    rewrite Hi. simpl. unfold watchStep. rewrite Hpc.
    rewrite (proj2 (Z.leb_gt _ _) Hfreq).
    change (world {| container := container s; world := w' |}) with w'.
    assert (Had : ActivityDetected (wBucket wt) w'
                  = ((ActivityDetected (wBucket wt) w').1, w2))
      by apply surjective_pairing.
    rewrite Hkeep in Had. rewrite Had. reflexivity. }
  split; [done |]. split.
  { simpl. rewrite <-Hpc, atPc_same. by apply list_insert_id. }
  split.
  { unfold Exists. simpl. rewrite Hns.
    apply bool_decide_eq_true_2. by exists (wBucket wt). }
  intros (o2 & Ho2 & Hne).
  change (heap (world _))
    with (alter (λ o, withActivity (chanActivityDetected (bActivity o)).2 o)
            (wBucket wt) (heap w')) in Ho2.
  rewrite list_lookup_alter_eq, Ho1 in Ho2. injection Ho2 as <-.
  cbn [bActivity withActivity] in Hne.
  change (chanReportActivity (bActivity o0)) with (bActivity o1) in Hne.
  by rewrite Hx in Hne.
Qed.

Lemma lookup_buys_one_tick_witness :
  ∃ w' s2,
    FindBucket (container idle) "ns_d" "b1" (world idle)
      = Some (Some 1%nat, container idle, w')
    ∧ runWatcher 0 {| container := container idle; world := w' |} = Some s2
    ∧ container s2 = container idle
    ∧ goroutines (world s2) = goroutines (world idle)
    ∧ Exists (container s2) "ns_d" "b1" = true
    ∧ ¬ pending (world s2) 1.
Proof.
  apply (lookup_buys_one_tick sampleCfg idle 0 idleWatcher idle_reachable);
    [reflexivity | reflexivity | reflexivity].
Defined.

End buffers.
